(** * prefect_server.api.flows: flow registration, settings and scheduling

    A shallow embedding of [src/prefect_server/api/flows.py].  The database
    behind [prefect_server.database.models] is a record of four tables, each
    a finite map from the primary key [id] to a row.  Every API coroutine is
    a computation in a state-and-exception monad over that record: a Python
    [raise] is the [Raise] result, carrying the database as it was when the
    exception left the function. *)

From Stdlib Require Import ZArith.
From stdpp Require Import base option list strings gmap fin_maps fin_sets infinite pretty.

Local Open Scope string_scope.
Local Open Scope Z_scope.
Local Open Scope list_scope.

(** ** Python values *)

(** JSON-like values: the [Any] of the pydantic schemas and the contents of
    the jsonb columns. *)
Local Unset Elimination Schemes.
Inductive json : Type :=
  | JNull
  | JBool (b : bool)
  | JNum (z : Z)
  | JStr (s : string)
  | JList (l : list json)
  | JObject (kvs : list (string * json)).
Local Set Elimination Schemes.

(** Python truthiness ([if v:], [a or b], [a and b]). *)
Definition truthy (v : json) : bool :=
  match v with
  | JNull => false
  | JBool b => b
  | JNum z => negb (z =? 0)
  | JStr s => negb (String.eqb s "")
  | JList l => negb (Nat.eqb (length l) 0)
  | JObject kvs => negb (Nat.eqb (length kvs) 0)
  end.

(** Truthiness of an optional value, [None] being falsy. *)
Definition truthy_opt (v : option json) : bool :=
  match v with
  | None => false
  | Some j => truthy j
  end.

(** Truthiness of [s : str] that may be [None]; [not s] is its negation. *)
Definition str_truthy (s : option string) : bool :=
  match s with
  | None => false
  | Some x => negb (String.eqb x "")
  end.

(** ** Exceptions and the API monad *)

Inductive exn : Type :=
  | ValueError (msg : string)
  | AttributeError (msg : string)
  | KeyError (key : string)
  | ValidationError (msg : string)
  | OtherError (msg : string).

Inductive result (A : Type) : Type :=
  | Ok (a : A)
  | Raise (e : exn).
Arguments Ok {A} a.
Arguments Raise {A} e.

Definition is_ValueError (e : exn) : Prop :=
  match e with
  | ValueError _ => True
  | _ => False
  end.

(** ** Schema for deserializing flows *)

Module ClockSchema.
Record t : Type := mk {
  parameter_defaults : gmap string json
}.
End ClockSchema.

Module ScheduleSchema.
Record t : Type := mk {
  clocks : list ClockSchema.t
}.
End ScheduleSchema.

Module TaskSchema.
Record t : Type := mk {
  id : string;
  name : option string;
  slug : string;
  type : option string;
  auto_generated : bool;
  tags : list string;
  max_retries : Z;
  retry_delay : option Z;
  cache_key : option string;
  trigger : option string;
  mapped : bool;
  is_reference_task : bool;
  is_root_task : bool;
  is_terminal_task : bool
}.

(** The four assignments of the loop body in [create_flow]. *)
Definition set_flags (x : t) (m ref root term : bool) : t :=
  {| id := id x; name := name x; slug := slug x; type := type x;
     auto_generated := auto_generated x; tags := tags x;
     max_retries := max_retries x; retry_delay := retry_delay x;
     cache_key := cache_key x; trigger := trigger x;
     mapped := m; is_reference_task := ref;
     is_root_task := root; is_terminal_task := term |}.
End TaskSchema.

Module EdgeSchema.
Record t : Type := mk {
  upstream_task : string;
  downstream_task : string;
  mapped : bool;
  key : option string
}.
End EdgeSchema.

Module ParameterSchema.
Record t : Type := mk {
  name : option string;
  slug : string;
  required : bool;
  default : json
}.
End ParameterSchema.

Module FlowSchema.
Record t : Type := mk {
  name : option string;
  tasks : list TaskSchema.t;
  edges : list EdgeSchema.t;
  parameters : list ParameterSchema.t;
  environment : option (gmap string json);
  storage : option (gmap string json);
  schedule : option ScheduleSchema.t;
  reference_tasks : list string
}.

(** The field defaults of the class: what [FlowSchema()] holds for every
    key the submitted dictionary leaves out. *)
Definition defaults : t :=
  {| name := None; tasks := []; edges := []; parameters := [];
     environment := None; storage := None; schedule := None;
     reference_tasks := [] |}.

(** The same flow with another declaration of reference tasks. *)
Definition set_reference_tasks (f : t) (refs : list string) : t :=
  {| name := name f; tasks := tasks f; edges := edges f;
     parameters := parameters f; environment := environment f;
     storage := storage f; schedule := schedule f;
     reference_tasks := refs |}.
End FlowSchema.

(** A submitted [serialized_flow] dictionary, seen through the two things
    [create_flow] does with it: [FlowSchema( **serialized_flow)], which
    either yields the typed flow or raises pydantic's error, and
    [serialized_flow.get("schedule")]. *)
Module SerializedFlow.
Record t : Type := mk {
  load : result FlowSchema.t;
  get_schedule : option json
}.
End SerializedFlow.

(** ** The [pre=True] validators of the schemas

    They see the submitted value before pydantic types it. *)

(** The value a dictionary holds for [key], the dictionary being given by
    its items in order, a later item replacing an earlier one of the same
    key. *)
Fixpoint dict_lookup (key : string) (items : list (string * json))
    : option json :=
  match items with
  | [] => None
  | (k, v) :: rest =>
    match dict_lookup key rest with
    | Some later => Some later
    | None => if decide (k = key) then Some v else None
    end
  end.

(** [d.get(key)]: [None] when the key is missing. *)
Definition dict_get (key : string) (items : list (string * json)) : json :=
  default JNull (dict_lookup key items).

(** [isinstance(v, dict)] *)
Definition is_dict (v : json) : bool :=
  match v with
  | JObject _ => true
  | _ => false
  end.

(** [TaskSchema._validate_trigger]: core sends the trigger as an
    abbreviated dictionary. *)
Definition _validate_trigger (v : json) : json :=
  match v with
  | JObject items => dict_get "fn" items
  | _ => v
  end.

(** [EdgeSchema._validate_upstream_task]: core sends the task as an
    abbreviated dictionary. *)
Definition _validate_upstream_task (v : json) : json :=
  match v with
  | JObject items => dict_get "slug" items
  | _ => v
  end.

(** [EdgeSchema._validate_downstream_task] *)
Definition _validate_downstream_task (v : json) : json :=
  match v with
  | JObject items => dict_get "slug" items
  | _ => v
  end.

(** [FlowSchema._validate_reference_tasks] on a list [v]: the loop appends
    to [reference_tasks] one entry per element. *)
Definition _validate_reference_tasks (v : list json) : list json :=
  foldl (λ reference_tasks t,
           let t := match t with
                    | JObject items => dict_get "slug" items
                    | _ => t
                    end in
           reference_tasks ++ [t])
        [] v.

(** ** Database models *)

Module Project.
Record t : Type := mk {
  tenant_id : string
}.
End Project.

Module FlowGroup.
Record t : Type := mk {
  tenant_id : string;
  name : string;
  settings : gmap string json;
  schedule : option json
}.

Definition set_settings (g : t) (s : gmap string json) : t :=
  {| tenant_id := tenant_id g; name := name g; settings := s;
     schedule := schedule g |}.
End FlowGroup.

Module Task.
Record t : Type := mk {
  id : string;
  tenant_id : string;
  name : option string;
  slug : string;
  type : option string;
  max_retries : Z;
  tags : list string;
  retry_delay : option Z;
  trigger : option string;
  mapped : bool;
  auto_generated : bool;
  cache_key : option string;
  is_reference_task : bool;
  is_root_task : bool;
  is_terminal_task : bool
}.
End Task.

Module Edge.
Record t : Type := mk {
  tenant_id : string;
  upstream_task_id : string;
  downstream_task_id : string;
  key : option string;
  mapped : bool
}.
End Edge.

Module Flow.
Record t : Type := mk {
  tenant_id : string;
  project_id : string;
  name : option string;
  serialized_flow : SerializedFlow.t;
  environment : option (gmap string json);
  core_version : option json;
  storage : option (gmap string json);
  parameters : list ParameterSchema.t;
  version_group_id : string;
  version : Z;
  archived : bool;
  flow_group_id : string;
  description : option string;
  schedule : option json;
  is_schedule_active : bool;
  tasks : list Task.t;
  edges : list Edge.t
}.

Definition set_archived (f : t) (b : bool) : t :=
  {| tenant_id := tenant_id f; project_id := project_id f; name := name f;
     serialized_flow := serialized_flow f; environment := environment f;
     core_version := core_version f; storage := storage f;
     parameters := parameters f; version_group_id := version_group_id f;
     version := version f; archived := b;
     flow_group_id := flow_group_id f; description := description f;
     schedule := schedule f; is_schedule_active := is_schedule_active f;
     tasks := tasks f; edges := edges f |}.

Definition set_is_schedule_active (f : t) (b : bool) : t :=
  {| tenant_id := tenant_id f; project_id := project_id f; name := name f;
     serialized_flow := serialized_flow f; environment := environment f;
     core_version := core_version f; storage := storage f;
     parameters := parameters f; version_group_id := version_group_id f;
     version := version f; archived := archived f;
     flow_group_id := flow_group_id f; description := description f;
     schedule := schedule f; is_schedule_active := b;
     tasks := tasks f; edges := edges f |}.

Definition set_schedule (f : t) (s : option json) : t :=
  {| tenant_id := tenant_id f; project_id := project_id f; name := name f;
     serialized_flow := serialized_flow f; environment := environment f;
     core_version := core_version f; storage := storage f;
     parameters := parameters f; version_group_id := version_group_id f;
     version := version f; archived := archived f;
     flow_group_id := flow_group_id f; description := description f;
     schedule := s; is_schedule_active := is_schedule_active f;
     tasks := tasks f; edges := edges f |}.

Definition set_project_id (f : t) (p : string) : t :=
  {| tenant_id := tenant_id f; project_id := p; name := name f;
     serialized_flow := serialized_flow f; environment := environment f;
     core_version := core_version f; storage := storage f;
     parameters := parameters f; version_group_id := version_group_id f;
     version := version f; archived := archived f;
     flow_group_id := flow_group_id f; description := description f;
     schedule := schedule f; is_schedule_active := is_schedule_active f;
     tasks := tasks f; edges := edges f |}.
End Flow.

Module FlowRun.
Record t : Type := mk {
  flow_id : string;
  scheduled_start_time : Z;
  parameters : gmap string json;
  state : string;
  auto_scheduled : bool;
  idempotency_key : option string
}.

Definition set_auto_scheduled (r : t) (b : bool) : t :=
  {| flow_id := flow_id r; scheduled_start_time := scheduled_start_time r;
     parameters := parameters r; state := state r; auto_scheduled := b;
     idempotency_key := idempotency_key r |}.
End FlowRun.

(** The database: one finite map per table, keyed by the row's [id]. *)
Record DB : Type := mkDB {
  projects : gmap string Project.t;
  flow_groups : gmap string FlowGroup.t;
  flows : gmap string Flow.t;
  flow_runs : gmap string FlowRun.t
}.

Definition set_flow_groups (db : DB) (m : gmap string FlowGroup.t) : DB :=
  {| projects := projects db; flow_groups := m; flows := flows db;
     flow_runs := flow_runs db |}.

Definition set_flows (db : DB) (m : gmap string Flow.t) : DB :=
  {| projects := projects db; flow_groups := flow_groups db; flows := m;
     flow_runs := flow_runs db |}.

Definition set_flow_runs (db : DB) (m : gmap string FlowRun.t) : DB :=
  {| projects := projects db; flow_groups := flow_groups db;
     flows := flows db; flow_runs := m |}.

(** ** The monad of API calls *)

Definition M (A : Type) : Type := DB → result A * DB.

Global Instance M_ret : MRet M := λ A a db, (Ok a, db).

Global Instance M_bind : MBind M := λ A B k c db,
  match c db with
  | (Ok a, db') => k a db'
  | (Raise e, db') => (Raise e, db')
  end.

Definition raise {A} (e : exn) : M A := λ db, (Raise e, db).

Definition get : M DB := λ db, (Ok db, db).

Definition put (db' : DB) : M unit := λ _, (Ok tt, db').

(** ** Query helpers *)

(** [Model.where(P)]: the rows of a table that satisfy a filter. *)
Definition where_ {A} (P : A → Prop) `{!∀ x, Decision (P x)}
    (table : gmap string A) : list (string * A) :=
  filter (λ kr, P kr.2) (map_to_list table).

(** [.first()] *)
Definition first {A} (rows : list (string * A)) : option (string * A) :=
  head rows.

(** The [max] aggregate of SQL: [None] over no rows. *)
Definition max_opt (l : list Z) : option Z :=
  foldr (λ x acc, Some (match acc with Some y => Z.max x y | None => x end))
        None l.

(** [.update(set=...)] on the rows selected by id: the new table and
    [affected_rows]. *)
Definition update_by_id {A} (i : string) (f : A → A) (table : gmap string A)
    : gmap string A * nat :=
  match table !! i with
  | Some _ => (alter f i table, 1%nat)
  | None => (table, 0%nat)
  end.

(** [.insert()]: the row gets an id no row of the table has, and the id is
    returned. *)
Definition insert_row {A} (row : A) (table : gmap string A)
    : string * gmap string A :=
  let i := fresh (dom table) in (i, <[i := row]> table).

(** ** The API *)

Module Event.
(** An occurrence produced by [Schedule.next(..., return_events=True)]. *)
Record t : Type := mk {
  start_time : Z;
  parameter_defaults : gmap string json
}.
End Event.

Section api.
(** What the module imports from Prefect Core and from [packaging]. *)

(** [prefect.schedules.Schedule]. *)
Variable Schedule : Type.
(** [schedule_schema.load]; [None] when it raises. *)
Variable schedule_schema_load : option json → option Schedule.
(** [flow_schedule.next(n=max_runs, return_events=True)], evaluated at a
    given reading of the clock. *)
Variable schedule_next : Schedule → Z → Z → list Event.t.
(** [str(start_time.in_tz('UTC'))] for an instant. *)
Variable in_tz_UTC : Z → string.
(** [module_version.parse(core_version) <
    module_version.parse(config.core_version_cutoff)], or the exception
    [parse] raises. *)
Variable core_version_lt_cutoff : json → result bool.
(** [config.core_version_cutoff] *)
Variable core_version_cutoff : string.
(** What a replacement field of an f-string renders a value that is not a
    string as. *)
Variable format_non_str : json → string.

(** *** Settings *)

Definition _update_flow_setting (flow_id : option string) (key : string)
    (value : json) : M FlowGroup.t :=
  match flow_id with
  | None => raise (ValueError "Invalid flow ID")
  | Some fid =>
    db ← get;
    (* retrieve current settings so that we only update provided keys *)
    match flows db !! fid with
    | None => raise (ValueError "Invalid flow ID")
    | Some flow =>
      match flow_groups db !! Flow.flow_group_id flow with
      | None => raise (AttributeError "flow_group")
      | Some flow_group =>
        let settings := <[key := value]> (FlowGroup.settings flow_group) in
        (* update with new settings *)
        let '(groups, affected_rows) :=
          update_by_id (Flow.flow_group_id flow)
            (λ g, FlowGroup.set_settings g settings) (flow_groups db) in
        put (set_flow_groups db groups);;
        if Nat.eqb affected_rows 0
        then raise (ValueError "Settings update failed")
        else mret (FlowGroup.set_settings flow_group settings)
      end
    end
  end.

Definition enable_heartbeat_for_flow (flow_id : option string) : M bool :=
  _update_flow_setting flow_id "disable_heartbeat" (JBool false);;
  _update_flow_setting flow_id "heartbeat_enabled" (JBool true);;
  mret true.

Definition disable_heartbeat_for_flow (flow_id : option string) : M bool :=
  _update_flow_setting flow_id "disable_heartbeat" (JBool true);;
  _update_flow_setting flow_id "heartbeat_enabled" (JBool false);;
  mret true.

Definition enable_lazarus_for_flow (flow_id : option string) : M bool :=
  _update_flow_setting flow_id "lazarus_enabled" (JBool true);;
  mret true.

Definition disable_lazarus_for_flow (flow_id : option string) : M bool :=
  _update_flow_setting flow_id "lazarus_enabled" (JBool false);;
  mret true.

Definition enable_version_locking_for_flow (flow_id : option string)
    : M bool :=
  _update_flow_setting flow_id "version_locking_enabled" (JBool true);;
  mret true.

Definition disable_version_locking_for_flow (flow_id : option string)
    : M bool :=
  _update_flow_setting flow_id "version_locking_enabled" (JBool false);;
  mret true.

(** *** Scheduling *)

(** The idempotency key [f"auto-scheduled:{start_time.in_tz('UTC')}"]. *)
Definition idempotency_key_of (start_time : Z) : string :=
  "auto-scheduled:" +:+ in_tz_UTC start_time.

(** Modelled from the spec: [api.runs.create_flow_run] is not part of this
    module.  It creates a FlowRun in state Scheduled with the given
    [scheduled_start_time], [parameters] and [idempotency_key], not yet
    marked [auto_scheduled]; a duplicate insert attempt for the same flow
    and idempotency key creates no second run and is treated as already
    scheduled, answering with the run that holds the key. *)
Definition create_flow_run (flow_id : string) (scheduled_start_time : Z)
    (parameters : gmap string json) (idempotency_key : string) : M string :=
  db ← get;
  match first (where_ (λ r, FlowRun.flow_id r = flow_id
                            ∧ FlowRun.idempotency_key r = Some idempotency_key)
                      (flow_runs db)) with
  | Some (run_id, _) => mret run_id
  | None =>
    let '(run_id, runs) :=
      insert_row
        {| FlowRun.flow_id := flow_id;
           FlowRun.scheduled_start_time := scheduled_start_time;
           FlowRun.parameters := parameters;
           FlowRun.state := "Scheduled";
           FlowRun.auto_scheduled := false;
           FlowRun.idempotency_key := Some idempotency_key |}
        (flow_runs db) in
    put (set_flow_runs db runs);;
    mret run_id
  end.

(** The [flow_runs_aggregate] of the flow query: the maximum
    [scheduled_start_time] over the flow's runs with
    [auto_scheduled = true]. *)
Definition flow_runs_aggregate_max (db : DB) (flow_id : string) : option Z :=
  max_opt (FlowRun.scheduled_start_time <$>
           (where_ (λ r, FlowRun.flow_id r = flow_id
                         ∧ FlowRun.auto_scheduled r = true)
                   (flow_runs db)).*2).

(** The filter of the flow query in [schedule_flow_runs]. *)
Definition schedulable (db : DB) (flow : Flow.t) : bool :=
  (bool_decide (is_Some (Flow.schedule flow))
   || match flow_groups db !! Flow.flow_group_id flow with
      | Some g => bool_decide (is_Some (FlowGroup.schedule g))
      | None => false
      end)
  && Flow.is_schedule_active flow
  && negb (Flow.archived flow).

(** [models.Flow.where({...}).first({...})] of [schedule_flow_runs]. *)
Definition flow_query (db : DB) (flow_id : string) : option Flow.t :=
  match flows db !! flow_id with
  | Some flow => if schedulable db flow then Some flow else None
  | None => None
  end.

(** The schedule a pass works from: the flow group's when it is truthy,
    the flow's own otherwise. *)
Definition effective_schedule (flow_group : FlowGroup.t) (flow : Flow.t)
    : option json :=
  (* attempt to pull the schedule from the flow group if possible *)
  if truthy_opt (FlowGroup.schedule flow_group)
  then FlowGroup.schedule flow_group
  (* if not possible, pull the schedule from the flow *)
  else Flow.schedule flow.

(** [last_scheduled_run]: the parsed aggregate, or [pendulum.now("UTC")]. *)
Definition last_scheduled_run (db : DB) (flow_id : string) (now : Z) : Z :=
  match flow_runs_aggregate_max db flow_id with
  | Some t => t
  | None => now
  end.

(** The [for event in ...] loop, [run_ids] being the list built so far. *)
Fixpoint schedule_events (flow_id : string) (last_scheduled_run : Z)
    (events : list Event.t) (run_ids : list string) : M (list string) :=
  match events with
  | [] => mret run_ids
  | event :: rest =>
    (* if this run was already scheduled, continue *)
    if Event.start_time event <=? last_scheduled_run
    then schedule_events flow_id last_scheduled_run rest run_ids
    else
      run_id ← create_flow_run flow_id (Event.start_time event)
                  (Event.parameter_defaults event)
                  (idempotency_key_of (Event.start_time event));
      schedule_events flow_id last_scheduled_run rest (run_ids ++ [run_id])
  end.

(** [models.FlowRun.where({"id": {"_in": run_ids}}).update(
    set={"auto_scheduled": True})] *)
Definition mark_auto_scheduled (run_ids : list string)
    (runs : gmap string FlowRun.t) : gmap string FlowRun.t :=
  map_imap (λ i r, Some (if bool_decide (i ∈ run_ids)
                         then FlowRun.set_auto_scheduled r true
                         else r)) runs.

Definition schedule_flow_runs (now : Z) (flow_id : option string)
    (max_runs : option Z) : M (list string) :=
  let max_runs := default 10 max_runs in
  match flow_id with
  | None => raise (ValueError "Invalid flow id.")
  | Some fid =>
    let run_ids : list string := [] in
    db ← get;
    match flow_query db fid with
    | None => mret run_ids
    | Some flow =>
      match flow_groups db !! Flow.flow_group_id flow with
      | None => raise (AttributeError "schedule")
      | Some flow_group =>
        let flow_schedule := effective_schedule flow_group flow in
        match schedule_schema_load flow_schedule with
        | None => mret run_ids
        | Some flow_schedule =>
          let last := last_scheduled_run db fid now in
          (* schedule every event with an idempotent flow run *)
          run_ids ← schedule_events fid last
                       (schedule_next flow_schedule now max_runs) run_ids;
          db' ← get;
          put (set_flow_runs db'
                 (mark_auto_scheduled run_ids (flow_runs db')));;
          mret run_ids
        end
      end
    end
  end.

(** *** Registering a flow *)

(** [f"{v}"]: a string is rendered as it is. *)
Definition format_field (v : json) : string :=
  match v with
  | JStr s => s
  | _ => format_non_str v
  end.

(** The core-version gate: versions below the cutoff are refused; a
    missing or falsy [__version__] skips the comparison. *)
Definition check_core_version (core_version : option json) : M unit :=
  match core_version with
  | Some v =>
    if truthy v
    then match core_version_lt_cutoff v with
         | Raise e => raise e
         | Ok true =>
           raise (ValueError
                    ("Prefect Serve requires new flows to be built with Prefect "
                     +:+ core_version_cutoff
                     +:+ "+, but this flow was built with "
                     +:+ "Prefect " +:+ format_field v +:+ "."))
         | Ok false => mret tt
         end
    else mret tt
  | None => mret tt
  end.

(** [required_names <= set(c.parameter_defaults)] *)
Definition covers (required_names : list (option string))
    (c : ClockSchema.t) : bool :=
  forallb
    (λ n, match n with
          | Some s => bool_decide (s ∈ dom (ClockSchema.parameter_defaults c))
          | None => false
          end)
    required_names.

(** The required-parameter check: [true] when [create_flow] raises. *)
Definition unschedulable_parameters (flow : FlowSchema.t) : bool :=
  let required_parameters :=
    filter (λ p, ParameterSchema.required p = true)
           (FlowSchema.parameters flow) in
  match FlowSchema.schedule flow with
  | Some schedule =>
    match required_parameters with
    | [] => false
    | _ =>
      let required_names := ParameterSchema.name <$> required_parameters in
      negb (forallb (covers required_names) (ScheduleSchema.clocks schedule))
    end
  | None => false
  end.

(** [{t.slug: t for t in flow.tasks}]: a later task replaces an earlier
    one of the same slug. *)
Definition task_lookup (flow : FlowSchema.t) : gmap string TaskSchema.t :=
  foldl (λ m t, <[TaskSchema.slug t := t]> m) ∅ (FlowSchema.tasks flow).

Definition tasks_with_upstreams (flow : FlowSchema.t) : gset string :=
  list_to_set (EdgeSchema.downstream_task <$> FlowSchema.edges flow).

Definition tasks_with_downstreams (flow : FlowSchema.t) : gset string :=
  list_to_set (EdgeSchema.upstream_task <$> FlowSchema.edges flow).

(** [set(flow.reference_tasks) or {t.slug for t in flow.tasks if ...}] *)
Definition reference_tasks (flow : FlowSchema.t) : gset string :=
  let declared : gset string :=
    list_to_set (FlowSchema.reference_tasks flow) in
  if decide (declared = ∅)
  then list_to_set
         (TaskSchema.slug <$>
          filter (λ t, TaskSchema.slug t ∉ tasks_with_downstreams flow)
                 (FlowSchema.tasks flow))
  else declared.

(** The body of [for t in flow.tasks]. *)
Definition set_task_detail (flow : FlowSchema.t) (t : TaskSchema.t)
    : TaskSchema.t :=
  TaskSchema.set_flags t
    (existsb EdgeSchema.mapped
       (filter (λ e, EdgeSchema.downstream_task e = TaskSchema.slug t)
               (FlowSchema.edges flow)))
    (bool_decide (TaskSchema.slug t ∈ reference_tasks flow))
    (bool_decide (TaskSchema.slug t ∉ tasks_with_upstreams flow))
    (bool_decide (TaskSchema.slug t ∉ tasks_with_downstreams flow)).

Definition task_row (tenant_id : string) (t : TaskSchema.t) : Task.t :=
  {| Task.id := TaskSchema.id t;
     Task.tenant_id := tenant_id;
     Task.name := TaskSchema.name t;
     Task.slug := TaskSchema.slug t;
     Task.type := TaskSchema.type t;
     Task.max_retries := TaskSchema.max_retries t;
     Task.tags := TaskSchema.tags t;
     Task.retry_delay := TaskSchema.retry_delay t;
     Task.trigger := TaskSchema.trigger t;
     Task.mapped := TaskSchema.mapped t;
     Task.auto_generated := TaskSchema.auto_generated t;
     Task.cache_key := TaskSchema.cache_key t;
     Task.is_reference_task := TaskSchema.is_reference_task t;
     Task.is_root_task := TaskSchema.is_root_task t;
     Task.is_terminal_task := TaskSchema.is_terminal_task t |}.

(** The [edges=[...]] comprehension: [task_lookup[slug]] raises
    [KeyError] for a slug no task has. *)
Fixpoint edge_rows (tenant_id : string)
    (lookup : gmap string TaskSchema.t) (edges : list EdgeSchema.t)
    : result (list Edge.t) :=
  match edges with
  | [] => Ok []
  | e :: rest =>
    match lookup !! EdgeSchema.upstream_task e with
    | None => Raise (KeyError (EdgeSchema.upstream_task e))
    | Some up =>
      match lookup !! EdgeSchema.downstream_task e with
      | None => Raise (KeyError (EdgeSchema.downstream_task e))
      | Some down =>
        match edge_rows tenant_id lookup rest with
        | Raise ex => Raise ex
        | Ok rows =>
          Ok ({| Edge.tenant_id := tenant_id;
                 Edge.upstream_task_id := TaskSchema.id up;
                 Edge.downstream_task_id := TaskSchema.id down;
                 Edge.key := EdgeSchema.key e;
                 Edge.mapped := EdgeSchema.mapped e |} :: rows)
        end
      end
    end
  end.

(** The settings a new flow group starts with. *)
Definition default_settings : gmap string json :=
  <["heartbeat_enabled" := JBool true]>
    (<["lazarus_enabled" := JBool true]>
       (<["version_locking_enabled" := JBool false]> ∅)).

(** [models.FlowGroup.where({tenant_id, name}).first()] *)
Definition find_flow_group (db : DB) (tenant_id name : string)
    : option (string * FlowGroup.t) :=
  first (where_ (λ g, FlowGroup.tenant_id g = tenant_id
                      ∧ FlowGroup.name g = name)
                (flow_groups db)).

(** [models.Flow.where(version_where).max({"version"})] *)
Definition max_version (db : DB) (tenant_id version_group_id : string)
    : option Z :=
  max_opt (Flow.version <$>
           (where_ (λ f, Flow.version_group_id f = version_group_id
                         ∧ Flow.tenant_id f = tenant_id)
                   (flows db)).*2).

(** [version_group_id or str(uuid.uuid4())] *)
Definition resolve_version_group_id (version_group_id : option string)
    (uuid4 : string) : string :=
  match version_group_id with
  | Some v => if str_truthy (Some v) then v else uuid4
  | None => uuid4
  end.

(** Set up a flow group if it's not already in the system. *)
Definition get_or_create_flow_group (tenant_id version_group_id : string)
    : M string :=
  db ← get;
  match find_flow_group db tenant_id version_group_id with
  | None =>
    let '(flow_group_id, groups) :=
      insert_row
        {| FlowGroup.tenant_id := tenant_id;
           FlowGroup.name := version_group_id;
           FlowGroup.settings := default_settings;
           FlowGroup.schedule := None |}
        (flow_groups db) in
    put (set_flow_groups db groups);;
    mret flow_group_id
  | Some (flow_group_id, _) => mret flow_group_id
  end.

(** The [models.Flow(...)] row [create_flow] inserts. *)
Definition new_flow (serialized_flow : SerializedFlow.t)
    (flow : FlowSchema.t) (tenant_id project_id version_group_id : string)
    (version : Z) (flow_group_id : string) (description : option string)
    (set_schedule_active : bool) (edges : list Edge.t) : Flow.t :=
  {| Flow.tenant_id := tenant_id;
     Flow.project_id := project_id;
     Flow.name := FlowSchema.name flow;
     Flow.serialized_flow := serialized_flow;
     Flow.environment := FlowSchema.environment flow;
     Flow.core_version := FlowSchema.environment flow ≫= (.!! "__version__");
     Flow.storage := FlowSchema.storage flow;
     Flow.parameters := FlowSchema.parameters flow;
     Flow.version_group_id := version_group_id;
     Flow.version := version + 1;
     Flow.archived := false;
     Flow.flow_group_id := flow_group_id;
     Flow.description := description;
     Flow.schedule := SerializedFlow.get_schedule serialized_flow;
     Flow.is_schedule_active := set_schedule_active;
     Flow.tasks :=
       task_row tenant_id <$> (set_task_detail flow <$> FlowSchema.tasks flow);
     Flow.edges := edges |}.

(** [uuid4] is the string [str(uuid.uuid4())] evaluates to when the call
    is reached; [now] is the reading of the clock. *)
Definition create_flow (now : Z) (uuid4 : string)
    (serialized_flow : SerializedFlow.t) (project_id : string)
    (version_group_id : option string) (set_schedule_active : bool)
    (description : option string) : M string :=
  match SerializedFlow.load serialized_flow with
  | Raise e => raise e
  | Ok flow =>
    (* core versions before 0.6.1 were used only for internal purposes *)
    match FlowSchema.environment flow with
    | None => raise (AttributeError "get")
    | Some environment =>
      check_core_version (environment !! "__version__");;
      (* load project *)
      db ← get;
      match projects db !! project_id with
      | None => raise (ValueError "Invalid project.")
      | Some project =>
        let tenant_id := Project.tenant_id project in
        (* check required parameters *)
        if unschedulable_parameters flow
        then raise (ValueError "Can not schedule a flow that has required parameters.")
        else
          (* set up task detail info *)
          let lookup := task_lookup flow in
          (* set up versioning *)
          let version_group_id :=
            resolve_version_group_id version_group_id uuid4 in
          flow_group_id ← get_or_create_flow_group tenant_id version_group_id;
          db ← get;
          let version :=
            default 0 (max_version db tenant_id version_group_id) in
          match edge_rows tenant_id lookup (FlowSchema.edges flow) with
          | Raise e => raise e
          | Ok edges =>
            let '(flow_id, rows) :=
              insert_row
                (new_flow serialized_flow flow tenant_id project_id
                   version_group_id version flow_group_id description
                   set_schedule_active edges)
                (flows db) in
            put (set_flows db rows);;
            (* schedule runs *)
            (if set_schedule_active
             then schedule_flow_runs now (Some flow_id) None;; mret tt
             else mret tt);;
            mret flow_id
          end
      end
    end
  end.

(** *** Deleting, archiving, activating *)

(** [.delete()] on the rows that satisfy a filter. *)
Definition delete_where {A} (P : A → Prop) `{!∀ x, Decision (P x)}
    (table : gmap string A) : gmap string A :=
  filter (λ kr, ¬ P kr.2) table.

Definition archive_flow (flow_id : option string) : M bool :=
  if str_truthy flow_id
  then
    let fid := default "" flow_id in
    db ← get;
    let '(rows, affected_rows) :=
      update_by_id fid (λ f, Flow.set_archived f true) (flows db) in
    put (set_flows db rows);;
    if Nat.eqb affected_rows 0
    then mret false
    else
      (* delete scheduled flow runs *)
      db ← get;
      put (set_flow_runs db
             (delete_where (λ r, FlowRun.flow_id r = fid
                                 ∧ FlowRun.state r = "Scheduled")
                           (flow_runs db)));;
      mret true
  else raise (ValueError "Must provide flow ID.").

Definition set_schedule_active (now : Z) (flow_id : option string)
    : M bool :=
  match flow_id with
  | None => raise (ValueError "Invalid flow id.")
  | Some fid =>
    db ← get;
    let '(rows, affected_rows) :=
      update_by_id fid (λ f, Flow.set_is_schedule_active f true)
                   (flows db) in
    put (set_flows db rows);;
    if Nat.eqb affected_rows 0
    then mret false
    else schedule_flow_runs now (Some fid) None;; mret true
  end.

Definition set_schedule_inactive (flow_id : option string) : M bool :=
  match flow_id with
  | None => raise (ValueError "Invalid flow id.")
  | Some fid =>
    db ← get;
    let '(rows, affected_rows) :=
      update_by_id fid (λ f, Flow.set_is_schedule_active f false)
                   (flows db) in
    put (set_flows db rows);;
    if Nat.eqb affected_rows 0
    then mret false
    else
      db ← get;
      put (set_flow_runs db
             (delete_where (λ r, FlowRun.flow_id r = fid
                                 ∧ FlowRun.state r = "Scheduled"
                                 ∧ FlowRun.auto_scheduled r = true)
                           (flow_runs db)));;
      mret true
  end.

(** The cascade the schema attaches to the deletion of a Flow row is not
    part of this module: only the Flow table is written here. *)
Definition delete_flow (flow_id : option string) : M bool :=
  if str_truthy flow_id
  then
    let fid := default "" flow_id in
    (* delete the flow *)
    db ← get;
    let affected_rows :=
      match flows db !! fid with Some _ => 1%nat | None => 0%nat end in
    put (set_flows db (delete fid (flows db)));;
    mret (negb (Nat.eqb affected_rows 0))
  else raise (ValueError "Must provide flow ID.").

Definition unarchive_flow (now : Z) (flow_id : option string) : M bool :=
  if str_truthy flow_id
  then
    let fid := default "" flow_id in
    db ← get;
    let '(rows, affected_rows) :=
      update_by_id fid (λ f, Flow.set_archived f false) (flows db) in
    put (set_flows db rows);;
    (* if the schedule is active, jog it to trigger scheduling *)
    (if negb (Nat.eqb affected_rows 0)
        && match rows !! fid with
           | Some f => Flow.is_schedule_active f
           | None => false
           end
     then set_schedule_active now (Some fid);; mret tt
     else mret tt);;
    mret (negb (Nat.eqb affected_rows 0))
  else raise (ValueError "Must provide flow ID.").

(** The filter [{"id": ..., "tenant": {"projects": {"id": ...}}}]: the flow
    of that id, provided its tenant has a project of the given id. *)
Definition in_tenant_of_project (db : DB) (project_id : string)
    (flow : Flow.t) : bool :=
  match projects db !! project_id with
  | Some project =>
    bool_decide (Project.tenant_id project = Flow.tenant_id flow)
  | None => false
  end.

Definition update_flow_project (flow_id project_id : option string)
    : M string :=
  match flow_id with
  | None => raise (ValueError "Invalid flow ID.")
  | Some fid =>
    match project_id with
    | None => raise (ValueError "Invalid project ID.")
    | Some pid =>
      db ← get;
      let '(rows, affected_rows) :=
        match flows db !! fid with
        | Some flow =>
          if in_tenant_of_project db pid flow
          then (alter (λ f, Flow.set_project_id f pid) fid (flows db), 1%nat)
          else (flows db, 0%nat)
        | None => (flows db, 0%nat)
        end in
      put (set_flows db rows);;
      if Nat.eqb affected_rows 0
      then raise (ValueError "Invalid flow or project ID.")
      else mret fid
    end
  end.
End api.

(** ** A concrete installation

    One instance of the imported collaborators and a small database, on
    which the properties below are exercised. *)

Module Example.
(** A schedule is the list of occurrences it yields. *)
Definition Schedule : Type := list Event.t.

Definition event_of (j : json) : option Event.t :=
  match j with
  | JNum t => Some {| Event.start_time := t; Event.parameter_defaults := ∅ |}
  | _ => None
  end.

(** A serialized schedule is a list of instants; anything else fails to
    deserialize. *)
Definition schedule_schema_load (j : option json) : option Schedule :=
  match j with
  | Some (JList l) => mapM event_of l
  | _ => None
  end.

Definition schedule_next (s : Schedule) (now n : Z) : list Event.t :=
  take (Z.to_nat n) s.

Definition in_tz_UTC (t : Z) : string := pretty t.

Definition core_version_lt_cutoff (v : json) : result bool :=
  match v with
  | JStr s => Ok (bool_decide (s = "0.5.0"))
  | _ => Raise (OtherError "TypeError")
  end.

Definition core_version_cutoff : string := "0.6.1".

(** Not rendered in a message here: the comparison above raises on a
    value that is not a string. *)
Definition format_non_str (v : json) : string :=
  match v with
  | JNull => "None"
  | JBool true => "True"
  | JBool false => "False"
  | JNum z => pretty z
  | _ => "..."
  end.

Definition task (slug : string) : TaskSchema.t :=
  {| TaskSchema.id := "task-" +:+ slug; TaskSchema.name := Some slug;
     TaskSchema.slug := slug; TaskSchema.type := None;
     TaskSchema.auto_generated := false; TaskSchema.tags := [];
     TaskSchema.max_retries := 0; TaskSchema.retry_delay := None;
     TaskSchema.cache_key := None; TaskSchema.trigger := None;
     TaskSchema.mapped := false; TaskSchema.is_reference_task := false;
     TaskSchema.is_root_task := false;
     TaskSchema.is_terminal_task := false |}.

Definition edge (up down : string) (mapped : bool) : EdgeSchema.t :=
  {| EdgeSchema.upstream_task := up; EdgeSchema.downstream_task := down;
     EdgeSchema.mapped := mapped; EdgeSchema.key := None |}.

Definition environment : gmap string json :=
  {[ "__version__" := JStr "0.13.0" ]}.

(** Tasks a -> b -> c, the second edge mapped. *)
Definition flow : FlowSchema.t :=
  {| FlowSchema.name := Some "etl";
     FlowSchema.tasks := [task "a"; task "b"; task "c"];
     FlowSchema.edges := [edge "a" "b" false; edge "b" "c" true];
     FlowSchema.parameters := [];
     FlowSchema.environment := Some environment;
     FlowSchema.storage := None;
     FlowSchema.schedule := None;
     FlowSchema.reference_tasks := [] |}.

Definition serialized_flow : SerializedFlow.t :=
  {| SerializedFlow.load := Ok flow; SerializedFlow.get_schedule := None |}.

(** The same flow declaring a reference task no task carries. *)
Definition flow_ghost_reference : FlowSchema.t :=
  {| FlowSchema.name := Some "etl";
     FlowSchema.tasks := [task "a"; task "b"; task "c"];
     FlowSchema.edges := [edge "a" "b" false; edge "b" "c" true];
     FlowSchema.parameters := [];
     FlowSchema.environment := Some environment;
     FlowSchema.storage := None;
     FlowSchema.schedule := None;
     FlowSchema.reference_tasks := ["ghost"] |}.

Definition serialized_flow_ghost_reference : SerializedFlow.t :=
  {| SerializedFlow.load := Ok flow_ghost_reference;
     SerializedFlow.get_schedule := None |}.

(** A flow without an environment mapping. *)
Definition flow_no_environment : FlowSchema.t :=
  {| FlowSchema.name := Some "bare";
     FlowSchema.tasks := [task "a"];
     FlowSchema.edges := [];
     FlowSchema.parameters := [];
     FlowSchema.environment := None;
     FlowSchema.storage := None;
     FlowSchema.schedule := None;
     FlowSchema.reference_tasks := [] |}.

Definition serialized_flow_no_environment : SerializedFlow.t :=
  {| SerializedFlow.load := Ok flow_no_environment;
     SerializedFlow.get_schedule := None |}.

(** A scheduled flow with a required parameter ["x"] whose only clock has
    no parameter defaults. *)
Definition flow_required_parameter : FlowSchema.t :=
  {| FlowSchema.name := Some "needs-x";
     FlowSchema.tasks := [task "a"];
     FlowSchema.edges := [];
     FlowSchema.parameters :=
       [ {| ParameterSchema.name := Some "x"; ParameterSchema.slug := "x";
            ParameterSchema.required := true;
            ParameterSchema.default := JNull |} ];
     FlowSchema.environment := Some environment;
     FlowSchema.storage := None;
     FlowSchema.schedule :=
       Some {| ScheduleSchema.clocks :=
                 [ {| ClockSchema.parameter_defaults := ∅ |} ] |};
     FlowSchema.reference_tasks := [] |}.

Definition serialized_flow_required_parameter : SerializedFlow.t :=
  {| SerializedFlow.load := Ok flow_required_parameter;
     SerializedFlow.get_schedule := Some (JList [JNum 100]) |}.

Definition group : FlowGroup.t :=
  {| FlowGroup.tenant_id := "tenant"; FlowGroup.name := "vg";
     FlowGroup.settings :=
       {[ "heartbeat_enabled" := JBool true;
          "lazarus_enabled" := JBool true;
          "version_locking_enabled" := JBool false ]};
     FlowGroup.schedule := None |}.

(** A stored flow ["f"] with an active schedule of occurrences at 50, 100,
    200 and 300. *)
Definition stored_flow (schedule : option json) : Flow.t :=
  {| Flow.tenant_id := "tenant"; Flow.project_id := "project";
     Flow.name := Some "etl"; Flow.serialized_flow := serialized_flow;
     Flow.environment := Some environment;
     Flow.core_version := Some (JStr "0.13.0"); Flow.storage := None;
     Flow.parameters := []; Flow.version_group_id := "vg";
     Flow.version := 1; Flow.archived := false; Flow.flow_group_id := "g";
     Flow.description := None; Flow.schedule := schedule;
     Flow.is_schedule_active := true; Flow.tasks := []; Flow.edges := [] |}.

Definition run (start : Z) (state : string) (auto : bool) : FlowRun.t :=
  {| FlowRun.flow_id := "f"; FlowRun.scheduled_start_time := start;
     FlowRun.parameters := ∅; FlowRun.state := state;
     FlowRun.auto_scheduled := auto; FlowRun.idempotency_key := None |}.

(** A database with one project and nothing else. *)
Definition empty_db : DB :=
  {| projects := {[ "project" := {| Project.tenant_id := "tenant" |} ]};
     flow_groups := ∅; flows := ∅; flow_runs := ∅ |}.

(** One flow, its group, and three runs: an auto-scheduled Scheduled run,
    a manually created Scheduled run and a Running one. *)
Definition db : DB :=
  {| projects := {[ "project" := {| Project.tenant_id := "tenant" |} ]};
     flow_groups := {[ "g" := group ]};
     flows :=
       {[ "f" := stored_flow
                   (Some (JList [JNum 50; JNum 100; JNum 200; JNum 300])) ]};
     flow_runs :=
       {[ "r1" := run 100 "Scheduled" true;
          "r2" := run 150 "Scheduled" false;
          "r3" := run 20 "Running" true ]} |}.

(** The same with a schedule that does not deserialize. *)
Definition db_bad_schedule : DB :=
  {| projects := projects db;
     flow_groups := flow_groups db;
     flows := {[ "f" := stored_flow (Some (JStr "every day")) ]};
     flow_runs := flow_runs db |}.

Definition create_flow :=
  create_flow Schedule schedule_schema_load schedule_next in_tz_UTC
    core_version_lt_cutoff core_version_cutoff format_non_str.

Definition schedule_flow_runs :=
  schedule_flow_runs Schedule schedule_schema_load schedule_next in_tz_UTC.
(** The flow ["f"] with its schedule switched off. *)
Definition db_inactive : DB :=
  {| projects := projects db;
     flow_groups := flow_groups db;
     flows :=
       {[ "f" := Flow.set_is_schedule_active
                   (stored_flow (Some (JList [JNum 50; JNum 100]))) false ]};
     flow_runs := flow_runs db |}.

(** A group that carries a schedule of its own. *)
Definition group_with_schedule : FlowGroup.t :=
  {| FlowGroup.tenant_id := "tenant"; FlowGroup.name := "vg";
     FlowGroup.settings := ∅;
     FlowGroup.schedule := Some (JList [JNum 500; JNum 600]) |}.

Definition db_group_schedule : DB :=
  {| projects := projects db;
     flow_groups := {[ "g" := group_with_schedule ]};
     flows := flows db;
     flow_runs := flow_runs db |}.

(** Two tenants, each with a project; the flow ["f"] belongs to the
    first. *)
Definition db_two_tenants : DB :=
  {| projects :=
       {[ "project" := {| Project.tenant_id := "tenant" |};
          "project2" := {| Project.tenant_id := "tenant" |};
          "elsewhere" := {| Project.tenant_id := "other" |} ]};
     flow_groups := flow_groups db;
     flows := flows db;
     flow_runs := flow_runs db |}.

Definition set_schedule_active :=
  set_schedule_active Schedule schedule_schema_load schedule_next in_tz_UTC.

Definition unarchive_flow :=
  unarchive_flow Schedule schedule_schema_load schedule_next in_tz_UTC.

(** A flow whose only edge ends in a slug no task carries. *)
Definition flow_dangling_edge : FlowSchema.t :=
  {| FlowSchema.name := Some "dangling";
     FlowSchema.tasks := [task "a"];
     FlowSchema.edges := [edge "a" "ghost" false];
     FlowSchema.parameters := [];
     FlowSchema.environment := Some environment;
     FlowSchema.storage := None;
     FlowSchema.schedule := None;
     FlowSchema.reference_tasks := [] |}.

Definition serialized_flow_dangling_edge : SerializedFlow.t :=
  {| SerializedFlow.load := Ok flow_dangling_edge;
     SerializedFlow.get_schedule := None |}.

(** A flow built with a core version below the cutoff. *)
Definition flow_old_core : FlowSchema.t :=
  {| FlowSchema.name := Some "old";
     FlowSchema.tasks := [task "a"];
     FlowSchema.edges := [];
     FlowSchema.parameters := [];
     FlowSchema.environment := Some {[ "__version__" := JStr "0.5.0" ]};
     FlowSchema.storage := None;
     FlowSchema.schedule := None;
     FlowSchema.reference_tasks := [] |}.

Definition serialized_flow_old_core : SerializedFlow.t :=
  {| SerializedFlow.load := Ok flow_old_core;
     SerializedFlow.get_schedule := None |}.
End Example.

(** ** Specification predicates *)

(** Every flow group of [db] is still in [db'], and its settings agree
    with the old ones on every key other than [key]. *)
Definition other_settings_kept (key : string) (db db' : DB) : Prop :=
  ∀ gid g, flow_groups db !! gid = Some g →
    ∃ g', flow_groups db' !! gid = Some g'
          ∧ ∀ k, k ≠ key →
              FlowGroup.settings g' !! k = FlowGroup.settings g !! k.

(** A run of [flow_id] marked [auto_scheduled]. *)
Definition auto_scheduled_run (flow_id : string) (r : FlowRun.t) : Prop :=
  FlowRun.flow_id r = flow_id ∧ FlowRun.auto_scheduled r = true.

(** The data model's link between a run's idempotency key and its start
    time: a run that holds the key derived from an instant is scheduled to
    start at that instant. *)
Definition keys_consistent (in_tz_UTC : Z → string) (db : DB) : Prop :=
  ∀ rid r t,
    flow_runs db !! rid = Some r →
    FlowRun.idempotency_key r = Some (idempotency_key_of in_tz_UTC t) →
    FlowRun.scheduled_start_time r = t.

(** Two databases that differ at most in their flow runs. *)
Definition same_but_runs (db db' : DB) : Prop :=
  projects db' = projects db
  ∧ flow_groups db' = flow_groups db
  ∧ flows db' = flows db.

(** What a run created for one of [events] by a scheduling pass with
    watermark [last] looks like. *)
Definition created_by (in_tz_UTC : Z → string) (flow_id : string) (last : Z)
    (events : list Event.t) (r : FlowRun.t) : Prop :=
  FlowRun.flow_id r = flow_id
  ∧ FlowRun.state r = "Scheduled"
  ∧ FlowRun.auto_scheduled r = false
  ∧ ∃ e, e ∈ events
         ∧ last < Event.start_time e
         ∧ FlowRun.scheduled_start_time r = Event.start_time e
         ∧ FlowRun.parameters r = Event.parameter_defaults e
         ∧ FlowRun.idempotency_key r
           = Some (idempotency_key_of in_tz_UTC (Event.start_time e)).

(** Every run of [db] is still, unchanged, in [db']. *)
Definition runs_kept (db db' : DB) : Prop :=
  ∀ i r, flow_runs db !! i = Some r → flow_runs db' !! i = Some r.

(** The structural roles of a submitted task [t], read off the edges of
    the flow, as stored in the row [task]. *)
Definition roles_from_edges (flow : FlowSchema.t) (t : TaskSchema.t)
    (task : Task.t) : Prop :=
  Task.slug task = TaskSchema.slug t
  ∧ (Task.is_root_task task = true
     ↔ ∀ e, e ∈ FlowSchema.edges flow →
         EdgeSchema.downstream_task e ≠ TaskSchema.slug t)
  ∧ (Task.is_terminal_task task = true
     ↔ ∀ e, e ∈ FlowSchema.edges flow →
         EdgeSchema.upstream_task e ≠ TaskSchema.slug t)
  ∧ (Task.mapped task = true
     ↔ ∃ e, e ∈ FlowSchema.edges flow
            ∧ EdgeSchema.mapped e = true
            ∧ EdgeSchema.downstream_task e = TaskSchema.slug t).

(** The reference flag of a submitted task [t] as stored in the row
    [task]: membership in the declared set when there is one, being
    terminal when there is none. *)
Definition reference_from_declaration (flow : FlowSchema.t)
    (t : TaskSchema.t) (task : Task.t) : Prop :=
  Task.slug task = TaskSchema.slug t
  ∧ (FlowSchema.reference_tasks flow ≠ [] →
     (Task.is_reference_task task = true
      ↔ TaskSchema.slug t ∈ FlowSchema.reference_tasks flow))
  ∧ (FlowSchema.reference_tasks flow = [] →
     (Task.is_reference_task task = true
      ↔ ∀ e, e ∈ FlowSchema.edges flow →
          EdgeSchema.upstream_task e ≠ TaskSchema.slug t)).

(** A flow of the version group [version_group_id] of [tenant_id]. *)
Definition in_version_group (tenant_id version_group_id : string)
    (f : Flow.t) : Prop :=
  Flow.version_group_id f = version_group_id ∧ Flow.tenant_id f = tenant_id.

(** The flow group a first submission to a version group creates:
    heartbeat and lazarus on, version locking off, no schedule. *)
Definition default_flow_group (tenant_id version_group_id : string)
    : FlowGroup.t :=
  {| FlowGroup.tenant_id := tenant_id;
     FlowGroup.name := version_group_id;
     FlowGroup.settings :=
       {[ "heartbeat_enabled" := JBool true;
          "lazarus_enabled" := JBool true;
          "version_locking_enabled" := JBool false ]};
     FlowGroup.schedule := None |}.

(** Two flow rows that a scheduling pass cannot tell apart. *)
Definition same_scheduling (f f' : Flow.t) : Prop :=
  Flow.schedule f' = Flow.schedule f
  ∧ Flow.is_schedule_active f' = Flow.is_schedule_active f
  ∧ Flow.archived f' = Flow.archived f
  ∧ Flow.flow_group_id f' = Flow.flow_group_id f.

(** Every flow's project and flow group are stored, in the flow's tenant,
    and the group is the one of the flow's version group. *)
Definition referential_integrity (db : DB) : Prop :=
  ∀ fid f, flows db !! fid = Some f →
    (∃ p, projects db !! Flow.project_id f = Some p
          ∧ Project.tenant_id p = Flow.tenant_id f)
    ∧ (∃ g, flow_groups db !! Flow.flow_group_id f = Some g
            ∧ FlowGroup.tenant_id g = Flow.tenant_id f
            ∧ FlowGroup.name g = Flow.version_group_id f).

(** No two flows of one version group of one tenant carry the same
    version. *)
Definition versions_unique (db : DB) : Prop :=
  ∀ k1 k2 f1 f2,
    flows db !! k1 = Some f1 →
    flows db !! k2 = Some f2 →
    Flow.tenant_id f1 = Flow.tenant_id f2 →
    Flow.version_group_id f1 = Flow.version_group_id f2 →
    Flow.version f1 = Flow.version f2 →
    k1 = k2.

(** No two flow groups of one tenant carry the same name. *)
Definition flow_groups_unique (db : DB) : Prop :=
  ∀ k1 k2 g1 g2,
    flow_groups db !! k1 = Some g1 →
    flow_groups db !! k2 = Some g2 →
    FlowGroup.tenant_id g1 = FlowGroup.tenant_id g2 →
    FlowGroup.name g1 = FlowGroup.name g2 →
    k1 = k2.

(** Every row of the projects, flow groups and flows of [db] is, as it was,
    in [db']. *)
Definition rows_kept (db db' : DB) : Prop :=
  projects db' = projects db
  ∧ (∀ gid g, flow_groups db !! gid = Some g →
              flow_groups db' !! gid = Some g)
  ∧ (∀ fid f, flows db !! fid = Some f → flows db' !! fid = Some f).

(** The submitted core version passes the cutoff gate: it is missing or
    falsy, or not below the cutoff. *)
Definition core_version_accepted
    (core_version_lt_cutoff : json → result bool)
    (environment : gmap string json) : Prop :=
  match environment !! "__version__" with
  | Some v => truthy v = false ∨ core_version_lt_cutoff v = Ok false
  | None => True
  end.

(** Every edge joins two slugs that tasks of the flow carry. *)
Definition edges_join_tasks (flow : FlowSchema.t) : Prop :=
  ∀ e, e ∈ FlowSchema.edges flow →
    (∃ t, t ∈ FlowSchema.tasks flow
          ∧ TaskSchema.slug t = EdgeSchema.upstream_task e)
    ∧ (∃ t, t ∈ FlowSchema.tasks flow
            ∧ TaskSchema.slug t = EdgeSchema.downstream_task e).

(** Every clock of the schedule, if there is one, holds a default for the
    name of every required parameter. *)
Definition parameters_covered (flow : FlowSchema.t) : Prop :=
  ∀ schedule c p,
    FlowSchema.schedule flow = Some schedule →
    c ∈ ScheduleSchema.clocks schedule →
    p ∈ FlowSchema.parameters flow →
    ParameterSchema.required p = true →
    ∃ s, ParameterSchema.name p = Some s
         ∧ s ∈ dom (ClockSchema.parameter_defaults c).

(** The columns of a flow group that identify it. *)
Definition group_key (g : FlowGroup.t) : string * string :=
  (FlowGroup.tenant_id g, FlowGroup.name g).

(** [db'] has the projects of [db], the flow groups of [db] up to their
    settings and schedule, and no flow that [db] does not have; a flow
    keeps its tenant, version group, version and flow group, and its
    project unless it moved to a project of its tenant. *)
Definition keys_preserved (db db' : DB) : Prop :=
  projects db' = projects db
  ∧ (∀ gid, group_key <$> flow_groups db' !! gid
            = group_key <$> flow_groups db !! gid)
  ∧ (∀ fid f', flows db' !! fid = Some f' →
       ∃ f, flows db !! fid = Some f
            ∧ Flow.tenant_id f' = Flow.tenant_id f
            ∧ Flow.version_group_id f' = Flow.version_group_id f
            ∧ Flow.version f' = Flow.version f
            ∧ Flow.flow_group_id f' = Flow.flow_group_id f
            ∧ (Flow.project_id f' = Flow.project_id f
               ∨ ∃ p, projects db !! Flow.project_id f' = Some p
                      ∧ Project.tenant_id p = Flow.tenant_id f)).

(** Each of the three invariants of the data model that holds of [db]
    holds of [db']. *)
Definition keeps_invariants (db db' : DB) : Prop :=
  (referential_integrity db → referential_integrity db')
  ∧ (versions_unique db → versions_unique db')
  ∧ (flow_groups_unique db → flow_groups_unique db').

(** * Properties *)

(** ** Running computations *)

Lemma bind_run {A B} (c : M A) (k : A → M B) (db : DB) :
  (c ≫= k) db =
  match c db with
  | (Ok a, db') => k a db'
  | (Raise e, db') => (Raise e, db')
  end.
Proof. reflexivity. Qed.

Lemma mret_run {A} (a : A) (db : DB) : (mret a : M A) db = (Ok a, db).
Proof. reflexivity. Qed.

(** ** Queries and aggregates *)

Section query_properties.
Context {A : Type} (P : A → Prop) `{!∀ x, Decision (P x)}.

Lemma elem_of_where (table : gmap string A) (i : string) (x : A) :
  (i, x) ∈ where_ P table ↔ table !! i = Some x ∧ P x.
Proof.
  unfold where_. rewrite list_elem_of_filter, elem_of_map_to_list. simpl.
  tauto.
Qed.

Lemma first_where_Some (table : gmap string A) (i : string) (x : A) :
  first (where_ P table) = Some (i, x) → table !! i = Some x ∧ P x.
Proof.
  intros Hfirst. apply elem_of_where. unfold first in Hfirst.
  destruct (where_ P table) as [|y l]; simplify_eq/=. apply list_elem_of_here.
Qed.

Lemma first_where_None (table : gmap string A) :
  first (where_ P table) = None ↔ ∀ i x, table !! i = Some x → ¬ P x.
Proof.
  unfold first. split.
  - intros Hfirst i x Hi HP.
    assert (Hin : (i, x) ∈ where_ P table) by by apply elem_of_where.
    destruct (where_ P table); [by apply elem_of_nil in Hin | done].
  - intros Hnone. destruct (where_ P table) as [|[i x] l] eqn:Hw; [done|].
    assert (Hin : (i, x) ∈ where_ P table) by (rewrite Hw; apply list_elem_of_here).
    apply elem_of_where in Hin as [Hi HP]. by destruct (Hnone i x Hi).
Qed.

(** Inserting a row that satisfies the filter into a table where no row
    does makes it the one [first] finds. *)
Lemma first_where_insert_fresh (table : gmap string A) (i : string) (x : A) :
  table !! i = None →
  P x →
  first (where_ P table) = None →
  first (where_ P (<[i := x]> table)) = Some (i, x).
Proof.
  intros Hi HP Hnone.
  destruct (first (where_ P (<[i := x]> table))) as [[j y]|] eqn:Hfirst.
  - apply first_where_Some in Hfirst as [Hj HPy].
    destruct (decide (i = j)) as [->|Hne].
    + rewrite lookup_insert_eq in Hj. by simplify_eq.
    + rewrite lookup_insert_ne in Hj by done.
      rewrite first_where_None in Hnone. by destruct (Hnone j y Hj).
  - rewrite first_where_None in Hfirst.
    destruct (Hfirst i x); [apply lookup_insert_eq | done].
Qed.

End query_properties.

Lemma max_opt_None (l : list Z) : max_opt l = None ↔ l = [].
Proof. destruct l; simpl; split; done. Qed.

Lemma max_opt_Some (l : list Z) (m : Z) :
  max_opt l = Some m → m ∈ l ∧ ∀ x, x ∈ l → x ≤ m.
Proof.
  revert m. induction l as [|y l IH]; intros m; simpl; [done|].
  destruct (max_opt l) as [m'|] eqn:Hl; intros [= <-].
  - destruct (IH m' eq_refl) as [Hin Hle]. split.
    + destruct (Z.max_spec y m') as [[_ ->]|[_ ->]];
        [by apply list_elem_of_further | apply list_elem_of_here].
    + intros x [->|Hx]%elem_of_cons; [lia|]. specialize (Hle x Hx). lia.
  - apply max_opt_None in Hl as ->. split; [apply list_elem_of_here|].
    intros x [->|Hx]%elem_of_cons; [lia | by apply elem_of_nil in Hx].
Qed.

(** A value that is attained and bounds the list is what [max_opt] finds. *)
Lemma max_opt_is_max (l : list Z) (m : Z) :
  m ∈ l → (∀ x, x ∈ l → x ≤ m) → max_opt l = Some m.
Proof.
  intros Hin Hle. destruct (max_opt l) as [m'|] eqn:Hl.
  - apply max_opt_Some in Hl as [Hin' Hle'].
    f_equal. specialize (Hle m' Hin'). specialize (Hle' m Hin). lia.
  - apply max_opt_None in Hl as ->. by apply elem_of_nil in Hin.
Qed.

Lemma insert_row_fresh {A} (row : A) (table : gmap string A) :
  table !! (insert_row row table).1 = None.
Proof. simpl. apply not_elem_of_dom, is_fresh. Qed.

Section aggregate_properties.
Context {A : Type} (P : A → Prop) `{!∀ x, Decision (P x)} (proj : A → Z).

Lemma elem_of_where_proj (table : gmap string A) (z : Z) :
  z ∈ proj <$> (where_ P table).*2
  ↔ ∃ i x, table !! i = Some x ∧ P x ∧ proj x = z.
Proof.
  rewrite list_elem_of_fmap. split.
  - intros (x & -> & Hx).
    apply list_elem_of_fmap in Hx as ([i x'] & -> & Hin).
    apply elem_of_where in Hin as [Hi HP]. by exists i, x'.
  - intros (i & x & Hi & HP & <-). exists x. split; [done|].
    apply list_elem_of_fmap. exists (i, x). split; [done|].
    by apply elem_of_where.
Qed.

(** The [max] aggregate over the selected rows is [None] exactly when no
    row is selected. *)
Lemma max_where_None (table : gmap string A) :
  max_opt (proj <$> (where_ P table).*2) = None
  ↔ ∀ i x, table !! i = Some x → ¬ P x.
Proof.
  rewrite max_opt_None, <-(first_where_None P).
  unfold first. by destruct (where_ P table).
Qed.

(** It is [Some m] exactly when a selected row attains [m] and none
    exceeds it. *)
Lemma max_where_Some (table : gmap string A) (m : Z) :
  max_opt (proj <$> (where_ P table).*2) = Some m
  ↔ (∃ i x, table !! i = Some x ∧ P x ∧ proj x = m)
    ∧ (∀ i x, table !! i = Some x → P x → proj x ≤ m).
Proof.
  split.
  - intros [Hin Hle]%max_opt_Some. split.
    + by apply elem_of_where_proj.
    + intros i x Hi HP. apply Hle, elem_of_where_proj. eauto.
  - intros [Hin Hle]. apply max_opt_is_max.
    + by apply elem_of_where_proj.
    + intros z (i & x & Hi & HP & <-)%elem_of_where_proj. eauto.
Qed.

End aggregate_properties.

(** ** Settings *)

Section settings_properties.

(** What one [_update_flow_setting] does to the database: only the flow
    groups table changes, every group stays, and in every group every key
    other than [key] keeps its value; on success the returned group is
    the flow's group with [key] set to [value]. *)
Lemma update_flow_setting_frame (flow_id : option string) (key : string)
    (value : json) (db : DB) :
  let res := _update_flow_setting flow_id key value db in
  projects res.2 = projects db
  ∧ flows res.2 = flows db
  ∧ flow_runs res.2 = flow_runs db
  ∧ (∀ gid g, flow_groups db !! gid = Some g →
       ∃ g', flow_groups res.2 !! gid = Some g'
             ∧ FlowGroup.tenant_id g' = FlowGroup.tenant_id g
             ∧ FlowGroup.name g' = FlowGroup.name g
             ∧ FlowGroup.schedule g' = FlowGroup.schedule g
             ∧ ∀ k, k ≠ key →
                 FlowGroup.settings g' !! k = FlowGroup.settings g !! k)
  ∧ (∀ fg, res.1 = Ok fg →
       ∃ fid flow g,
         flow_id = Some fid
         ∧ flows db !! fid = Some flow
         ∧ flow_groups db !! Flow.flow_group_id flow = Some g
         ∧ flow_groups res.2 !! Flow.flow_group_id flow = Some fg
         ∧ FlowGroup.settings fg = <[key := value]> (FlowGroup.settings g)).
Proof.
  unfold _update_flow_setting.
  destruct flow_id as [fid|]; simpl.
  2: { repeat split; eauto 10; try discriminate. }
  rewrite bind_run. unfold get.
  destruct (flows db !! fid) as [flow|] eqn:Hflow; simpl.
  2: { repeat split; eauto 10; try discriminate. }
  destruct (flow_groups db !! Flow.flow_group_id flow) as [fg0|] eqn:Hfg; simpl.
  2: { repeat split; eauto 10; try discriminate. }
  unfold update_by_id. rewrite Hfg. rewrite bind_run. simpl.
  repeat split; try done.
  - intros gid g Hg.
    destruct (decide (gid = Flow.flow_group_id flow)) as [->|Hne].
    + rewrite lookup_alter_eq, Hg. simpl. eexists. split; [done|].
      simpl. repeat split; try done.
      intros k Hk. rewrite Hfg in Hg. injection Hg as ->.
      by rewrite lookup_insert_ne.
    + rewrite lookup_alter_ne by done. eauto 10.
  - intros fg [= <-]. exists fid, flow, fg0.
    repeat split; try done.
    by rewrite lookup_alter_eq, Hfg.
Qed.

Lemma other_settings_kept_refl key db : other_settings_kept key db db.
Proof. intros gid g Hg. eauto. Qed.

Lemma other_settings_kept_trans key db1 db2 db3 :
  other_settings_kept key db1 db2 →
  other_settings_kept key db2 db3 →
  other_settings_kept key db1 db3.
Proof.
  intros H12 H23 gid g Hg.
  destruct (H12 gid g Hg) as (g2 & Hg2 & Hk2).
  destruct (H23 gid g2 Hg2) as (g3 & Hg3 & Hk3).
  exists g3. split; [done|]. intros k Hk.
  rewrite Hk3, Hk2; done.
Qed.

Lemma update_flow_setting_kept flow_id key value db :
  other_settings_kept key db (_update_flow_setting flow_id key value db).2.
Proof.
  intros gid g Hg.
  destruct (update_flow_setting_frame flow_id key value db)
    as (_ & _ & _ & Hgroups & _).
  destruct (Hgroups gid g Hg) as (g' & Hg' & _ & _ & _ & Hk). eauto.
Qed.

Lemma enable_lazarus_run flow_id db :
  (enable_lazarus_for_flow flow_id db).2
  = (_update_flow_setting flow_id "lazarus_enabled" (JBool true) db).2.
Proof.
  unfold enable_lazarus_for_flow. rewrite bind_run.
  by destruct (_update_flow_setting _ _ _ db) as [[?|?] ?].
Qed.

Lemma disable_lazarus_run flow_id db :
  (disable_lazarus_for_flow flow_id db).2
  = (_update_flow_setting flow_id "lazarus_enabled" (JBool false) db).2.
Proof.
  unfold disable_lazarus_for_flow. rewrite bind_run.
  by destruct (_update_flow_setting _ _ _ db) as [[?|?] ?].
Qed.

Lemma alter_as_insert {A} (f : A → A) (i : string) (x : A)
    (m : gmap string A) :
  m !! i = Some x → alter f i m = <[i := f x]> m.
Proof.
  intros Hi. apply map_eq. intros j. destruct (decide (i = j)) as [<-|Hne].
  - by rewrite lookup_alter_eq, lookup_insert_eq, Hi.
  - by rewrite lookup_alter_ne, lookup_insert_ne.
Qed.

(** One update on a known flow: the group is replaced by itself with the
    key set. *)
Lemma update_flow_setting_run (fid key : string) (value : json) (db : DB)
    (flow : Flow.t) (fg : FlowGroup.t) :
  flows db !! fid = Some flow →
  flow_groups db !! Flow.flow_group_id flow = Some fg →
  _update_flow_setting (Some fid) key value db
  = (Ok (FlowGroup.set_settings fg (<[key := value]> (FlowGroup.settings fg))),
     set_flow_groups db
       (<[Flow.flow_group_id flow
          := FlowGroup.set_settings fg
               (<[key := value]> (FlowGroup.settings fg))]>
          (flow_groups db))).
Proof.
  intros Hflow Hfg. unfold _update_flow_setting.
  rewrite bind_run. unfold get. rewrite Hflow, Hfg.
  unfold update_by_id. rewrite Hfg. rewrite bind_run. simpl.
  by rewrite (alter_as_insert _ _ fg).
Qed.

(** Enabling and then disabling lazarus on a known flow: the group is
    replaced by itself with ["lazarus_enabled"] set to [False]. *)
Lemma lazarus_toggles_run (fid : string) (db : DB) (flow : Flow.t)
    (fg : FlowGroup.t) :
  flows db !! fid = Some flow →
  flow_groups db !! Flow.flow_group_id flow = Some fg →
  (enable_lazarus_for_flow (Some fid);;
   disable_lazarus_for_flow (Some fid)) db
  = (Ok true,
     set_flow_groups db
       (<[Flow.flow_group_id flow
          := FlowGroup.set_settings fg
               (<["lazarus_enabled" := JBool false]>
                  (FlowGroup.settings fg))]>
          (flow_groups db))).
Proof.
  intros Hflow Hfg.
  unfold enable_lazarus_for_flow, disable_lazarus_for_flow.
  rewrite !bind_run.
  rewrite (update_flow_setting_run fid _ _ db flow fg Hflow Hfg).
  cbn [mret M_ret]. rewrite bind_run.
  erewrite (update_flow_setting_run fid _ _ _ flow);
    [|done|simpl; apply lookup_insert_eq].
  simpl. unfold set_flow_groups. simpl.
  by rewrite !insert_insert_eq.
Qed.

(** C9.  One [_update_flow_setting] keeps every flow group and, in each,
    the value of every key other than the given one, and on success the
    flow's group holds the old settings with the key merged in; hence
    [enable_lazarus_for_flow] followed by [disable_lazarus_for_flow]
    leaves the [heartbeat_enabled] and [version_locking_enabled] entries
    of every flow group as they were.  For a stored flow whose group is
    stored the update does succeed: it returns the group with the key
    merged into its settings and writes that group and nothing else; and
    the two lazarus toggles in a row return [True] and leave the group with
    ["lazarus_enabled"] set to [False], every other key and every other
    group being as it was. *)
Theorem update_setting_merges_single_key (db : DB)
    (flow_id : option string) :
  (∀ key value,
     let res := _update_flow_setting flow_id key value db in
     other_settings_kept key db res.2
     ∧ ∀ fg, res.1 = Ok fg →
         ∃ fid flow g,
           flow_id = Some fid
           ∧ flows db !! fid = Some flow
           ∧ flow_groups db !! Flow.flow_group_id flow = Some g
           ∧ flow_groups res.2 !! Flow.flow_group_id flow = Some fg
           ∧ FlowGroup.settings fg = <[key := value]> (FlowGroup.settings g))
  ∧ (let db' :=
       ((enable_lazarus_for_flow flow_id;;
         disable_lazarus_for_flow flow_id) db).2 in
     ∀ gid g, flow_groups db !! gid = Some g →
       ∃ g', flow_groups db' !! gid = Some g'
             ∧ FlowGroup.settings g' !! "heartbeat_enabled"
               = FlowGroup.settings g !! "heartbeat_enabled"
             ∧ FlowGroup.settings g' !! "version_locking_enabled"
               = FlowGroup.settings g !! "version_locking_enabled")
  ∧ (∀ fid flow g,
       flow_id = Some fid →
       flows db !! fid = Some flow →
       flow_groups db !! Flow.flow_group_id flow = Some g →
       (∀ key value,
          _update_flow_setting flow_id key value db
          = (Ok (FlowGroup.set_settings g
                   (<[key := value]> (FlowGroup.settings g))),
             set_flow_groups db
               (<[Flow.flow_group_id flow
                  := FlowGroup.set_settings g
                       (<[key := value]> (FlowGroup.settings g))]>
                  (flow_groups db))))
       ∧ (enable_lazarus_for_flow flow_id;;
          disable_lazarus_for_flow flow_id) db
         = (Ok true,
            set_flow_groups db
              (<[Flow.flow_group_id flow
                 := FlowGroup.set_settings g
                      (<["lazarus_enabled" := JBool false]>
                         (FlowGroup.settings g))]>
                 (flow_groups db)))).
Proof.
  split; [|split].
  - intros key value res. split.
    + apply update_flow_setting_kept.
    + apply (update_flow_setting_frame flow_id key value db).
  - intros db' gid g Hg.
    assert (Hkept : other_settings_kept "lazarus_enabled" db db').
    { subst db'. rewrite bind_run.
      pose proof (enable_lazarus_run flow_id db) as Hen.
      destruct (enable_lazarus_for_flow flow_id db) as [[b|e] db1];
        simpl in Hen; subst db1.
      - eapply other_settings_kept_trans;
          [apply update_flow_setting_kept|].
        rewrite disable_lazarus_run. apply update_flow_setting_kept.
      - simpl. apply update_flow_setting_kept. }
    destruct (Hkept gid g Hg) as (g' & Hg' & Hk).
    exists g'. split; [done|]. split; apply Hk; done.
  - intros fid flow g -> Hflow Hg. split.
    + intros key value. by apply update_flow_setting_run.
    + by apply lazarus_toggles_run.
Qed.

End settings_properties.

(** ** Archiving and deactivating *)

Section purge_properties.

Lemma str_truthy_Some (s : string) : s ≠ "" → str_truthy (Some s) = true.
Proof.
  intros Hs. simpl. apply negb_true_iff. by apply String.eqb_neq.
Qed.

Lemma lookup_delete_where {A} (P : A → Prop) `{!∀ x, Decision (P x)}
    (table : gmap string A) (i : string) (x : A) :
  delete_where P table !! i = Some x ↔ table !! i = Some x ∧ ¬ P x.
Proof. unfold delete_where. by rewrite map_lookup_filter_Some. Qed.

Lemma archive_flow_run (db : DB) (fid : string) (flow : Flow.t) :
  fid ≠ "" →
  flows db !! fid = Some flow →
  archive_flow (Some fid) db
  = (Ok true,
     set_flow_runs
       (set_flows db (alter (λ f, Flow.set_archived f true) fid (flows db)))
       (delete_where (λ r, FlowRun.flow_id r = fid
                           ∧ FlowRun.state r = "Scheduled")
                     (flow_runs db))).
Proof.
  intros Hne Hflow. unfold archive_flow.
  rewrite (str_truthy_Some fid Hne). simpl.
  rewrite bind_run. unfold get, update_by_id. by rewrite Hflow.
Qed.

Lemma set_schedule_inactive_run (db : DB) (fid : string) (flow : Flow.t) :
  flows db !! fid = Some flow →
  set_schedule_inactive (Some fid) db
  = (Ok true,
     set_flow_runs
       (set_flows db
          (alter (λ f, Flow.set_is_schedule_active f false) fid (flows db)))
       (delete_where (λ r, FlowRun.flow_id r = fid
                           ∧ FlowRun.state r = "Scheduled"
                           ∧ FlowRun.auto_scheduled r = true)
                     (flow_runs db))).
Proof.
  intros Hflow. unfold set_schedule_inactive.
  rewrite bind_run. unfold get, update_by_id. by rewrite Hflow.
Qed.

(** C7.  For an existing flow, [archive_flow] succeeds and the runs left
    are exactly those that are not Scheduled runs of the flow, whatever
    their [auto_scheduled] flag; [set_schedule_inactive] succeeds and the
    runs left are exactly those that are not both Scheduled and
    auto-scheduled runs of the flow, so that a manually created Scheduled
    run and a run in another state stay. *)
Theorem archive_deletes_all_scheduled_deactivate_only_auto (db : DB)
    (fid : string) (flow : Flow.t) :
  fid ≠ "" →
  flows db !! fid = Some flow →
  let archived := archive_flow (Some fid) db in
  let inactive := set_schedule_inactive (Some fid) db in
  archived.1 = Ok true
  ∧ (∀ rid r,
       flow_runs archived.2 !! rid = Some r
       ↔ flow_runs db !! rid = Some r
         ∧ ¬ (FlowRun.flow_id r = fid ∧ FlowRun.state r = "Scheduled"))
  ∧ inactive.1 = Ok true
  ∧ (∀ rid r,
       flow_runs inactive.2 !! rid = Some r
       ↔ flow_runs db !! rid = Some r
         ∧ ¬ (FlowRun.flow_id r = fid ∧ FlowRun.state r = "Scheduled"
              ∧ FlowRun.auto_scheduled r = true))
  ∧ (∀ rid r,
       flow_runs db !! rid = Some r →
       FlowRun.auto_scheduled r = false ∨ FlowRun.state r ≠ "Scheduled" →
       flow_runs inactive.2 !! rid = Some r).
Proof.
  intros Hne Hflow archived inactive. subst archived inactive.
  rewrite (archive_flow_run db fid flow Hne Hflow).
  rewrite (set_schedule_inactive_run db fid flow Hflow). simpl.
  split; [done|]. split.
  { intros rid r. by rewrite lookup_delete_where. }
  split; [done|]. split.
  { intros rid r. by rewrite lookup_delete_where. }
  intros rid r Hr Hkeep. rewrite lookup_delete_where. split; [done|].
  intros (_ & Hstate & Hauto). destruct Hkeep as [Hk|Hk]; congruence.
Qed.

End purge_properties.

(** ** Scheduling *)

Lemma same_but_runs_refl db : same_but_runs db db.
Proof. done. Qed.

Lemma same_but_runs_trans db1 db2 db3 :
  same_but_runs db1 db2 → same_but_runs db2 db3 → same_but_runs db1 db3.
Proof.
  intros (?&?&?) (?&?&?). repeat split; congruence.
Qed.

Lemma same_but_runs_set_flow_runs db runs :
  same_but_runs db (set_flow_runs db runs).
Proof. done. Qed.

Lemma flow_runs_aggregate_max_None (db : DB) (fid : string) :
  flow_runs_aggregate_max db fid = None
  ↔ ∀ rid r, flow_runs db !! rid = Some r → ¬ auto_scheduled_run fid r.
Proof. apply max_where_None. Qed.

(** The aggregate is the maximum start time of the flow's auto-scheduled
    runs: some such run attains it and none exceeds it. *)
Lemma flow_runs_aggregate_max_Some (db : DB) (fid : string) (m : Z) :
  flow_runs_aggregate_max db fid = Some m
  ↔ (∃ rid r, flow_runs db !! rid = Some r ∧ auto_scheduled_run fid r
              ∧ FlowRun.scheduled_start_time r = m)
    ∧ (∀ rid r, flow_runs db !! rid = Some r → auto_scheduled_run fid r →
         FlowRun.scheduled_start_time r ≤ m).
Proof. apply max_where_Some. Qed.

Lemma max_version_None (db : DB) (tenant_id vg : string) :
  max_version db tenant_id vg = None
  ↔ ∀ k f, flows db !! k = Some f → ¬ in_version_group tenant_id vg f.
Proof. apply max_where_None. Qed.

(** [max_version] is the maximum version of the flows of the group. *)
Lemma max_version_Some (db : DB) (tenant_id vg : string) (m : Z) :
  max_version db tenant_id vg = Some m
  ↔ (∃ k f, flows db !! k = Some f ∧ in_version_group tenant_id vg f
            ∧ Flow.version f = m)
    ∧ (∀ k f, flows db !! k = Some f → in_version_group tenant_id vg f →
         Flow.version f ≤ m).
Proof. apply max_where_Some. Qed.

Lemma runs_kept_trans db1 db2 db3 :
  runs_kept db1 db2 → runs_kept db2 db3 → runs_kept db1 db3.
Proof. intros H12 H23 i r Hi. by apply H23, H12. Qed.

Lemma runs_kept_None db db' i :
  runs_kept db db' → flow_runs db' !! i = None → flow_runs db !! i = None.
Proof.
  intros Hkept Hi. destruct (flow_runs db !! i) as [r|] eqn:Hr; [|done].
  apply Hkept in Hr. congruence.
Qed.

(** [create_flow_run] never raises; it answers with a run of the flow that
    holds the key, keeps every run there was, and adds at most the one run
    it answers with. *)
Lemma create_flow_run_spec (fid : string) (start : Z)
    (params : gmap string json) (key : string) (db : DB) :
  ∃ rid db1,
    create_flow_run fid start params key db = (Ok rid, db1)
    ∧ same_but_runs db db1
    ∧ runs_kept db db1
    ∧ (∃ r, flow_runs db1 !! rid = Some r ∧ FlowRun.flow_id r = fid
            ∧ FlowRun.idempotency_key r = Some key)
    ∧ (∀ i r, flow_runs db1 !! i = Some r → flow_runs db !! i = None →
         i = rid
         ∧ FlowRun.flow_id r = fid
         ∧ FlowRun.scheduled_start_time r = start
         ∧ FlowRun.parameters r = params
         ∧ FlowRun.state r = "Scheduled"
         ∧ FlowRun.auto_scheduled r = false
         ∧ FlowRun.idempotency_key r = Some key).
Proof.
  unfold create_flow_run. rewrite bind_run. unfold get.
  destruct (first (where_ _ (flow_runs db))) as [[rid r]|] eqn:Hfirst.
  - apply first_where_Some in Hfirst as (Hrid & Hfid & Hkey).
    exists rid, db. split; [done|]. split; [done|].
    split; [by intros i r' Hi|].
    split; [by exists r|]. intros i r' Hi Hnone. congruence.
  - simpl. set (rid := fresh (dom (flow_runs db))).
    assert (Hfresh : flow_runs db !! rid = None)
      by apply not_elem_of_dom, is_fresh.
    eexists rid, _. split; [reflexivity|]. simpl.
    split; [done|]. split.
    { intros i r Hi. simpl. rewrite lookup_insert_ne; [done|congruence]. }
    split.
    { eexists. rewrite lookup_insert_eq. done. }
    intros i r Hi Hnone. destruct (decide (rid = i)) as [<-|Hne].
    + rewrite lookup_insert_eq in Hi. by simplify_eq.
    + rewrite lookup_insert_ne in Hi by done. congruence.
Qed.

Section scheduling_properties.
Context (Schedule : Type).
Context (schedule_schema_load : option json → option Schedule).
Context (schedule_next : Schedule → Z → Z → list Event.t).
Context (in_tz_UTC : Z → string).

Local Abbreviation schedule_events := (schedule_events in_tz_UTC).
Local Abbreviation idempotency_key_of := (idempotency_key_of in_tz_UTC).
Local Abbreviation created_by := (created_by in_tz_UTC).
Local Abbreviation keys_consistent := (keys_consistent in_tz_UTC).
Local Abbreviation schedule_flow_runs :=
  (schedule_flow_runs Schedule schedule_schema_load schedule_next in_tz_UTC).

Lemma created_by_cons fid last e events r :
  created_by fid last events r → created_by fid last (e :: events) r.
Proof.
  intros (?&?&?& e' & He' & ?). repeat split; try done.
  exists e'. split; [by apply list_elem_of_further | done].
Qed.

(** The loop over the events: it never raises, appends one run id per
    event later than the watermark, keeps every run there was, and every
    run it adds was created for such an event. *)
Lemma schedule_events_spec (fid : string) (last : Z) (events : list Event.t)
    (acc : list string) (db : DB) :
  ∃ (ids : list string) (db' : DB),
    schedule_events fid last events acc db = (Ok (acc ++ ids), db')
    ∧ same_but_runs db db'
    ∧ runs_kept db db'
    ∧ (∀ i r, flow_runs db' !! i = Some r → flow_runs db !! i = None →
         i ∈ ids ∧ created_by fid last events r)
    ∧ (∀ i, i ∈ ids →
         ∃ r e, flow_runs db' !! i = Some r ∧ FlowRun.flow_id r = fid
                ∧ e ∈ events ∧ last < Event.start_time e
                ∧ FlowRun.idempotency_key r
                  = Some (idempotency_key_of (Event.start_time e)))
    ∧ (∀ e, e ∈ events → last < Event.start_time e →
         ∃ i r, i ∈ ids ∧ flow_runs db' !! i = Some r
                ∧ FlowRun.flow_id r = fid
                ∧ FlowRun.idempotency_key r
                  = Some (idempotency_key_of (Event.start_time e)))
    ∧ length ids
      = length (filter (λ e, last < Event.start_time e) events).
Proof.
  revert acc db. induction events as [|e events IH]; intros acc db.
  - exists [], db. simpl. rewrite app_nil_r.
    split; [done|]. split; [done|]. split; [by intros i r Hi|].
    split; [intros i r Hi Hnone; congruence|].
    split; [intros i Hi; by apply elem_of_nil in Hi|].
    split; [intros e He; by apply elem_of_nil in He | done].
  - simpl. destruct (Z.leb_spec (Event.start_time e) last) as [Hle|Hgt].
    + destruct (IH acc db) as (ids & db' & Hrun & Hsame & Hkept & Hnew & Hids & Hcov & Hlen).
      exists ids, db'. split; [done|]. split; [done|]. split; [done|].
      split; [|split; [|split]].
      * intros i r Hi Hnone. destruct (Hnew i r Hi Hnone) as [? ?].
        split; [done|]. by apply created_by_cons.
      * intros i Hi. destruct (Hids i Hi) as (r & e' & ?&?&?&?&?).
        exists r, e'. repeat split; try done. by apply list_elem_of_further.
      * intros e' [->|He']%elem_of_cons Hlt; [lia|]. by apply Hcov.
      * rewrite filter_cons_False by lia. done.
    + rewrite bind_run.
      destruct (create_flow_run_spec fid (Event.start_time e)
                  (Event.parameter_defaults e)
                  (idempotency_key_of (Event.start_time e)) db)
        as (rid & db1 & -> & Hsame1 & Hkept1 & (r1 & Hr1 & Hfid1 & Hkey1) & Hnew1).
      destruct (IH (acc ++ [rid]) db1)
        as (ids & db' & Hrun & Hsame & Hkept & Hnew & Hids & Hcov & Hlen).
      exists (rid :: ids), db'. rewrite Hrun.
      split; [by rewrite <-app_assoc|].
      split; [by eapply same_but_runs_trans|].
      split; [by eapply runs_kept_trans|].
      split; [|split; [|split]].
      * intros i r Hi Hnone.
        destruct (flow_runs db1 !! i) as [r'|] eqn:Hi1.
        -- assert (r' = r) as -> by (apply Hkept in Hi1; congruence).
           destruct (Hnew1 i r Hi1 Hnone) as (-> & ? & ? & ? & ? & ? & ?).
           split; [apply list_elem_of_here|].
           repeat split; try done. exists e.
           split; [apply list_elem_of_here | done].
        -- destruct (Hnew i r Hi Hi1) as [? ?].
           split; [by apply list_elem_of_further | by apply created_by_cons].
      * intros i [->|Hi]%elem_of_cons.
        -- exists r1, e. split; [by apply Hkept|].
           repeat split; try done. apply list_elem_of_here.
        -- destruct (Hids i Hi) as (r & e' & ?&?&?&?&?).
           exists r, e'. repeat split; try done. by apply list_elem_of_further.
      * intros e' [->|He']%elem_of_cons Hlt.
        -- exists rid, r1. split; [apply list_elem_of_here|].
           split; [by apply Hkept | done].
        -- destruct (Hcov e' He' Hlt) as (i & r & ?&?&?&?).
           exists i, r. split; [by apply list_elem_of_further | done].
      * rewrite filter_cons_True by lia. simpl. by rewrite Hlen.
Qed.

Lemma mark_auto_scheduled_lookup (ids : list string)
    (runs : gmap string FlowRun.t) (i : string) :
  mark_auto_scheduled ids runs !! i
  = (λ r, if bool_decide (i ∈ ids) then FlowRun.set_auto_scheduled r true
          else r) <$> runs !! i.
Proof.
  unfold mark_auto_scheduled. rewrite map_lookup_imap.
  by destruct (runs !! i).
Qed.

Lemma mark_auto_scheduled_nil (runs : gmap string FlowRun.t) :
  mark_auto_scheduled [] runs = runs.
Proof.
  apply map_eq. intros i. rewrite mark_auto_scheduled_lookup.
  rewrite bool_decide_eq_false_2 by apply not_elem_of_nil.
  by destruct (runs !! i).
Qed.

Lemma set_flow_runs_id (db : DB) : set_flow_runs db (flow_runs db) = db.
Proof. by destruct db. Qed.

(** A pass over events none of which is later than the watermark creates
    nothing. *)
Lemma schedule_events_all_skipped (fid : string) (last : Z)
    (events : list Event.t) (acc : list string) (db : DB) :
  (∀ e, e ∈ events → Event.start_time e ≤ last) →
  schedule_events fid last events acc db = (Ok acc, db).
Proof.
  induction events as [|e events IH]; intros Hall; simpl; [done|].
  rewrite (proj2 (Z.leb_le _ _)) by (apply Hall, list_elem_of_here).
  apply IH. intros e' He'. by apply Hall, list_elem_of_further.
Qed.

(** The shape of a pass that reaches the loop. *)
Lemma schedule_flow_runs_run (now : Z) (fid : string) (max_runs : option Z)
    (db : DB) (flow : Flow.t) (g : FlowGroup.t) (sched : Schedule) :
  flow_query db fid = Some flow →
  flow_groups db !! Flow.flow_group_id flow = Some g →
  schedule_schema_load (effective_schedule g flow) = Some sched →
  ∀ ids db1,
    schedule_events fid (last_scheduled_run db fid now)
      (schedule_next sched now (default 10 max_runs)) [] db = (Ok ids, db1) →
    schedule_flow_runs now (Some fid) max_runs db
    = (Ok ids, set_flow_runs db1 (mark_auto_scheduled ids (flow_runs db1))).
Proof.
  intros Hq Hg Hload ids db1 Hloop.
  unfold schedule_flow_runs. rewrite bind_run. unfold get.
  rewrite Hq, Hg, Hload. rewrite bind_run, Hloop. done.
Qed.

(** The outcomes of [schedule_flow_runs]: it stops before the loop and
    leaves the database alone, or it runs the loop and marks what the loop
    returned. *)
Lemma schedule_flow_runs_cases (now : Z) (flow_id : option string)
    (max_runs : option Z) (db : DB) :
  (∃ res, schedule_flow_runs now flow_id max_runs db = (res, db)
          ∧ (res = Ok [] ∨ ∃ e, res = Raise e))
  ∨ (∃ fid flow g sched ids db1,
       flow_id = Some fid
       ∧ flow_query db fid = Some flow
       ∧ flow_groups db !! Flow.flow_group_id flow = Some g
       ∧ schedule_schema_load (effective_schedule g flow) = Some sched
       ∧ schedule_events fid (last_scheduled_run db fid now)
           (schedule_next sched now (default 10 max_runs)) [] db
         = (Ok ids, db1)
       ∧ schedule_flow_runs now flow_id max_runs db
         = (Ok ids,
            set_flow_runs db1 (mark_auto_scheduled ids (flow_runs db1)))).
Proof.
  destruct flow_id as [fid|]; [|left; eexists; split; [done|eauto]].
  destruct (flow_query db fid) as [flow|] eqn:Hq.
  2: { left. exists (Ok []). split; [|eauto].
       unfold schedule_flow_runs. rewrite bind_run. unfold get. by rewrite Hq. }
  destruct (flow_groups db !! Flow.flow_group_id flow) as [g|] eqn:Hg.
  2: { left. eexists. split; [|eauto].
       unfold schedule_flow_runs. rewrite bind_run. unfold get.
       by rewrite Hq, Hg. }
  destruct (schedule_schema_load (effective_schedule g flow))
    as [sched|] eqn:Hload.
  2: { left. exists (Ok []). split; [|eauto].
       unfold schedule_flow_runs. rewrite bind_run. unfold get.
       by rewrite Hq, Hg, Hload. }
  right.
  destruct (schedule_events_spec fid (last_scheduled_run db fid now)
              (schedule_next sched now (default 10 max_runs)) [] db)
    as (ids & db1 & Hloop & _).
  exists fid, flow, g, sched, ids, db1. repeat split; try done.
  by apply (schedule_flow_runs_run now fid max_runs db flow g sched).
Qed.

(** [schedule_flow_runs] touches the flow runs only. *)
Lemma schedule_flow_runs_same_but_runs (now : Z) (flow_id : option string)
    (max_runs : option Z) (db : DB) :
  same_but_runs db (schedule_flow_runs now flow_id max_runs db).2.
Proof.
  destruct (schedule_flow_runs_cases now flow_id max_runs db)
    as [(res & -> & _)|(fid & flow & g & sched & ids & db1 & _ & _ & _ & _ & Hloop & ->)];
    [done|].
  destruct (schedule_events_spec fid (last_scheduled_run db fid now)
              (schedule_next sched now (default 10 max_runs)) [] db)
    as (ids' & db1' & Hloop' & Hsame & _).
  rewrite Hloop in Hloop'. by simplify_eq/=.
Qed.

(** C8.  For a flow whose effective schedule fails to deserialize,
    [schedule_flow_runs] returns the empty list of run ids, raises nothing
    and leaves the database as it was. *)
Theorem schedule_flow_runs_swallows_bad_schedule (now : Z) (fid : string)
    (max_runs : option Z) (db : DB) (flow : Flow.t) (g : FlowGroup.t) :
  flows db !! fid = Some flow →
  flow_groups db !! Flow.flow_group_id flow = Some g →
  schedule_schema_load (effective_schedule g flow) = None →
  schedule_flow_runs now (Some fid) max_runs db = (Ok [], db).
Proof.
  intros Hflow Hg Hload.
  unfold schedule_flow_runs. rewrite bind_run. unfold get, flow_query.
  rewrite Hflow. destruct (schedulable db flow); [|done].
  by rewrite Hg, Hload.
Qed.

(** *** What a pass reads *)

Lemma create_flow_run_congr (fid : string) (start : Z)
    (params : gmap string json) (key : string) (db db' : DB) :
  flow_runs db' = flow_runs db →
  (create_flow_run fid start params key db').1
  = (create_flow_run fid start params key db).1
  ∧ flow_runs (create_flow_run fid start params key db').2
    = flow_runs (create_flow_run fid start params key db).2.
Proof.
  intros Hruns. unfold create_flow_run. rewrite !bind_run. unfold get.
  rewrite Hruns.
  by destruct (first (where_ _ (flow_runs db))) as [[rid r]|].
Qed.

(** The loop reads and writes the flow runs only. *)
Lemma schedule_events_congr (fid : string) (last : Z) (events : list Event.t)
    (acc : list string) (db db' : DB) :
  flow_runs db' = flow_runs db →
  (schedule_events fid last events acc db').1
  = (schedule_events fid last events acc db).1
  ∧ flow_runs (schedule_events fid last events acc db').2
    = flow_runs (schedule_events fid last events acc db).2.
Proof.
  revert acc db db'. induction events as [|e events IH];
    intros acc db db' Hruns; simpl; [done|].
  destruct (Event.start_time e <=? last); [by apply IH|].
  rewrite !bind_run.
  destruct (create_flow_run_congr fid (Event.start_time e)
              (Event.parameter_defaults e)
              (idempotency_key_of (Event.start_time e)) db db' Hruns)
    as [Hres Hruns1].
  destruct (create_flow_run_spec fid (Event.start_time e)
              (Event.parameter_defaults e)
              (idempotency_key_of (Event.start_time e)) db)
    as (rid & db1 & Hrun & _).
  rewrite Hrun in Hres, Hruns1 |- *.
  destruct (create_flow_run fid _ _ _ db') as [res' db1'].
  simpl in Hres, Hruns1. subst res'. by apply IH.
Qed.

(** A pass reads the flow groups, the flow runs, and of the flow row only
    its schedule, its two flags and its group. *)
Lemma schedule_flow_runs_congr (now : Z) (fid : string)
    (max_runs : option Z) (db db' : DB) (f f' : Flow.t) :
  flow_groups db' = flow_groups db →
  flow_runs db' = flow_runs db →
  flows db !! fid = Some f →
  flows db' !! fid = Some f' →
  same_scheduling f f' →
  (schedule_flow_runs now (Some fid) max_runs db').1
  = (schedule_flow_runs now (Some fid) max_runs db).1.
Proof.
  intros Hgroups Hruns Hf Hf' (Hsched & Hactive & Harchived & Hgid).
  unfold schedule_flow_runs. rewrite !bind_run. unfold get, flow_query.
  rewrite Hf, Hf'.
  assert (Hsame : schedulable db' f' = schedulable db f).
  { unfold schedulable. by rewrite Hgroups, Hsched, Hactive, Harchived, Hgid. }
  rewrite Hsame. destruct (schedulable db f); [|done].
  rewrite Hgroups, Hgid.
  destruct (flow_groups db !! Flow.flow_group_id f) as [g|]; [|done].
  assert (Heff : effective_schedule g f' = effective_schedule g f).
  { unfold effective_schedule. by rewrite Hsched. }
  rewrite Heff.
  destruct (schedule_schema_load (effective_schedule g f)) as [sched|];
    [|done].
  assert (Hlast : last_scheduled_run db' fid now
                  = last_scheduled_run db fid now).
  { unfold last_scheduled_run, flow_runs_aggregate_max. by rewrite Hruns. }
  rewrite Hlast, !bind_run.
  destruct (schedule_events_congr fid (last_scheduled_run db fid now)
              (schedule_next sched now (default 10 max_runs)) [] db db' Hruns)
    as [Hres _].
  destruct (schedule_events_spec fid (last_scheduled_run db fid now)
              (schedule_next sched now (default 10 max_runs)) [] db)
    as (ids & db1 & Hloop & _).
  rewrite Hloop in Hres |- *.
  destruct (schedule_events fid _ _ [] db') as [res' db1'].
  simpl in Hres. by subst res'.
Qed.

(** *** The database after a pass *)

Lemma idempotency_key_of_inj `{!Inj (=) (=) in_tz_UTC} :
  Inj (=) (=) idempotency_key_of.
Proof.
  intros t1 t2 Hkey. unfold idempotency_key_of in Hkey.
  by apply (inj (String.app _)), (inj in_tz_UTC) in Hkey.
Qed.

(** The loop keeps the keys consistent. *)
Lemma schedule_events_keys_consistent `{!Inj (=) (=) in_tz_UTC}
    (fid : string) (last : Z) (events : list Event.t) (acc ids : list string)
    (db db1 : DB) :
  keys_consistent db →
  schedule_events fid last events acc db = (Ok ids, db1) →
  keys_consistent db1.
Proof.
  intros HK Hloop rid r t Hr Hkey.
  destruct (schedule_events_spec fid last events acc db)
    as (ids' & db1' & Hloop' & _ & _ & Hnew & _).
  rewrite Hloop in Hloop'. injection Hloop' as _ <-.
  destruct (flow_runs db !! rid) as [r0|] eqn:Hr0.
  - assert (r0 = r) as ->.
    { destruct (schedule_events_spec fid last events acc db)
        as (? & ? & Hloop'' & _ & Hkept & _).
      rewrite Hloop in Hloop''. injection Hloop'' as _ <-.
      apply Hkept in Hr0. congruence. }
    by apply (HK rid).
  - destruct (Hnew rid r Hr Hr0) as (_ & _ & _ & _ & e & _ & _ & Hstart & _ & Hkey').
    rewrite Hkey' in Hkey. apply (inj Some) in Hkey.
    apply idempotency_key_of_inj in Hkey. congruence.
Qed.

Section pass.
Context (fid : string) (last : Z) (events : list Event.t).
Context (db db1 : DB) (ids : list string).
Context (Hloop : schedule_events fid last events [] db = (Ok ids, db1)).

Local Abbreviation runs' := (mark_auto_scheduled ids (flow_runs db1)).

Lemma pass_spec :
  same_but_runs db db1
  ∧ runs_kept db db1
  ∧ (∀ i r, flow_runs db1 !! i = Some r → flow_runs db !! i = None →
       i ∈ ids ∧ created_by fid last events r)
  ∧ (∀ i, i ∈ ids →
       ∃ r e, flow_runs db1 !! i = Some r ∧ FlowRun.flow_id r = fid
              ∧ e ∈ events ∧ last < Event.start_time e
              ∧ FlowRun.idempotency_key r
                = Some (idempotency_key_of (Event.start_time e)))
  ∧ (∀ e, e ∈ events → last < Event.start_time e →
       ∃ i r, i ∈ ids ∧ flow_runs db1 !! i = Some r
              ∧ FlowRun.flow_id r = fid
              ∧ FlowRun.idempotency_key r
                = Some (idempotency_key_of (Event.start_time e)))
  ∧ length ids = length (filter (λ e, last < Event.start_time e) events).
Proof.
  destruct (schedule_events_spec fid last events [] db)
    as (ids' & db1' & Hloop' & H).
  rewrite Hloop in Hloop'. simpl in Hloop'. by simplify_eq.
Qed.

(** A run that was not there before the pass was created by it, for an
    occurrence later than the watermark, and is marked. *)
Lemma pass_new_run (i : string) (r : FlowRun.t) :
  runs' !! i = Some r →
  flow_runs db !! i = None →
  i ∈ ids
  ∧ FlowRun.flow_id r = fid
  ∧ last < FlowRun.scheduled_start_time r
  ∧ FlowRun.auto_scheduled r = true
  ∧ FlowRun.state r = "Scheduled"
  ∧ ∃ e, e ∈ events
         ∧ FlowRun.scheduled_start_time r = Event.start_time e
         ∧ FlowRun.parameters r = Event.parameter_defaults e.
Proof.
  intros Hr Hnone. destruct pass_spec as (_ & _ & Hnew & _).
  rewrite mark_auto_scheduled_lookup in Hr.
  destruct (flow_runs db1 !! i) as [r0|] eqn:Hr0; simplify_eq/=.
  destruct (Hnew i r0 Hr0 Hnone) as (Hi & Hfid & Hstate & Hauto & e & He & Hlt & Hstart & Hpar & _).
  rewrite bool_decide_eq_true_2 by done. simpl.
  repeat split; try done; [lia|]. by exists e.
Qed.

(** A run that was there before the pass is still there, marked if the
    loop returned its id. *)
Lemma pass_old_run (i : string) (r : FlowRun.t) :
  flow_runs db !! i = Some r →
  runs' !! i = Some (if bool_decide (i ∈ ids)
                     then FlowRun.set_auto_scheduled r true else r).
Proof.
  intros Hr. destruct pass_spec as (_ & Hkept & _).
  rewrite mark_auto_scheduled_lookup.
  by rewrite (Hkept i r Hr).
Qed.

Lemma pass_old_auto_run (i : string) (r : FlowRun.t) :
  flow_runs db !! i = Some r →
  auto_scheduled_run fid r →
  ∃ r', runs' !! i = Some r' ∧ auto_scheduled_run fid r'
        ∧ FlowRun.scheduled_start_time r' = FlowRun.scheduled_start_time r.
Proof.
  intros Hr [Hfid Hauto]. eexists. split; [by apply pass_old_run|].
  by destruct (bool_decide (i ∈ ids)).
Qed.

Context `{!Inj (=) (=) in_tz_UTC}.
Context (HK : keys_consistent db).

(** Every id the loop returned names, after the marking, an auto-scheduled
    run of the flow that starts later than the watermark. *)
Lemma pass_returned_run (i : string) :
  i ∈ ids →
  ∃ r, runs' !! i = Some r ∧ auto_scheduled_run fid r
       ∧ last < FlowRun.scheduled_start_time r.
Proof.
  intros Hi. destruct pass_spec as (_ & _ & _ & Hids & _).
  destruct (Hids i Hi) as (r & e & Hr & Hfid & He & Hlt & Hkey).
  pose proof (schedule_events_keys_consistent _ _ _ _ _ _ _ HK Hloop) as HK1.
  pose proof (HK1 i r _ Hr Hkey) as Hstart.
  exists (FlowRun.set_auto_scheduled r true).
  rewrite mark_auto_scheduled_lookup, Hr. simpl.
  rewrite bool_decide_eq_true_2 by done.
  split; [done|]. split; [done|]. simpl. lia.
Qed.

(** Every occurrence later than the watermark has, after the pass, an
    auto-scheduled run of the flow that starts when it does. *)
Lemma pass_covers_event (e : Event.t) :
  e ∈ events →
  last < Event.start_time e →
  ∃ i r, i ∈ ids ∧ runs' !! i = Some r ∧ auto_scheduled_run fid r
         ∧ FlowRun.scheduled_start_time r = Event.start_time e.
Proof.
  intros He Hlt. destruct pass_spec as (_ & _ & _ & _ & Hcov & _).
  destruct (Hcov e He Hlt) as (i & r & Hi & Hr & Hfid & Hkey).
  pose proof (schedule_events_keys_consistent _ _ _ _ _ _ _ HK Hloop) as HK1.
  pose proof (HK1 i r _ Hr Hkey) as Hstart.
  exists i, (FlowRun.set_auto_scheduled r true). split; [done|].
  rewrite mark_auto_scheduled_lookup, Hr. simpl.
  rewrite bool_decide_eq_true_2 by done. done.
Qed.

(** An auto-scheduled run of the flow after the pass was one before, or
    is one the loop returned. *)
Lemma pass_auto_run (i : string) (r : FlowRun.t) :
  runs' !! i = Some r →
  auto_scheduled_run fid r →
  (∃ r0, flow_runs db !! i = Some r0 ∧ auto_scheduled_run fid r0
         ∧ FlowRun.scheduled_start_time r0 = FlowRun.scheduled_start_time r)
  ∨ (i ∈ ids ∧ last < FlowRun.scheduled_start_time r).
Proof.
  intros Hr Hauto.
  destruct (decide (i ∈ ids)) as [Hi|Hi].
  - right. split; [done|].
    destruct (pass_returned_run i Hi) as (r' & Hr' & _ & Hlt). congruence.
  - left. destruct (flow_runs db !! i) as [r0|] eqn:Hr0.
    + pose proof (pass_old_run i r0 Hr0) as Hr'.
      rewrite bool_decide_eq_false_2 in Hr' by done.
      exists r0. by simplify_eq.
    + by destruct (pass_new_run i r Hr Hr0) as (? & _).
Qed.

(** After the pass the watermark is no earlier than any of the events. *)
Lemma pass_watermark (now : Z) (db' : DB) :
  last = last_scheduled_run db fid now →
  flow_runs db' = runs' →
  ∀ e, e ∈ events → Event.start_time e ≤ last_scheduled_run db' fid now.
Proof.
  intros Hlast Hruns' e He. unfold last_scheduled_run in *.
  destruct (flow_runs_aggregate_max db' fid) as [m'|] eqn:Hm'.
  - apply flow_runs_aggregate_max_Some in Hm' as [(i' & r' & Hr' & Hauto' & Hstart') Hle'].
    rewrite Hruns' in Hr', Hle'.
    destruct (Z.le_gt_cases (Event.start_time e) last) as [Hle|Hgt].
    + destruct (pass_auto_run i' r' Hr' Hauto')
        as [(r0 & Hr0 & Hauto0 & Hstart0)|[_ Hlt]]; [|lia].
      destruct (flow_runs_aggregate_max db fid) as [m|] eqn:Hm.
      * apply flow_runs_aggregate_max_Some in Hm as [(i & r & Hr & Hauto & Hstart) _].
        destruct (pass_old_auto_run i r Hr Hauto) as (r2 & Hr2 & Hauto2 & Hstart2).
        specialize (Hle' i r2 Hr2 Hauto2). lia.
      * rewrite flow_runs_aggregate_max_None in Hm. by destruct (Hm i' r0 Hr0).
    + destruct (pass_covers_event e He Hgt) as (i & r & _ & Hr & Hauto & Hstart).
      specialize (Hle' i r Hr Hauto). lia.
  - rewrite flow_runs_aggregate_max_None in Hm'. rewrite Hruns' in Hm'.
    destruct (Z.le_gt_cases (Event.start_time e) last) as [Hle|Hgt].
    + destruct (flow_runs_aggregate_max db fid) as [m|] eqn:Hm; [|lia].
      apply flow_runs_aggregate_max_Some in Hm as [(i & r & Hr & Hauto & Hstart) _].
      destruct (pass_old_auto_run i r Hr Hauto) as (r2 & Hr2 & Hauto2 & _).
      by destruct (Hm' i r2 Hr2).
    + destruct (pass_covers_event e He Hgt) as (i & r & _ & Hr & Hauto & _).
      by destruct (Hm' i r Hr).
Qed.

End pass.

Lemma flow_query_same_but_runs (db db' : DB) (fid : string) :
  same_but_runs db db' → flow_query db' fid = flow_query db fid.
Proof.
  intros (_ & Hgroups & Hflows). unfold flow_query, schedulable.
  by rewrite Hgroups, Hflows.
Qed.

Lemma last_scheduled_run_None (db : DB) (fid : string) (now : Z) :
  (∀ rid r, flow_runs db !! rid = Some r → ¬ auto_scheduled_run fid r) →
  last_scheduled_run db fid now = now.
Proof.
  intros Hnone. unfold last_scheduled_run.
  by rewrite (proj2 (flow_runs_aggregate_max_None db fid) Hnone).
Qed.

Lemma last_scheduled_run_Some (db : DB) (fid : string) (now : Z)
    (rid : string) (r : FlowRun.t) :
  flow_runs db !! rid = Some r →
  auto_scheduled_run fid r →
  FlowRun.scheduled_start_time r ≤ last_scheduled_run db fid now
  ∧ ∃ rid' r', flow_runs db !! rid' = Some r' ∧ auto_scheduled_run fid r'
               ∧ FlowRun.scheduled_start_time r'
                 = last_scheduled_run db fid now.
Proof.
  intros Hr Hauto. unfold last_scheduled_run.
  destruct (flow_runs_aggregate_max db fid) as [m|] eqn:Hm.
  - apply flow_runs_aggregate_max_Some in Hm as [Hin Hle]. eauto.
  - rewrite flow_runs_aggregate_max_None in Hm. by destruct (Hm rid r Hr).
Qed.

(** A run [schedule_flow_runs] adds starts later than the watermark. *)
Lemma schedule_flow_runs_new_run (now : Z) (fid : string)
    (max_runs : option Z) (db : DB) (rid : string) (r : FlowRun.t) :
  flow_runs (schedule_flow_runs now (Some fid) max_runs db).2 !! rid = Some r →
  flow_runs db !! rid = None →
  last_scheduled_run db fid now < FlowRun.scheduled_start_time r.
Proof.
  destruct (schedule_flow_runs_cases now (Some fid) max_runs db)
    as [(res & -> & _)|(fid' & flow & g & sched & ids & db1 & [= <-] & _ & _ & _ & Hloop & ->)];
    simpl; [congruence|].
  intros Hr Hnone.
  by destruct (pass_new_run _ _ _ _ _ _ Hloop rid r Hr Hnone) as (_ & _ & ? & _).
Qed.

(** C2.  The watermark [last_scheduled_run] is the invocation time when
    the flow has no auto-scheduled run, and otherwise the maximum
    [scheduled_start_time] over its auto-scheduled runs (attained by one of
    them and exceeded by none).  [schedule_flow_runs] creates no run for an
    occurrence at or before the watermark: every run it adds starts later
    than the watermark, and a pass that reaches the loop returns one id per
    occurrence later than the watermark.  So with no auto-scheduled run,
    every run added starts later than the invocation time. *)
Theorem watermark_is_latest_auto_scheduled_start (now : Z) (fid : string)
    (max_runs : option Z) (db : DB) :
  let last := last_scheduled_run db fid now in
  let res := schedule_flow_runs now (Some fid) max_runs db in
  ((∀ rid r, flow_runs db !! rid = Some r → ¬ auto_scheduled_run fid r) →
   last = now)
  ∧ (∀ rid r, flow_runs db !! rid = Some r → auto_scheduled_run fid r →
       FlowRun.scheduled_start_time r ≤ last
       ∧ ∃ rid' r', flow_runs db !! rid' = Some r'
                    ∧ auto_scheduled_run fid r'
                    ∧ FlowRun.scheduled_start_time r' = last)
  ∧ (∀ rid r, flow_runs res.2 !! rid = Some r → flow_runs db !! rid = None →
       last < FlowRun.scheduled_start_time r)
  ∧ (∀ flow g sched,
       flow_query db fid = Some flow →
       flow_groups db !! Flow.flow_group_id flow = Some g →
       schedule_schema_load (effective_schedule g flow) = Some sched →
       ∃ ids, res.1 = Ok ids
              ∧ length ids
                = length (filter (λ e, last < Event.start_time e)
                            (schedule_next sched now (default 10 max_runs))))
  ∧ ((∀ rid r, flow_runs db !! rid = Some r → ¬ auto_scheduled_run fid r) →
     ∀ rid r, flow_runs res.2 !! rid = Some r → flow_runs db !! rid = None →
       now < FlowRun.scheduled_start_time r).
Proof.
  intros last res. subst last res.
  split; [apply last_scheduled_run_None|].
  split; [apply last_scheduled_run_Some|].
  split; [apply schedule_flow_runs_new_run|].
  split.
  - intros flow g sched Hq Hg Hload.
    destruct (schedule_events_spec fid (last_scheduled_run db fid now)
                (schedule_next sched now (default 10 max_runs)) [] db)
      as (ids & db1 & Hloop & _ & _ & _ & _ & _ & Hlen).
    simpl in Hloop.
    rewrite (schedule_flow_runs_run now fid max_runs db flow g sched
               Hq Hg Hload ids db1 Hloop).
    by exists ids.
  - intros Hnone rid r Hr Hnew.
    rewrite <-(last_scheduled_run_None db fid now Hnone).
    by apply (schedule_flow_runs_new_run now fid max_runs db rid r).
Qed.

(** C1.  With injective rendering of instants and keys consistent with
    start times, a second [schedule_flow_runs] at the same invocation time
    leaves the database as the first call left it and, when the first call
    returned, returns no run id: the runs the first call returned are
    marked [auto_scheduled] and start no later than the new watermark,
    which one of them attains, and every occurrence the second call
    receives is at or before that watermark and skipped. *)
Theorem schedule_flow_runs_idempotent (now : Z) (flow_id : option string)
    (max_runs : option Z) (db : DB) :
  Inj (=) (=) in_tz_UTC →
  keys_consistent db →
  let first_call := schedule_flow_runs now flow_id max_runs db in
  let second_call := schedule_flow_runs now flow_id max_runs first_call.2 in
  second_call.2 = first_call.2
  ∧ (∀ ids, first_call.1 = Ok ids → second_call.1 = Ok [])
  ∧ (∀ fid ids, flow_id = Some fid → first_call.1 = Ok ids →
       (∀ i, i ∈ ids →
          ∃ r, flow_runs first_call.2 !! i = Some r
               ∧ auto_scheduled_run fid r
               ∧ FlowRun.scheduled_start_time r
                 ≤ last_scheduled_run first_call.2 fid now)
       ∧ (ids ≠ [] →
          ∃ i r, i ∈ ids ∧ flow_runs first_call.2 !! i = Some r
                 ∧ FlowRun.scheduled_start_time r
                   = last_scheduled_run first_call.2 fid now)).
Proof.
  intros Hinj HK first_call second_call. subst first_call second_call.
  destruct (schedule_flow_runs_cases now flow_id max_runs db)
    as [(res & Hfirst & Hres)
       |(fid & flow & g & sched & ids & db1 & -> & Hq & Hg & Hload & Hloop & Hfirst)];
    rewrite Hfirst; cbn [fst snd].
  - rewrite Hfirst. cbn [fst snd]. split; [done|]. split.
    + intros ids ->. by destruct Hres as [?|[e ?]].
    + intros fid ids _ ->.
      destruct Hres as [[= ->]|[e ?]]; [|done].
      split; [intros i Hi; by apply elem_of_nil in Hi | done].
  - set (db' := set_flow_runs db1 (mark_auto_scheduled ids (flow_runs db1))).
    destruct (pass_spec _ _ _ _ _ _ Hloop) as (Hsame & _).
    assert (Hsame' : same_but_runs db db').
    { eapply same_but_runs_trans; [done|]. apply same_but_runs_set_flow_runs. }
    assert (Hq' : flow_query db' fid = Some flow)
      by by rewrite (flow_query_same_but_runs db db' fid Hsame').
    assert (Hg' : flow_groups db' !! Flow.flow_group_id flow = Some g)
      by by destruct Hsame' as (_ & -> & _).
    assert (Hwater : ∀ e, e ∈ schedule_next sched now (default 10 max_runs) →
                          Event.start_time e ≤ last_scheduled_run db' fid now).
    { by apply (pass_watermark _ _ _ _ _ _ Hloop HK now db'). }
    assert (Hsecond :
      schedule_flow_runs now (Some fid) max_runs db' = (Ok [], db')).
    { rewrite (schedule_flow_runs_run now fid max_runs db' flow g sched
                 Hq' Hg' Hload [] db').
      - by rewrite mark_auto_scheduled_nil, set_flow_runs_id.
      - by apply schedule_events_all_skipped. }
    fold db'. rewrite Hsecond. cbn [fst snd]. split; [done|]. split; [done|].
    intros fid' ids' [= <-] [= <-].
    assert (Hret : ∀ i, i ∈ ids →
              ∃ r, flow_runs db' !! i = Some r ∧ auto_scheduled_run fid r
                   ∧ last_scheduled_run db fid now
                     < FlowRun.scheduled_start_time r).
    { intros i Hi. by apply (pass_returned_run _ _ _ _ _ _ Hloop HK). }
    split.
    + intros i Hi. destruct (Hret i Hi) as (r & Hr & Hauto & _).
      exists r. split; [done|]. split; [done|].
      by apply (last_scheduled_run_Some db' fid now i r).
    + intros Hne. destruct ids as [|i0 ids0] eqn:Hids; [done|].
      destruct (Hret i0) as (r0 & Hr0 & Hauto0 & Hlt0);
        [apply list_elem_of_here|].
      destruct (last_scheduled_run_Some db' fid now i0 r0 Hr0 Hauto0)
        as (Hle0 & i' & r' & Hr' & Hauto' & Hstart').
      destruct (pass_auto_run _ _ _ _ _ _ Hloop HK i' r' Hr' Hauto')
        as [(r1 & Hr1 & Hauto1 & Hstart1)|[Hi' _]].
      * destruct (last_scheduled_run_Some db fid now i' r1 Hr1 Hauto1)
          as (Hle1 & _). lia.
      * by exists i', r'.
Qed.

End scheduling_properties.

(** ** Registering a flow *)

Section create_flow_properties.
Context (Schedule : Type).
Context (schedule_schema_load : option json → option Schedule).
Context (schedule_next : Schedule → Z → Z → list Event.t).
Context (in_tz_UTC : Z → string).
Context (core_version_lt_cutoff : json → result bool).
Context (core_version_cutoff : string).
Context (format_non_str : json → string).

Local Abbreviation schedule_flow_runs :=
  (schedule_flow_runs Schedule schedule_schema_load schedule_next in_tz_UTC).
Local Abbreviation check_core_version :=
  (check_core_version core_version_lt_cutoff core_version_cutoff
     format_non_str).
Local Abbreviation create_flow_here :=
  (create_flow Schedule schedule_schema_load schedule_next in_tz_UTC
     core_version_lt_cutoff core_version_cutoff format_non_str).

Lemma check_core_version_run (v : option json) (db : DB) :
  check_core_version v db = (Ok tt, db)
  ∨ ∃ e, check_core_version v db = (Raise e, db).
Proof.
  unfold check_core_version.
  destruct v as [v|]; [|by left].
  destruct (truthy v); [|by left].
  destruct (core_version_lt_cutoff v) as [[|]|e]; eauto.
Qed.

Lemma get_or_create_flow_group_found (tenant_id name : string) (db : DB)
    (gid : string) (g : FlowGroup.t) :
  find_flow_group db tenant_id name = Some (gid, g) →
  get_or_create_flow_group tenant_id name db = (Ok gid, db).
Proof.
  intros Hfind. unfold get_or_create_flow_group.
  rewrite bind_run. unfold get. by rewrite Hfind.
Qed.

(** The settings a new flow group is inserted with. *)
Lemma default_settings_eq :
  default_settings
  = {[ "heartbeat_enabled" := JBool true;
       "lazarus_enabled" := JBool true;
       "version_locking_enabled" := JBool false ]}.
Proof. unfold default_settings. by rewrite insert_empty. Qed.

Lemma get_or_create_flow_group_new (tenant_id name : string) (db : DB) :
  find_flow_group db tenant_id name = None →
  get_or_create_flow_group tenant_id name db
  = (Ok (fresh (dom (flow_groups db))),
     set_flow_groups db
       (<[fresh (dom (flow_groups db))
          := default_flow_group tenant_id name]> (flow_groups db))).
Proof.
  intros Hfind. unfold get_or_create_flow_group.
  rewrite bind_run. unfold get. rewrite Hfind.
  unfold insert_row. cbv zeta. rewrite default_settings_eq. done.
Qed.

(** Whichever way it goes, the group is there afterwards, it is the one
    [find_flow_group] answers with, and nothing but the groups changed. *)
Lemma get_or_create_flow_group_spec (tenant_id name : string) (db : DB) :
  ∃ gid g db1,
    get_or_create_flow_group tenant_id name db = (Ok gid, db1)
    ∧ find_flow_group db1 tenant_id name = Some (gid, g)
    ∧ projects db1 = projects db
    ∧ flows db1 = flows db
    ∧ flow_runs db1 = flow_runs db.
Proof.
  destruct (find_flow_group db tenant_id name) as [[gid g]|] eqn:Hfind.
  - exists gid, g, db. split; [|done].
    by apply (get_or_create_flow_group_found _ _ _ gid g).
  - eexists _, _, _. split; [by apply get_or_create_flow_group_new|].
    split; [|done]. unfold find_flow_group in *. simpl.
    apply first_where_insert_fresh; [|done|done].
    apply not_elem_of_dom, is_fresh.
Qed.

(** What a successful [create_flow] went through and left behind. *)
Lemma create_flow_Ok (now : Z) (uuid4 : string) (sf : SerializedFlow.t)
    (pid : string) (vgid : option string) (active : bool)
    (descr : option string) (db db' : DB) (fid : string) :
  create_flow_here now uuid4 sf pid vgid active descr db = (Ok fid, db') →
  ∃ flow env project edges gid db1,
    SerializedFlow.load sf = Ok flow
    ∧ FlowSchema.environment flow = Some env
    ∧ projects db !! pid = Some project
    ∧ unschedulable_parameters flow = false
    ∧ get_or_create_flow_group (Project.tenant_id project)
        (resolve_version_group_id vgid uuid4) db = (Ok gid, db1)
    ∧ edge_rows (Project.tenant_id project) (task_lookup flow)
        (FlowSchema.edges flow) = Ok edges
    ∧ flows db1 !! fid = None
    ∧ flows db'
      = <[fid := new_flow sf flow (Project.tenant_id project) pid
                   (resolve_version_group_id vgid uuid4)
                   (default 0 (max_version db1 (Project.tenant_id project)
                                 (resolve_version_group_id vgid uuid4)))
                   gid descr active edges]> (flows db1)
    ∧ flow_groups db' = flow_groups db1
    ∧ projects db' = projects db1.
Proof.
  unfold create_flow. intros Hrun.
  destruct (SerializedFlow.load sf) as [flow|e]; [|done].
  destruct (FlowSchema.environment flow) as [env|] eqn:Henv; [|done].
  rewrite bind_run in Hrun.
  destruct (check_core_version_run (env !! "__version__") db)
    as [Hcheck|[e Hcheck]]; rewrite Hcheck in Hrun; [|done].
  rewrite bind_run in Hrun. unfold get in Hrun.
  destruct (projects db !! pid) as [project|] eqn:Hproject; [|done].
  destruct (unschedulable_parameters flow) eqn:Hparams; [done|].
  rewrite bind_run in Hrun.
  destruct (get_or_create_flow_group_spec (Project.tenant_id project)
              (resolve_version_group_id vgid uuid4) db)
    as (gid & g & db1 & Hgroup & _).
  rewrite Hgroup in Hrun. rewrite bind_run in Hrun. cbn [fst snd] in Hrun.
  destruct (edge_rows _ _ _) as [edges|e] eqn:Hedges; [|done].
  unfold insert_row in Hrun. rewrite bind_run in Hrun.
  cbv beta iota delta [put] in Hrun. rewrite bind_run in Hrun.
  exists flow, env, project, edges, gid, db1.
  split; [done|]. split; [done|]. split; [done|]. split; [done|].
  split; [done|]. split; [done|].
  set (row := new_flow _ _ _ _ _ _ _ _ _ _) in *.
  set (fid' := fresh (dom (flows db1))) in *.
  set (db2 := set_flows db1 (<[fid' := row]> (flows db1))) in *.
  assert (Hsame : same_but_runs db2 db' ∧ fid = fid').
  { destruct active.
    - rewrite bind_run in Hrun.
      pose proof (schedule_flow_runs_same_but_runs Schedule
                    schedule_schema_load schedule_next in_tz_UTC
                    now (Some fid') None db2) as Hsame.
      destruct (schedule_flow_runs now (Some fid') None db2) as [[ids|e] db3];
        simpl in *; rewrite ?mret_run in Hrun; by simplify_eq.
    - simpl in Hrun. rewrite mret_run in Hrun. by simplify_eq. }
  destruct Hsame as [(Hp & Hg & Hf) ->].
  split; [apply not_elem_of_dom, is_fresh|].
  by rewrite Hp, Hg, Hf.
Qed.

(** *** Structural roles *)

Lemma not_elem_of_tasks_with_upstreams (flow : FlowSchema.t) (slug : string) :
  slug ∉ tasks_with_upstreams flow
  ↔ ∀ e, e ∈ FlowSchema.edges flow → EdgeSchema.downstream_task e ≠ slug.
Proof.
  unfold tasks_with_upstreams. rewrite elem_of_list_to_set, list_elem_of_fmap.
  split.
  - intros Hnot e He Heq. apply Hnot. by exists e.
  - intros Hall (e & -> & He). by apply (Hall e).
Qed.

Lemma not_elem_of_tasks_with_downstreams (flow : FlowSchema.t)
    (slug : string) :
  slug ∉ tasks_with_downstreams flow
  ↔ ∀ e, e ∈ FlowSchema.edges flow → EdgeSchema.upstream_task e ≠ slug.
Proof.
  unfold tasks_with_downstreams.
  rewrite elem_of_list_to_set, list_elem_of_fmap. split.
  - intros Hnot e He Heq. apply Hnot. by exists e.
  - intros Hall (e & -> & He). by apply (Hall e).
Qed.

Lemma set_task_detail_roles (tenant_id : string) (flow : FlowSchema.t)
    (t : TaskSchema.t) :
  roles_from_edges flow t (task_row tenant_id (set_task_detail flow t)).
Proof.
  unfold roles_from_edges. simpl. split; [done|].
  split; [|split].
  - rewrite bool_decide_eq_true. apply not_elem_of_tasks_with_upstreams.
  - rewrite bool_decide_eq_true. apply not_elem_of_tasks_with_downstreams.
  - rewrite existsb_exists. split.
    + intros (e & [He Hdown]%list_elem_of_In%list_elem_of_filter & Hmapped).
      by exists e.
    + intros (e & He & Hmapped & Hdown). exists e. split; [|done].
      by apply list_elem_of_In, list_elem_of_filter.
Qed.

Lemma set_task_detail_reference (tenant_id : string) (flow : FlowSchema.t)
    (t : TaskSchema.t) :
  t ∈ FlowSchema.tasks flow →
  reference_from_declaration flow t
    (task_row tenant_id (set_task_detail flow t)).
Proof.
  intros Ht. unfold reference_from_declaration. simpl. split; [done|].
  rewrite bool_decide_eq_true. unfold reference_tasks. split.
  - intros Hne. destruct (decide (_ = ∅)) as [Hempty|_].
    + destruct (FlowSchema.reference_tasks flow) as [|s l]; [done|].
      exfalso. eapply (not_elem_of_empty (C:=gset string) s).
      rewrite <-Hempty. set_solver.
    + by rewrite elem_of_list_to_set.
  - intros ->. rewrite decide_True by done.
    rewrite elem_of_list_to_set, list_elem_of_fmap.
    rewrite <-not_elem_of_tasks_with_downstreams. split.
    + by intros (t' & -> & [? _]%list_elem_of_filter).
    + intros Hterm. exists t. split; [done|]. by apply list_elem_of_filter.
Qed.

Lemma new_flow_tasks_lookup (sf : SerializedFlow.t) (flow : FlowSchema.t)
    (tenant_id pid vg : string) (v : Z) (gid : string)
    (descr : option string) (active : bool) (edges : list Edge.t)
    (i : nat) (t : TaskSchema.t) :
  FlowSchema.tasks flow !! i = Some t →
  Flow.tasks (new_flow sf flow tenant_id pid vg v gid descr active edges) !! i
  = Some (task_row tenant_id (set_task_detail flow t)).
Proof. intros Ht. simpl. by rewrite !list_lookup_fmap, Ht. Qed.

(** C4.  A successful [create_flow] stores, for each submitted task, a row
    with [is_root_task] true iff no edge has the task's slug as its
    [downstream_task], [is_terminal_task] true iff no edge has it as its
    [upstream_task], and [mapped] true iff some edge flagged mapped has it
    as its [downstream_task]; with no edges, every stored task is both root
    and terminal. *)
Theorem create_flow_stores_structural_roles (now : Z) (uuid4 : string)
    (sf : SerializedFlow.t) (pid : string) (vgid : option string)
    (active : bool) (descr : option string) (db db' : DB) (fid : string)
    (flow : FlowSchema.t) :
  SerializedFlow.load sf = Ok flow →
  create_flow_here now uuid4 sf pid vgid active descr db = (Ok fid, db') →
  ∃ row,
    flows db' !! fid = Some row
    ∧ length (Flow.tasks row) = length (FlowSchema.tasks flow)
    ∧ (∀ i t, FlowSchema.tasks flow !! i = Some t →
         ∃ task, Flow.tasks row !! i = Some task
                 ∧ roles_from_edges flow t task)
    ∧ (FlowSchema.edges flow = [] →
       ∀ task, task ∈ Flow.tasks row →
         Task.is_root_task task = true ∧ Task.is_terminal_task task = true).
Proof.
  intros Hload Hrun.
  apply create_flow_Ok in Hrun
    as (flow' & env & project & edges & gid & db1 & Hload' & _ & _ & _ & _ & _ & _ & Hflows & _).
  rewrite Hload in Hload'. injection Hload' as <-.
  eexists. split; [by rewrite Hflows, lookup_insert_eq|].
  split; [simpl; by rewrite !length_fmap|]. split.
  - intros i t Ht. eexists. split; [by apply new_flow_tasks_lookup|].
    apply set_task_detail_roles.
  - intros Hedges task Htask. simpl in Htask.
    apply list_elem_of_fmap in Htask as (t' & -> & Ht').
    apply list_elem_of_fmap in Ht' as (t & -> & Ht).
    destruct (set_task_detail_roles (Project.tenant_id project) flow t)
      as (_ & Hroot & Hterm & _).
    rewrite Hroot, Hterm, Hedges.
    split; intros e He; by apply elem_of_nil in He.
Qed.

(** Whether and how [create_flow] returns does not depend on the declared
    reference tasks. *)
Lemma create_flow_reference_tasks_independent (now : Z) (uuid4 : string)
    (sf sf' : SerializedFlow.t) (pid : string) (vgid : option string)
    (active : bool) (descr : option string) (db : DB) (flow : FlowSchema.t)
    (refs : list string) :
  SerializedFlow.load sf = Ok flow →
  SerializedFlow.load sf' = Ok (FlowSchema.set_reference_tasks flow refs) →
  SerializedFlow.get_schedule sf' = SerializedFlow.get_schedule sf →
  (create_flow_here now uuid4 sf' pid vgid active descr db).1
  = (create_flow_here now uuid4 sf pid vgid active descr db).1.
Proof.
  intros Hload Hload' Hget. unfold create_flow. rewrite Hload, Hload'.
  change (FlowSchema.environment (FlowSchema.set_reference_tasks flow refs))
    with (FlowSchema.environment flow).
  destruct (FlowSchema.environment flow) as [env|]; [|done].
  rewrite !bind_run.
  destruct (check_core_version_run (env !! "__version__") db)
    as [Hcheck|[e Hcheck]]; rewrite Hcheck; [|done].
  rewrite !bind_run. unfold get.
  destruct (projects db !! pid) as [project|]; [|done].
  change (unschedulable_parameters (FlowSchema.set_reference_tasks flow refs))
    with (unschedulable_parameters flow).
  destruct (unschedulable_parameters flow); [done|].
  rewrite !bind_run.
  destruct (get_or_create_flow_group_spec (Project.tenant_id project)
              (resolve_version_group_id vgid uuid4) db)
    as (gid & g & db1 & Hgroup & _).
  rewrite Hgroup. rewrite !bind_run. cbn [fst snd].
  change (task_lookup (FlowSchema.set_reference_tasks flow refs))
    with (task_lookup flow).
  change (FlowSchema.edges (FlowSchema.set_reference_tasks flow refs))
    with (FlowSchema.edges flow).
  destruct (edge_rows _ _ _) as [edges|e]; [|done].
  unfold insert_row. rewrite !bind_run. cbv beta iota delta [put].
  rewrite !bind_run.
  destruct active; [|done].
  rewrite !bind_run.
  set (fid := fresh (dom (flows db1))).
  set (row' := new_flow sf' _ _ _ _ _ _ _ _ _).
  set (row := new_flow sf _ _ _ _ _ _ _ _ _).
  set (db2' := set_flows db1 (<[fid := row']> (flows db1))).
  set (db2 := set_flows db1 (<[fid := row]> (flows db1))).
  assert (Hcongr : (schedule_flow_runs now (Some fid) None db2').1
                   = (schedule_flow_runs now (Some fid) None db2).1).
  { apply (schedule_flow_runs_congr Schedule schedule_schema_load
             schedule_next in_tz_UTC now fid None db2 db2' row row');
      [done | done | apply lookup_insert_eq | apply lookup_insert_eq |].
    split; [exact Hget | done]. }
  destruct (schedule_flow_runs now (Some fid) None db2') as [res' db3'].
  destruct (schedule_flow_runs now (Some fid) None db2) as [res db3].
  simpl in Hcongr. subst res'. by destruct res.
Qed.

(** C5, as the code has it.  [create_flow] does not compare the declared
    [reference_tasks] with the task set: it returns the same flow id, or
    raises the same exception, whatever slugs are declared.  A successful
    [create_flow] stores each task with [is_reference_task] true iff its
    slug is declared, when the declared set is not empty, and iff the task
    is terminal (no edge has its slug as [upstream_task]) when it is
    empty. *)
Theorem create_flow_stores_reference_tasks (now : Z) (uuid4 : string)
    (sf : SerializedFlow.t) (pid : string) (vgid : option string)
    (active : bool) (descr : option string) (db : DB)
    (flow : FlowSchema.t) :
  SerializedFlow.load sf = Ok flow →
  (∀ sf' refs,
     SerializedFlow.load sf'
     = Ok (FlowSchema.set_reference_tasks flow refs) →
     SerializedFlow.get_schedule sf' = SerializedFlow.get_schedule sf →
     (create_flow_here now uuid4 sf' pid vgid active descr db).1
     = (create_flow_here now uuid4 sf pid vgid active descr db).1)
  ∧ (∀ fid db',
       create_flow_here now uuid4 sf pid vgid active descr db
       = (Ok fid, db') →
       ∃ row,
         flows db' !! fid = Some row
         ∧ ∀ i t, FlowSchema.tasks flow !! i = Some t →
             ∃ task, Flow.tasks row !! i = Some task
                     ∧ reference_from_declaration flow t task).
Proof.
  intros Hload. split.
  - intros sf' refs Hload' Hget.
    by apply (create_flow_reference_tasks_independent now uuid4 sf sf' pid
                vgid active descr db flow refs).
  - intros fid db' Hrun.
    apply create_flow_Ok in Hrun
      as (flow' & env & project & edges & gid & db1 & Hload' & _ & _ & _ & _ & _ & _ & Hflows & _).
    rewrite Hload in Hload'. injection Hload' as <-.
    eexists. split; [by rewrite Hflows, lookup_insert_eq|].
    intros i t Ht. eexists. split; [by apply new_flow_tasks_lookup|].
    apply set_task_detail_reference. by eapply list_elem_of_lookup_2.
Qed.

(** *** Required parameters *)

Lemma unschedulable_parameters_uncovered (flow : FlowSchema.t)
    (schedule : ScheduleSchema.t) (c : ClockSchema.t)
    (p : ParameterSchema.t) :
  FlowSchema.schedule flow = Some schedule →
  c ∈ ScheduleSchema.clocks schedule →
  p ∈ FlowSchema.parameters flow →
  ParameterSchema.required p = true →
  (∀ s, ParameterSchema.name p = Some s →
        s ∉ dom (ClockSchema.parameter_defaults c)) →
  unschedulable_parameters flow = true.
Proof.
  intros Hsched Hc Hp Hreq Hmiss. unfold unschedulable_parameters.
  rewrite Hsched.
  assert (Hin : p ∈ filter (λ p, ParameterSchema.required p = true)
                      (FlowSchema.parameters flow))
    by by apply list_elem_of_filter.
  destruct (filter _ (FlowSchema.parameters flow)) as [|p0 ps] eqn:Hfilter;
    [by apply elem_of_nil in Hin|].
  apply negb_true_iff, not_true_is_false. intros Hall.
  rewrite forallb_forall in Hall.
  specialize (Hall c (proj1 (list_elem_of_In _ _) Hc)).
  unfold covers in Hall. rewrite forallb_forall in Hall.
  specialize (Hall (ParameterSchema.name p)).
  destruct (ParameterSchema.name p) as [s|] eqn:Hname.
  - rewrite bool_decide_eq_true in Hall. apply (Hmiss s eq_refl), Hall.
    apply list_elem_of_In, list_elem_of_fmap. by exists p.
  - discriminate Hall.
    apply list_elem_of_In, list_elem_of_fmap. by exists p.
Qed.

(** C6.  For a submission with a schedule and a required parameter whose
    name some clock's [parameter_defaults] does not hold, [create_flow]
    raises and leaves the database as it was; when the submission gets as
    far as the check (it has an environment, its core version is accepted
    and its project exists) the exception is the [ValueError] of the
    check. *)
Theorem create_flow_rejects_uncovered_required_parameter (now : Z)
    (uuid4 : string) (sf : SerializedFlow.t) (pid : string)
    (vgid : option string) (active : bool) (descr : option string) (db : DB)
    (flow : FlowSchema.t) (schedule : ScheduleSchema.t) (c : ClockSchema.t)
    (p : ParameterSchema.t) :
  SerializedFlow.load sf = Ok flow →
  FlowSchema.schedule flow = Some schedule →
  c ∈ ScheduleSchema.clocks schedule →
  p ∈ FlowSchema.parameters flow →
  ParameterSchema.required p = true →
  (∀ s, ParameterSchema.name p = Some s →
        s ∉ dom (ClockSchema.parameter_defaults c)) →
  ∃ e,
    create_flow_here now uuid4 sf pid vgid active descr db = (Raise e, db)
    ∧ (∀ env project,
         FlowSchema.environment flow = Some env →
         check_core_version (env !! "__version__") db = (Ok tt, db) →
         projects db !! pid = Some project →
         e = ValueError "Can not schedule a flow that has required parameters.").
Proof.
  intros Hload Hsched Hc Hp Hreq Hmiss.
  pose proof (unschedulable_parameters_uncovered flow schedule c p
                Hsched Hc Hp Hreq Hmiss) as Hbad.
  unfold create_flow. rewrite Hload.
  destruct (FlowSchema.environment flow) as [env|]; [|by eexists].
  rewrite bind_run.
  destruct (check_core_version_run (env !! "__version__") db)
    as [Hcheck|[e Hcheck]]; rewrite Hcheck.
  - rewrite bind_run. unfold get.
    destruct (projects db !! pid) as [project|]; [|by eexists].
    rewrite Hbad. eexists. split; [done|].
    by intros env' project' [= <-] _ _.
  - exists e. split; [done|].
    intros env' project' [= <-] Hcheck' _. congruence.
Qed.

(** *** Versions and flow groups *)




(** The version [create_flow] assigns is one more than every version in
    the group, and one more than some version in it unless the group has
    no flow, in which case it is 1. *)
Lemma next_version_spec (db : DB) (tenant_id vg : string) :
  let v := default 0 (max_version db tenant_id vg) + 1 in
  ((∀ k f, flows db !! k = Some f → ¬ in_version_group tenant_id vg f) →
   v = 1)
  ∧ (∀ k f, flows db !! k = Some f → in_version_group tenant_id vg f →
       Flow.version f < v
       ∧ ∃ k' f', flows db !! k' = Some f'
                  ∧ in_version_group tenant_id vg f'
                  ∧ v = 1 + Flow.version f').
Proof.
  intros v. subst v. split.
  - intros Hnone. by rewrite (proj2 (max_version_None db tenant_id vg) Hnone).
  - intros k f Hk Hf.
    destruct (max_version db tenant_id vg) as [m|] eqn:Hm.
    + apply max_version_Some in Hm as [(k' & f' & Hk' & Hf' & Hv) Hle].
      simpl. split; [specialize (Hle k f Hk Hf); lia|].
      exists k', f'. split; [done|]. split; [done|]. lia.
    + rewrite max_version_None in Hm. by destruct (Hm k f Hk).
Qed.



End create_flow_properties.

(** C10.  [FlowSchema] defaults [environment] to [None].  For a submission
    without an environment mapping [create_flow] raises the attribute error
    of [None.get], before it reads or writes the database; for one whose
    environment mapping has no ["__version__"] key the outcome of
    [create_flow] is the same whatever the comparison against the cutoff
    would answer: the gate is skipped. *)
Theorem create_flow_environment_unguarded (Schedule : Type)
    (schedule_schema_load : option json → option Schedule)
    (schedule_next : Schedule → Z → Z → list Event.t)
    (in_tz_UTC : Z → string) (core_version_lt_cutoff : json → result bool)
    (core_version_cutoff : string) (format_non_str : json → string)
    (now : Z) (uuid4 : string) (sf : SerializedFlow.t) (pid : string)
    (vgid : option string) (active : bool) (descr : option string) (db : DB)
    (flow : FlowSchema.t) :
  SerializedFlow.load sf = Ok flow →
  FlowSchema.environment FlowSchema.defaults = None
  ∧ (FlowSchema.environment flow = None →
     create_flow Schedule schedule_schema_load schedule_next in_tz_UTC
       core_version_lt_cutoff core_version_cutoff format_non_str
       now uuid4 sf pid vgid active descr db
     = (Raise (AttributeError "get"), db))
  ∧ (∀ env, FlowSchema.environment flow = Some env →
       env !! "__version__" = None →
       ∀ other_cutoff : json → result bool,
         create_flow Schedule schedule_schema_load schedule_next in_tz_UTC
           core_version_lt_cutoff core_version_cutoff format_non_str
           now uuid4 sf pid vgid active descr db
         = create_flow Schedule schedule_schema_load schedule_next in_tz_UTC
             other_cutoff core_version_cutoff format_non_str
             now uuid4 sf pid vgid active descr db).
Proof.
  intros Hload. split; [done|]. split.
  - intros Henv. unfold create_flow. by rewrite Hload, Henv.
  - intros env Henv Hversion other_cutoff.
    unfold create_flow. by rewrite Hload, Henv, Hversion.
Qed.

(** ** The properties on the concrete installation *)

Lemma result_with_state {A} (x : result A * DB) (a : result A) :
  x.1 = a → x = (a, x.2).
Proof. destruct x. simpl. by intros ->. Qed.

Lemma keys_consistent_no_keys (in_tz_UTC : Z → string) (db : DB) :
  map_Forall (λ _ r, FlowRun.idempotency_key r = None) (flow_runs db) →
  keys_consistent in_tz_UTC db.
Proof.
  intros Hnone rid r t Hr Hkey. specialize (Hnone rid r Hr). simpl in Hnone.
  congruence.
Qed.

Lemma schedule_flow_runs_idempotent_witness :
  Inj (=) (=) Example.in_tz_UTC
  ∧ keys_consistent Example.in_tz_UTC Example.db
  ∧ (Example.schedule_flow_runs 60 (Some "f") None Example.db).1
    = Ok ["0"; "1"]
  ∧ (Example.schedule_flow_runs 60 (Some "f") None
       (Example.schedule_flow_runs 60 (Some "f") None Example.db).2).2
    = (Example.schedule_flow_runs 60 (Some "f") None Example.db).2
  ∧ (Example.schedule_flow_runs 60 (Some "f") None
       (Example.schedule_flow_runs 60 (Some "f") None Example.db).2).1
    = Ok [].
Proof.
  assert (Hinj : Inj (=) (=) Example.in_tz_UTC) by apply pretty_Z_inj.
  assert (HK : keys_consistent Example.in_tz_UTC Example.db).
  { apply keys_consistent_no_keys.
    apply (bool_decide_unpack _). vm_compute. reflexivity. }
  split; [exact Hinj|]. split; [exact HK|].
  split; [vm_compute; reflexivity|].
  destruct (schedule_flow_runs_idempotent Example.Schedule
              Example.schedule_schema_load Example.schedule_next
              Example.in_tz_UTC 60 (Some "f") None Example.db Hinj HK)
    as (Hdb & Hids & _).
  split; [exact Hdb|].
  apply (Hids ["0"; "1"]). vm_compute. reflexivity.
Defined.

Lemma watermark_is_latest_auto_scheduled_start_witness :
  last_scheduled_run Example.db "f" 60 = 100
  ∧ flow_runs (Example.schedule_flow_runs 60 (Some "f") None Example.db).2
      !! "0" = Some {| FlowRun.flow_id := "f";
                       FlowRun.scheduled_start_time := 200;
                       FlowRun.parameters := ∅;
                       FlowRun.state := "Scheduled";
                       FlowRun.auto_scheduled := true;
                       FlowRun.idempotency_key := Some "auto-scheduled:200" |}
  ∧ last_scheduled_run Example.db "f" 60 < 200.
Proof.
  split; [vm_compute; reflexivity|].
  assert (Hrun :
    flow_runs (Example.schedule_flow_runs 60 (Some "f") None Example.db).2
      !! "0" = Some {| FlowRun.flow_id := "f";
                       FlowRun.scheduled_start_time := 200;
                       FlowRun.parameters := ∅;
                       FlowRun.state := "Scheduled";
                       FlowRun.auto_scheduled := true;
                       FlowRun.idempotency_key := Some "auto-scheduled:200" |})
    by (vm_compute; reflexivity).
  split; [exact Hrun|].
  destruct (watermark_is_latest_auto_scheduled_start Example.Schedule
              Example.schedule_schema_load Example.schedule_next
              Example.in_tz_UTC 60 "f" None Example.db)
    as (_ & _ & Hnew & _).
  apply (Hnew "0" _ Hrun). vm_compute. reflexivity.
Defined.

Lemma archive_deletes_all_scheduled_deactivate_only_auto_witness :
  "f" ≠ ""
  ∧ flows Example.db !! "f"
    = Some (Example.stored_flow
              (Some (JList [JNum 50; JNum 100; JNum 200; JNum 300])))
  ∧ (archive_flow (Some "f") Example.db).1 = Ok true
  ∧ flow_runs (set_schedule_inactive (Some "f") Example.db).2 !! "r2"
    = Some (Example.run 150 "Scheduled" false).
Proof.
  assert (Hne : "f" ≠ "") by discriminate.
  assert (Hflow : flows Example.db !! "f"
                  = Some (Example.stored_flow
                            (Some (JList [JNum 50; JNum 100; JNum 200;
                                          JNum 300]))))
    by (vm_compute; reflexivity).
  split; [exact Hne|]. split; [exact Hflow|].
  destruct (archive_deletes_all_scheduled_deactivate_only_auto Example.db
              "f" _ Hne Hflow) as (Harchived & _ & _ & _ & Hkept).
  split; [exact Harchived|].
  apply Hkept; [vm_compute; reflexivity | left; reflexivity].
Defined.

Lemma schedule_flow_runs_swallows_bad_schedule_witness :
  Example.schedule_schema_load (Some (JStr "every day")) = None
  ∧ Example.schedule_flow_runs 60 (Some "f") None Example.db_bad_schedule
    = (Ok [], Example.db_bad_schedule).
Proof.
  split; [reflexivity|].
  apply (schedule_flow_runs_swallows_bad_schedule Example.Schedule
           Example.schedule_schema_load Example.schedule_next
           Example.in_tz_UTC 60 "f" None Example.db_bad_schedule
           (Example.stored_flow (Some (JStr "every day"))) Example.group).
  - vm_compute. reflexivity.
  - vm_compute. reflexivity.
  - reflexivity.
Defined.

Lemma update_setting_merges_single_key_witness :
  flow_groups Example.db !! "g" = Some Example.group
  ∧ (∃ g',
       flow_groups ((enable_lazarus_for_flow (Some "f");;
                     disable_lazarus_for_flow (Some "f")) Example.db).2
         !! "g" = Some g'
       ∧ FlowGroup.settings g' !! "heartbeat_enabled" = Some (JBool true)
       ∧ FlowGroup.settings g' !! "version_locking_enabled"
         = Some (JBool false))
  ∧ (enable_lazarus_for_flow (Some "f");;
     disable_lazarus_for_flow (Some "f")) Example.db
    = (Ok true,
       set_flow_groups Example.db
         {[ "g" := FlowGroup.set_settings Example.group
                     {[ "heartbeat_enabled" := JBool true;
                        "lazarus_enabled" := JBool false;
                        "version_locking_enabled" := JBool false ]} ]})
  ∧ (_update_flow_setting (Some "f") "retries" (JNum 3) Example.db).1
    = Ok (FlowGroup.set_settings Example.group
            {[ "heartbeat_enabled" := JBool true;
               "lazarus_enabled" := JBool true;
               "version_locking_enabled" := JBool false;
               "retries" := JNum 3 ]}).
Proof.
  assert (Hg : flow_groups Example.db !! "g" = Some Example.group)
    by (vm_compute; reflexivity).
  split; [exact Hg|].
  destruct (update_setting_merges_single_key Example.db (Some "f"))
    as (_ & Htoggle & Hknown).
  destruct (Htoggle "g" Example.group Hg) as (g' & Hg' & Hheart & Hlock).
  split.
  { exists g'. split; [exact Hg'|].
    split; [rewrite Hheart | rewrite Hlock]; vm_compute; reflexivity. }
  destruct (Hknown "f"
              (Example.stored_flow
                 (Some (JList [JNum 50; JNum 100; JNum 200; JNum 300])))
              Example.group eq_refl)
    as [Hupdate Hpair]; [vm_compute; reflexivity | exact Hg|].
  split.
  - rewrite Hpair. vm_compute. reflexivity.
  - rewrite (Hupdate "retries" (JNum 3)). vm_compute. reflexivity.
Defined.



Lemma create_flow_stores_structural_roles_witness :
  ∃ db' row task,
    Example.create_flow 0 "u1" Example.serialized_flow "project" (Some "vg")
      true None Example.empty_db = (Ok "0", db')
    ∧ flows db' !! "0" = Some row
    ∧ length (Flow.tasks row) = 3%nat
    ∧ Flow.tasks row !! 1%nat = Some task
    ∧ roles_from_edges Example.flow (Example.task "b") task.
Proof.
  set (db' := (Example.create_flow 0 "u1" Example.serialized_flow "project"
                 (Some "vg") true None Example.empty_db).2).
  assert (Hrun : Example.create_flow 0 "u1" Example.serialized_flow
                   "project" (Some "vg") true None Example.empty_db
                 = (Ok "0", db'))
    by (apply result_with_state; vm_compute; reflexivity).
  destruct (create_flow_stores_structural_roles Example.Schedule
              Example.schedule_schema_load Example.schedule_next
              Example.in_tz_UTC Example.core_version_lt_cutoff
              Example.core_version_cutoff Example.format_non_str
              0 "u1" Example.serialized_flow "project" (Some "vg") true None
              Example.empty_db db' "0" Example.flow eq_refl Hrun)
    as (row & Hrow & Hlen & Hroles & _).
  destruct (Hroles 1%nat (Example.task "b") eq_refl) as (task & Htask & Hr).
  exists db', row, task.
  split; [exact Hrun|]. split; [exact Hrow|]. split; [exact Hlen|].
  split; [exact Htask | exact Hr].
Defined.

Lemma create_flow_stores_reference_tasks_witness :
  SerializedFlow.load Example.serialized_flow = Ok Example.flow
  ∧ (Example.create_flow 0 "u1" Example.serialized_flow_ghost_reference
       "project" (Some "vg") true None Example.empty_db).1
    = (Example.create_flow 0 "u1" Example.serialized_flow
         "project" (Some "vg") true None Example.empty_db).1
  ∧ ∃ db' row task,
      Example.create_flow 0 "u1" Example.serialized_flow
        "project" (Some "vg") true None Example.empty_db = (Ok "0", db')
      ∧ flows db' !! "0" = Some row
      ∧ Flow.tasks row !! 2%nat = Some task
      ∧ reference_from_declaration Example.flow (Example.task "c") task.
Proof.
  split; [reflexivity|].
  set (db' := (Example.create_flow 0 "u1" Example.serialized_flow "project"
                 (Some "vg") true None Example.empty_db).2).
  assert (Hrun : Example.create_flow 0 "u1" Example.serialized_flow
                   "project" (Some "vg") true None Example.empty_db
                 = (Ok "0", db'))
    by (apply result_with_state; vm_compute; reflexivity).
  destruct (create_flow_stores_reference_tasks Example.Schedule
              Example.schedule_schema_load Example.schedule_next
              Example.in_tz_UTC Example.core_version_lt_cutoff
              Example.core_version_cutoff Example.format_non_str
              0 "u1" Example.serialized_flow "project"
              (Some "vg") true None Example.empty_db
              Example.flow eq_refl)
    as (Hsame & Hstored).
  split.
  { apply (Hsame Example.serialized_flow_ghost_reference ["ghost"]);
      reflexivity. }
  destruct (Hstored "0" db' Hrun) as (row & Hrow & Hrefs).
  destruct (Hrefs 2%nat (Example.task "c") eq_refl) as (task & Htask & Hr).
  exists db', row, task.
  split; [exact Hrun|]. split; [exact Hrow|].
  split; [exact Htask | exact Hr].
Defined.

(** C5, as stated, fails: a submission that declares the reference task
    ["ghost"], a slug none of its tasks carries, is registered; no exception
    is raised, and none of its tasks is stored as a reference task. *)
Lemma create_flow_accepts_unknown_reference_task :
  "ghost" ∈ FlowSchema.reference_tasks Example.flow_ghost_reference
  ∧ TaskSchema.slug <$> FlowSchema.tasks Example.flow_ghost_reference
    = ["a"; "b"; "c"]
  ∧ ("ghost" ∉ ["a"; "b"; "c"])
  ∧ (Example.create_flow 0 "u1" Example.serialized_flow_ghost_reference
       "project" (Some "vg") true None Example.empty_db).1 = Ok "0"
  ∧ ¬ (∃ e, (Example.create_flow 0 "u1"
               Example.serialized_flow_ghost_reference "project" (Some "vg")
               true None Example.empty_db).1 = Raise e)
  ∧ (λ row : Flow.t, Task.is_reference_task <$> Flow.tasks row) <$>
      (flows (Example.create_flow 0 "u1"
                Example.serialized_flow_ghost_reference "project"
                (Some "vg") true None Example.empty_db).2 !! "0")
    = Some [false; false; false].
Proof.
  split; [apply list_elem_of_here|].
  split; [reflexivity|].
  split; [apply (bool_decide_unpack _); vm_compute; reflexivity|].
  split; [vm_compute; reflexivity|].
  split; [|vm_compute; reflexivity].
  intros [e He]. vm_compute in He. discriminate He.
Qed.

Lemma create_flow_rejects_uncovered_required_parameter_witness :
  Example.create_flow 0 "u1" Example.serialized_flow_required_parameter
    "project" (Some "vg") true None Example.empty_db
  = (Raise (ValueError "Can not schedule a flow that has required parameters."),
     Example.empty_db).
Proof.
  destruct (create_flow_rejects_uncovered_required_parameter
              Example.Schedule Example.schedule_schema_load
              Example.schedule_next Example.in_tz_UTC
              Example.core_version_lt_cutoff
              Example.core_version_cutoff Example.format_non_str
              0 "u1" Example.serialized_flow_required_parameter "project"
              (Some "vg") true None Example.empty_db
              Example.flow_required_parameter
              {| ScheduleSchema.clocks :=
                   [ {| ClockSchema.parameter_defaults := ∅ |} ] |}
              {| ClockSchema.parameter_defaults := ∅ |}
              {| ParameterSchema.name := Some "x";
                 ParameterSchema.slug := "x";
                 ParameterSchema.required := true;
                 ParameterSchema.default := JNull |})
    as (e & Hrun & He).
  - reflexivity.
  - reflexivity.
  - apply list_elem_of_here.
  - apply list_elem_of_here.
  - reflexivity.
  - intros s _. simpl. rewrite dom_empty_L. apply not_elem_of_empty.
  - unfold Example.create_flow. rewrite Hrun.
    rewrite (He Example.environment {| Project.tenant_id := "tenant" |});
      [reflexivity | reflexivity | vm_compute; reflexivity
      | vm_compute; reflexivity].
Defined.

Lemma create_flow_environment_unguarded_witness :
  SerializedFlow.load Example.serialized_flow_no_environment
  = Ok Example.flow_no_environment
  ∧ Example.create_flow 0 "u1" Example.serialized_flow_no_environment
      "project" (Some "vg") true None Example.empty_db
    = (Raise (AttributeError "get"), Example.empty_db).
Proof.
  split; [reflexivity|].
  destruct (create_flow_environment_unguarded Example.Schedule
              Example.schedule_schema_load Example.schedule_next
              Example.in_tz_UTC Example.core_version_lt_cutoff
              Example.core_version_cutoff Example.format_non_str
              0 "u1" Example.serialized_flow_no_environment "project"
              (Some "vg") true None Example.empty_db
              Example.flow_no_environment eq_refl)
    as (_ & Hnone & _).
  apply Hnone. reflexivity.
Defined.

(** * Further properties of the module *)

(** ** Settings: failures, repetition, order *)

(** X1.  [_update_flow_setting] raises [ValueError "Invalid flow ID"] and
    leaves the database as it was when the flow id is [None] or names no
    flow; for a flow whose group is stored it returns the group with
    [value] at [key] and writes exactly that group: every other flow group,
    and the projects, flows and flow runs, are as they were.  The
    ["Settings update failed"] branch is not taken. *)
Theorem update_flow_setting_outcomes (flow_id : option string)
    (key : string) (value : json) (db : DB) :
  (flow_id ≫= (λ fid, flows db !! fid) = None →
   _update_flow_setting flow_id key value db
   = (Raise (ValueError "Invalid flow ID"), db))
  ∧ (∀ fid flow fg,
       flow_id = Some fid →
       flows db !! fid = Some flow →
       flow_groups db !! Flow.flow_group_id flow = Some fg →
       ∃ fg' db',
         _update_flow_setting flow_id key value db = (Ok fg', db')
         ∧ fg' = FlowGroup.set_settings fg
                   (<[key := value]> (FlowGroup.settings fg))
         ∧ FlowGroup.settings fg' !! key = Some value
         ∧ flow_groups db' !! Flow.flow_group_id flow = Some fg'
         ∧ (∀ gid, gid ≠ Flow.flow_group_id flow →
              flow_groups db' !! gid = flow_groups db !! gid)
         ∧ projects db' = projects db
         ∧ flows db' = flows db
         ∧ flow_runs db' = flow_runs db).
Proof.
  split.
  - intros Hnone. unfold _update_flow_setting.
    destruct flow_id as [fid|]; [|done]. simpl in Hnone.
    rewrite bind_run. unfold get. by rewrite Hnone.
  - intros fid flow fg -> Hflow Hfg.
    rewrite (update_flow_setting_run fid key value db flow fg Hflow Hfg).
    eexists _, _. split; [done|]. split; [done|]. simpl.
    split; [apply lookup_insert_eq|]. split; [apply lookup_insert_eq|].
    split; [|done]. intros gid Hne. by rewrite lookup_insert_ne.
Qed.

Lemma update_flow_setting_outcomes_witness :
  _update_flow_setting (Some "nobody") "lazarus_enabled" (JBool false)
    Example.db
  = (Raise (ValueError "Invalid flow ID"), Example.db)
  ∧ ∃ fg' db',
      _update_flow_setting (Some "f") "lazarus_enabled" (JBool false)
        Example.db = (Ok fg', db')
      ∧ FlowGroup.settings fg' !! "lazarus_enabled" = Some (JBool false)
      ∧ flow_groups db' !! "g" = Some fg'
      ∧ flows db' = flows Example.db.
Proof.
  destruct (update_flow_setting_outcomes (Some "nobody") "lazarus_enabled"
              (JBool false) Example.db) as [Hunknown _].
  split; [apply Hunknown; vm_compute; reflexivity|].
  destruct (update_flow_setting_outcomes (Some "f") "lazarus_enabled"
              (JBool false) Example.db) as [_ Hknown].
  destruct (Hknown "f"
              (Example.stored_flow
                 (Some (JList [JNum 50; JNum 100; JNum 200; JNum 300])))
              Example.group)
    as (fg' & db' & Hrun & _ & Hkey & Hgroup & _ & _ & Hflows & _);
    [reflexivity | vm_compute; reflexivity | vm_compute; reflexivity|].
  exists fg', db'. split; [exact Hrun|]. split; [exact Hkey|].
  split; [exact Hgroup | exact Hflows].
Defined.

(** What a run of [_update_flow_setting] leaves: the database unchanged,
    or the group of the flow with the key set. *)
Lemma update_flow_setting_cases (flow_id : option string) (key : string)
    (value : json) (db : DB) :
  (∃ e, _update_flow_setting flow_id key value db = (Raise e, db))
  ∨ (∃ fid flow fg,
       flow_id = Some fid
       ∧ flows db !! fid = Some flow
       ∧ flow_groups db !! Flow.flow_group_id flow = Some fg
       ∧ _update_flow_setting flow_id key value db
         = (Ok (FlowGroup.set_settings fg
                  (<[key := value]> (FlowGroup.settings fg))),
            set_flow_groups db
              (<[Flow.flow_group_id flow
                 := FlowGroup.set_settings fg
                      (<[key := value]> (FlowGroup.settings fg))]>
                 (flow_groups db)))).
Proof.
  destruct flow_id as [fid|]; [|left; by eexists].
  destruct (flows db !! fid) as [flow|] eqn:Hflow.
  2: { left. eexists. unfold _update_flow_setting. rewrite bind_run.
       unfold get. by rewrite Hflow. }
  destruct (flow_groups db !! Flow.flow_group_id flow) as [fg|] eqn:Hfg.
  2: { left. eexists. unfold _update_flow_setting. rewrite bind_run.
       unfold get. by rewrite Hflow, Hfg. }
  right. exists fid, flow, fg. repeat split; try done.
  by apply update_flow_setting_run.
Qed.

(** Two updates in a row on a known flow. *)
Lemma update_flow_setting_twice (fid k1 k2 : string) (v1 v2 : json)
    (db : DB) (flow : Flow.t) (fg : FlowGroup.t) :
  flows db !! fid = Some flow →
  flow_groups db !! Flow.flow_group_id flow = Some fg →
  ((_update_flow_setting (Some fid) k1 v1;;
    _update_flow_setting (Some fid) k2 v2) db).2
  = set_flow_groups db
      (<[Flow.flow_group_id flow
         := FlowGroup.set_settings fg
              (<[k2 := v2]> (<[k1 := v1]> (FlowGroup.settings fg)))]>
         (flow_groups db)).
Proof.
  intros Hflow Hfg. rewrite bind_run.
  rewrite (update_flow_setting_run fid k1 v1 db flow fg Hflow Hfg).
  erewrite (update_flow_setting_run fid k2 v2 _ flow);
    [|done|simpl; apply lookup_insert_eq].
  simpl. unfold set_flow_groups. simpl. by rewrite insert_insert_eq.
Qed.

(** X2.  Repeating an update changes nothing more: two calls of
    [_update_flow_setting] with the same key and value leave the database
    the first call left, and so do two calls of [enable_lazarus_for_flow],
    of [disable_lazarus_for_flow], of [enable_version_locking_for_flow] and
    of [disable_version_locking_for_flow]. *)
Theorem update_flow_setting_idempotent (flow_id : option string) (db : DB) :
  (∀ key value,
     ((_update_flow_setting flow_id key value;;
       _update_flow_setting flow_id key value) db).2
     = (_update_flow_setting flow_id key value db).2)
  ∧ ((enable_lazarus_for_flow flow_id;;
      enable_lazarus_for_flow flow_id) db).2
    = (enable_lazarus_for_flow flow_id db).2
  ∧ ((disable_lazarus_for_flow flow_id;;
      disable_lazarus_for_flow flow_id) db).2
    = (disable_lazarus_for_flow flow_id db).2
  ∧ ((enable_version_locking_for_flow flow_id;;
      enable_version_locking_for_flow flow_id) db).2
    = (enable_version_locking_for_flow flow_id db).2
  ∧ ((disable_version_locking_for_flow flow_id;;
      disable_version_locking_for_flow flow_id) db).2
    = (disable_version_locking_for_flow flow_id db).2.
Proof.
  assert (Hone : ∀ key value,
    ((_update_flow_setting flow_id key value;;
      _update_flow_setting flow_id key value) db).2
    = (_update_flow_setting flow_id key value db).2).
  { intros key value.
    destruct (update_flow_setting_cases flow_id key value db)
      as [[e Hrun]|(fid & flow & fg & -> & Hflow & Hfg & Hrun)].
    - by rewrite bind_run, Hrun.
    - rewrite (update_flow_setting_twice fid key key value value db flow fg
                 Hflow Hfg), Hrun.
      simpl. by rewrite insert_insert_eq. }
  assert (Htoggle : ∀ key value,
    (((_update_flow_setting flow_id key value;; mret true);;
      (_update_flow_setting flow_id key value;; mret true)) db).2
    = ((_update_flow_setting flow_id key value;; mret true) db).2).
  { intros key value. specialize (Hone key value).
    rewrite !bind_run in *.
    destruct (_update_flow_setting flow_id key value db) as [[g|e] db1];
      simpl in *; [|done].
    rewrite !bind_run.
    by destruct (_update_flow_setting flow_id key value db1) as [[g'|e] db2]. }
  split; [exact Hone|]. repeat split; apply Htoggle.
Qed.

(** A toggle is one update followed by [return True]. *)
Lemma toggle_state {A} (c : M A) (db : DB) :
  ((c;; mret true) db).2 = (c db).2.
Proof. rewrite bind_run. by destruct (c db) as [[a|e] db1]. Qed.

Lemma toggle_then_state {A B} (c1 : M A) (c2 : M B) (db : DB) :
  (((c1;; mret true);; (c2;; mret true)) db).2 = ((c1;; c2) db).2.
Proof.
  rewrite !bind_run. destruct (c1 db) as [[a|e] db1]; simpl; [|done].
  rewrite !bind_run. by destruct (c2 db1) as [[b|e] db2].
Qed.

(** The database two updates in a row leave. *)
Lemma update_flow_setting_then (flow_id : option string) (k1 k2 : string)
    (v1 v2 : json) (db : DB) :
  ((_update_flow_setting flow_id k1 v1;;
    _update_flow_setting flow_id k2 v2) db).2
  = match flow_id ≫= (λ fid, flows db !! fid) with
    | Some flow =>
      match flow_groups db !! Flow.flow_group_id flow with
      | Some fg =>
        set_flow_groups db
          (<[Flow.flow_group_id flow
             := FlowGroup.set_settings fg
                  (<[k2 := v2]> (<[k1 := v1]> (FlowGroup.settings fg)))]>
             (flow_groups db))
      | None => db
      end
    | None => db
    end.
Proof.
  destruct flow_id as [fid|]; [|done]. cbn [mbind option_bind].
  destruct (flows db !! fid) as [flow|] eqn:Hflow.
  2: { unfold _update_flow_setting. rewrite !bind_run. unfold get.
       by rewrite Hflow. }
  destruct (flow_groups db !! Flow.flow_group_id flow) as [fg|] eqn:Hfg.
  2: { unfold _update_flow_setting. rewrite !bind_run. unfold get.
       by rewrite Hflow, Hfg. }
  by apply update_flow_setting_twice.
Qed.

(** The database one update leaves. *)
Lemma update_flow_setting_state (flow_id : option string) (key : string)
    (value : json) (db : DB) :
  (_update_flow_setting flow_id key value db).2
  = match flow_id ≫= (λ fid, flows db !! fid) with
    | Some flow =>
      match flow_groups db !! Flow.flow_group_id flow with
      | Some fg =>
        set_flow_groups db
          (<[Flow.flow_group_id flow
             := FlowGroup.set_settings fg
                  (<[key := value]> (FlowGroup.settings fg))]>
             (flow_groups db))
      | None => db
      end
    | None => db
    end.
Proof.
  destruct flow_id as [fid|]; [|done]. cbn [mbind option_bind].
  destruct (flows db !! fid) as [flow|] eqn:Hflow.
  2: { unfold _update_flow_setting. rewrite !bind_run. unfold get.
       by rewrite Hflow. }
  destruct (flow_groups db !! Flow.flow_group_id flow) as [fg|] eqn:Hfg.
  2: { unfold _update_flow_setting. rewrite !bind_run. unfold get.
       by rewrite Hflow, Hfg. }
  by rewrite (update_flow_setting_run fid key value db flow fg Hflow Hfg).
Qed.

(** X3.  The last update of a key wins: updating a key twice leaves the
    database the second update alone would leave, so
    [enable_lazarus_for_flow] followed by [disable_lazarus_for_flow] leaves
    what [disable_lazarus_for_flow] leaves, and likewise the other way round
    and for version locking. *)
Theorem update_flow_setting_last_wins (flow_id : option string) (db : DB) :
  (∀ key v1 v2,
     ((_update_flow_setting flow_id key v1;;
       _update_flow_setting flow_id key v2) db).2
     = (_update_flow_setting flow_id key v2 db).2)
  ∧ ((enable_lazarus_for_flow flow_id;;
      disable_lazarus_for_flow flow_id) db).2
    = (disable_lazarus_for_flow flow_id db).2
  ∧ ((disable_lazarus_for_flow flow_id;;
      enable_lazarus_for_flow flow_id) db).2
    = (enable_lazarus_for_flow flow_id db).2
  ∧ ((enable_version_locking_for_flow flow_id;;
      disable_version_locking_for_flow flow_id) db).2
    = (disable_version_locking_for_flow flow_id db).2
  ∧ ((disable_version_locking_for_flow flow_id;;
      enable_version_locking_for_flow flow_id) db).2
    = (enable_version_locking_for_flow flow_id db).2.
Proof.
  assert (Hone : ∀ key v1 v2,
    ((_update_flow_setting flow_id key v1;;
      _update_flow_setting flow_id key v2) db).2
    = (_update_flow_setting flow_id key v2 db).2).
  { intros key v1 v2.
    rewrite update_flow_setting_then, update_flow_setting_state.
    destruct (flow_id ≫= _) as [flow|]; [|done].
    destruct (flow_groups db !! _) as [fg|]; [|done].
    by rewrite insert_insert_eq. }
  split; [exact Hone|].
  unfold enable_lazarus_for_flow, disable_lazarus_for_flow,
    enable_version_locking_for_flow, disable_version_locking_for_flow.
  repeat split; rewrite toggle_then_state, toggle_state; apply Hone.
Qed.

(** X4.  Updates of different keys commute: in either order they leave
    the same database.  So toggling lazarus and toggling version locking
    can be done in either order. *)
Theorem update_flow_setting_commute (flow_id : option string)
    (k1 k2 : string) (v1 v2 : json) (db : DB) :
  k1 ≠ k2 →
  ((_update_flow_setting flow_id k1 v1;;
    _update_flow_setting flow_id k2 v2) db).2
  = ((_update_flow_setting flow_id k2 v2;;
      _update_flow_setting flow_id k1 v1) db).2
  ∧ ((enable_lazarus_for_flow flow_id;;
      enable_version_locking_for_flow flow_id) db).2
    = ((enable_version_locking_for_flow flow_id;;
        enable_lazarus_for_flow flow_id) db).2.
Proof.
  intros Hne.
  assert (Hcomm : ∀ k1 k2 v1 v2, k1 ≠ k2 →
    ((_update_flow_setting flow_id k1 v1;;
      _update_flow_setting flow_id k2 v2) db).2
    = ((_update_flow_setting flow_id k2 v2;;
        _update_flow_setting flow_id k1 v1) db).2).
  { clear. intros k1 k2 v1 v2 Hne. rewrite !update_flow_setting_then.
    destruct (flow_id ≫= _) as [flow|]; [|done].
    destruct (flow_groups db !! _) as [fg|]; [|done].
    by rewrite (insert_insert_ne (FlowGroup.settings fg) k1 k2). }
  split; [by apply Hcomm|].
  unfold enable_lazarus_for_flow, enable_version_locking_for_flow.
  rewrite !toggle_then_state. by apply Hcomm.
Qed.

Lemma update_flow_setting_commute_witness :
  "lazarus_enabled" ≠ "heartbeat_enabled"
  ∧ ((_update_flow_setting (Some "f") "lazarus_enabled" (JBool false);;
      _update_flow_setting (Some "f") "heartbeat_enabled" (JBool false))
       Example.db).2
    = ((_update_flow_setting (Some "f") "heartbeat_enabled" (JBool false);;
        _update_flow_setting (Some "f") "lazarus_enabled" (JBool false))
         Example.db).2.
Proof.
  assert (Hne : "lazarus_enabled" ≠ "heartbeat_enabled") by discriminate.
  split; [exact Hne|].
  apply (update_flow_setting_commute (Some "f") "lazarus_enabled"
           "heartbeat_enabled" (JBool false) (JBool false) Example.db Hne).
Defined.

Lemma heartbeat_toggle_run (fid : string) (b1 b2 : bool) (db : DB)
    (flow : Flow.t) (fg : FlowGroup.t) :
  flows db !! fid = Some flow →
  flow_groups db !! Flow.flow_group_id flow = Some fg →
  (_update_flow_setting (Some fid) "disable_heartbeat" (JBool b1);;
   _update_flow_setting (Some fid) "heartbeat_enabled" (JBool b2);;
   mret true) db
  = (Ok true,
     set_flow_groups db
       (<[Flow.flow_group_id flow
          := FlowGroup.set_settings fg
               (<["heartbeat_enabled" := JBool b2]>
                  (<["disable_heartbeat" := JBool b1]>
                     (FlowGroup.settings fg)))]>
          (flow_groups db))).
Proof.
  intros Hflow Hfg. rewrite bind_run.
  rewrite (update_flow_setting_run fid _ _ db flow fg Hflow Hfg).
  rewrite bind_run.
  erewrite (update_flow_setting_run fid _ _ _ flow);
    [|done|simpl; apply lookup_insert_eq].
  simpl. unfold set_flow_groups. simpl. by rewrite insert_insert_eq.
Qed.

(** X5.  [enable_heartbeat_for_flow] and [disable_heartbeat_for_flow]
    write both of their keys or nothing.  For a flow id that is [None] or
    names no flow each raises [ValueError "Invalid flow ID"] and leaves the
    database as it was, and for a flow whose group is missing each raises
    and leaves the database as it was; for a stored flow whose group is
    stored each returns [True], and the database is the old one in which
    that group holds its old settings with ["disable_heartbeat"] and
    ["heartbeat_enabled"] set to opposite booleans. *)
Theorem heartbeat_toggles_write_both_keys (flow_id : option string)
    (db : DB) :
  (flow_id ≫= (λ fid, flows db !! fid) = None →
   enable_heartbeat_for_flow flow_id db
   = (Raise (ValueError "Invalid flow ID"), db)
   ∧ disable_heartbeat_for_flow flow_id db
     = (Raise (ValueError "Invalid flow ID"), db))
  ∧ (∀ fid flow,
       flow_id = Some fid →
       flows db !! fid = Some flow →
       flow_groups db !! Flow.flow_group_id flow = None →
       ∃ e e',
         enable_heartbeat_for_flow flow_id db = (Raise e, db)
         ∧ disable_heartbeat_for_flow flow_id db = (Raise e', db))
  ∧ (∀ fid flow fg,
       flow_id = Some fid →
       flows db !! fid = Some flow →
       flow_groups db !! Flow.flow_group_id flow = Some fg →
       enable_heartbeat_for_flow flow_id db
       = (Ok true,
          set_flow_groups db
            (<[Flow.flow_group_id flow
               := FlowGroup.set_settings fg
                    (<["heartbeat_enabled" := JBool true]>
                       (<["disable_heartbeat" := JBool false]>
                          (FlowGroup.settings fg)))]>
               (flow_groups db)))
       ∧ disable_heartbeat_for_flow flow_id db
         = (Ok true,
            set_flow_groups db
              (<[Flow.flow_group_id flow
                 := FlowGroup.set_settings fg
                      (<["heartbeat_enabled" := JBool false]>
                         (<["disable_heartbeat" := JBool true]>
                            (FlowGroup.settings fg)))]>
                 (flow_groups db)))).
Proof.
  unfold enable_heartbeat_for_flow, disable_heartbeat_for_flow.
  split; [|split].
  - intros Hnone. destruct flow_id as [fid|]; [|done]. simpl in Hnone.
    unfold _update_flow_setting. rewrite !bind_run. unfold get.
    by rewrite Hnone.
  - intros fid flow -> Hflow Hfg. eexists _, _.
    unfold _update_flow_setting. rewrite !bind_run. unfold get.
    by rewrite Hflow, Hfg.
  - intros fid flow fg -> Hflow Hfg.
    split; by apply heartbeat_toggle_run.
Qed.

Lemma heartbeat_toggles_write_both_keys_witness :
  disable_heartbeat_for_flow (Some "nobody") Example.db
  = (Raise (ValueError "Invalid flow ID"), Example.db)
  ∧ disable_heartbeat_for_flow (Some "f") Example.db
    = (Ok true,
       set_flow_groups Example.db
         {[ "g" := FlowGroup.set_settings Example.group
                     {[ "disable_heartbeat" := JBool true;
                        "heartbeat_enabled" := JBool false;
                        "lazarus_enabled" := JBool true;
                        "version_locking_enabled" := JBool false ]} ]}).
Proof.
  destruct (heartbeat_toggles_write_both_keys (Some "nobody") Example.db)
    as (Hunknown & _).
  destruct (heartbeat_toggles_write_both_keys (Some "f") Example.db)
    as (_ & _ & Hknown).
  split; [apply Hunknown; vm_compute; reflexivity|].
  destruct (Hknown "f"
              (Example.stored_flow
                 (Some (JList [JNum 50; JNum 100; JNum 200; JNum 300])))
              Example.group eq_refl)
    as [_ Hdisable]; [vm_compute; reflexivity | vm_compute; reflexivity|].
  rewrite Hdisable. vm_compute. reflexivity.
Defined.

(** ** The life cycle of a flow *)

Lemma set_flows_id (db : DB) : set_flows db (flows db) = db.
Proof. by destruct db. Qed.

Lemma set_archived_id (f : Flow.t) (b : bool) :
  Flow.archived f = b → Flow.set_archived f b = f.
Proof. destruct f. simpl. by intros ->. Qed.

Lemma set_is_schedule_active_id (f : Flow.t) (b : bool) :
  Flow.is_schedule_active f = b → Flow.set_is_schedule_active f b = f.
Proof. destruct f. simpl. by intros ->. Qed.

Lemma alter_same {A} (f : A → A) (i : string) (x : A) (m : gmap string A) :
  m !! i = Some x → f x = x → alter f i m = m.
Proof.
  intros Hi Hx. rewrite (alter_as_insert f i x m Hi), Hx.
  by apply insert_id.
Qed.

Section life_cycle_properties.
Context (Schedule : Type).
Context (schedule_schema_load : option json → option Schedule).
Context (schedule_next : Schedule → Z → Z → list Event.t).
Context (in_tz_UTC : Z → string).

Local Abbreviation schedule_flow_runs :=
  (schedule_flow_runs Schedule schedule_schema_load schedule_next in_tz_UTC).
Local Abbreviation set_schedule_active :=
  (set_schedule_active Schedule schedule_schema_load schedule_next in_tz_UTC).
Local Abbreviation unarchive_flow :=
  (unarchive_flow Schedule schedule_schema_load schedule_next in_tz_UTC).

Lemma schedule_flow_runs_unknown (now : Z) (fid : string)
    (max_runs : option Z) (db : DB) :
  flows db !! fid = None →
  schedule_flow_runs now (Some fid) max_runs db = (Ok [], db).
Proof.
  intros Hnone. unfold schedule_flow_runs. rewrite bind_run.
  unfold get, flow_query. by rewrite Hnone.
Qed.

(** X6.  For a flow id that names no flow, [archive_flow],
    [unarchive_flow], [set_schedule_active], [set_schedule_inactive] and
    [delete_flow] return [False], [schedule_flow_runs] returns no run id,
    and each leaves the database as it was.  For the id [None] each raises
    a [ValueError] and leaves the database as it was; the empty string is
    refused like [None] by [archive_flow], [unarchive_flow] and
    [delete_flow] (which test [not flow_id]) and handled as an unknown id
    by the others (which test [flow_id is None]). *)
Theorem unknown_flow_changes_nothing (now : Z) (max_runs : option Z)
    (db : DB) :
  (∀ fid, fid ≠ "" → flows db !! fid = None →
     archive_flow (Some fid) db = (Ok false, db)
     ∧ unarchive_flow now (Some fid) db = (Ok false, db)
     ∧ delete_flow (Some fid) db = (Ok false, db))
  ∧ (∀ fid, flows db !! fid = None →
       set_schedule_active now (Some fid) db = (Ok false, db)
       ∧ set_schedule_inactive (Some fid) db = (Ok false, db)
       ∧ schedule_flow_runs now (Some fid) max_runs db = (Ok [], db))
  ∧ (∀ flow_id, flow_id = None ∨ flow_id = Some "" →
       archive_flow flow_id db
       = (Raise (ValueError "Must provide flow ID."), db)
       ∧ unarchive_flow now flow_id db
         = (Raise (ValueError "Must provide flow ID."), db)
       ∧ delete_flow flow_id db
         = (Raise (ValueError "Must provide flow ID."), db))
  ∧ set_schedule_active now None db
    = (Raise (ValueError "Invalid flow id."), db)
  ∧ set_schedule_inactive None db
    = (Raise (ValueError "Invalid flow id."), db)
  ∧ schedule_flow_runs now None max_runs db
    = (Raise (ValueError "Invalid flow id."), db).
Proof.
  split; [|split; [|split]].
  - intros fid Hne Hnone.
    unfold archive_flow, unarchive_flow, delete_flow.
    rewrite (str_truthy_Some fid Hne). simpl.
    rewrite !bind_run. unfold get, update_by_id. rewrite Hnone. simpl.
    rewrite !bind_run. simpl.
    by rewrite (delete_id _ _ Hnone), set_flows_id.
  - intros fid Hnone. split; [|split].
    + unfold set_schedule_active. rewrite bind_run.
      unfold get, update_by_id. rewrite Hnone. simpl.
      by rewrite set_flows_id.
    + unfold set_schedule_inactive. rewrite bind_run.
      unfold get, update_by_id. rewrite Hnone. simpl.
      by rewrite set_flows_id.
    + by apply schedule_flow_runs_unknown.
  - by intros flow_id [->| ->].
  - done.
Qed.

(** A flow that does not pass the filter of the flow query is not
    scheduled. *)
Lemma schedule_flow_runs_not_schedulable (now : Z) (fid : string)
    (max_runs : option Z) (db : DB) (flow : Flow.t) :
  flows db !! fid = Some flow →
  schedulable db flow = false →
  schedule_flow_runs now (Some fid) max_runs db = (Ok [], db).
Proof.
  intros Hflow Hno. unfold schedule_flow_runs. rewrite bind_run.
  unfold get, flow_query. by rewrite Hflow, Hno.
Qed.

Lemma schedulable_archived (db : DB) (flow : Flow.t) :
  Flow.archived flow = true → schedulable db flow = false.
Proof. intros Harchived. unfold schedulable. by rewrite Harchived, andb_false_r. Qed.

Lemma schedulable_inactive (db : DB) (flow : Flow.t) :
  Flow.is_schedule_active flow = false → schedulable db flow = false.
Proof. intros Hactive. unfold schedulable. by rewrite Hactive, andb_false_r. Qed.

(** X7.  The gate of [schedule_flow_runs]: for a flow that is archived, or
    whose schedule is not active, or that has no schedule of its own while
    its group has none either, the pass returns no run id and leaves the
    database as it was. *)
Theorem schedule_flow_runs_gate (now : Z) (fid : string)
    (max_runs : option Z) (db : DB) (flow : Flow.t) :
  flows db !! fid = Some flow →
  Flow.archived flow = true
  ∨ Flow.is_schedule_active flow = false
  ∨ (Flow.schedule flow = None
     ∧ ∀ g, flow_groups db !! Flow.flow_group_id flow = Some g →
            FlowGroup.schedule g = None) →
  schedule_flow_runs now (Some fid) max_runs db = (Ok [], db).
Proof.
  intros Hflow Hgate.
  apply (schedule_flow_runs_not_schedulable now fid max_runs db flow Hflow).
  destruct Hgate as [Harchived| [Hinactive|[Hnone Hgroup]]].
  - by apply schedulable_archived.
  - by apply schedulable_inactive.
  - unfold schedulable. rewrite Hnone.
    destruct (flow_groups db !! Flow.flow_group_id flow) as [g|]; [|done].
    by rewrite (Hgroup g eq_refl).
Qed.

(** X8.  Archiving a flow prevents it from scheduling new runs, and so
    does deactivating its schedule: after a successful [archive_flow] or
    [set_schedule_inactive], [schedule_flow_runs] for the flow returns no
    run id and changes nothing. *)
Theorem no_runs_scheduled_once_archived_or_inactive (now : Z) (fid : string)
    (max_runs : option Z) (db : DB) (flow : Flow.t) :
  fid ≠ "" →
  flows db !! fid = Some flow →
  archive_flow (Some fid) db = (Ok true, (archive_flow (Some fid) db).2)
  ∧ schedule_flow_runs now (Some fid) max_runs (archive_flow (Some fid) db).2
    = (Ok [], (archive_flow (Some fid) db).2)
  ∧ set_schedule_inactive (Some fid) db
    = (Ok true, (set_schedule_inactive (Some fid) db).2)
  ∧ schedule_flow_runs now (Some fid) max_runs
      (set_schedule_inactive (Some fid) db).2
    = (Ok [], (set_schedule_inactive (Some fid) db).2).
Proof.
  intros Hne Hflow.
  rewrite (archive_flow_run db fid flow Hne Hflow).
  rewrite (set_schedule_inactive_run db fid flow Hflow). cbn [snd].
  split; [done|]. split; [|split; [done|]].
  - apply (schedule_flow_runs_not_schedulable now fid max_runs _
             (Flow.set_archived flow true)).
    + simpl. by rewrite lookup_alter_eq, Hflow.
    + by apply schedulable_archived.
  - apply (schedule_flow_runs_not_schedulable now fid max_runs _
             (Flow.set_is_schedule_active flow false)).
    + simpl. by rewrite lookup_alter_eq, Hflow.
    + by apply schedulable_inactive.
Qed.

(** X9.  A truthy schedule on the flow group overrides the flow's own:
    with such a group, [schedule_flow_runs] returns the same run ids and
    leaves the same flow runs whatever schedule the flow row itself
    carries. *)
Theorem flow_group_schedule_overrides (now : Z) (fid : string)
    (max_runs : option Z) (db : DB) (flow : Flow.t) (g : FlowGroup.t)
    (own : option json) :
  flows db !! fid = Some flow →
  flow_groups db !! Flow.flow_group_id flow = Some g →
  truthy_opt (FlowGroup.schedule g) = true →
  let db' := set_flows db (<[fid := Flow.set_schedule flow own]> (flows db)) in
  (schedule_flow_runs now (Some fid) max_runs db').1
  = (schedule_flow_runs now (Some fid) max_runs db).1
  ∧ flow_runs (schedule_flow_runs now (Some fid) max_runs db').2
    = flow_runs (schedule_flow_runs now (Some fid) max_runs db).2.
Proof.
  intros Hflow Hg Htruthy db'.
  assert (Hsome : is_Some (FlowGroup.schedule g)).
  { destruct (FlowGroup.schedule g); [by eexists | done]. }
  unfold schedule_flow_runs. rewrite !bind_run. unfold get, flow_query.
  subst db'. simpl. rewrite lookup_insert_eq, Hflow.
  assert (Hsame : schedulable
                    (set_flows db
                       (<[fid := Flow.set_schedule flow own]> (flows db)))
                    (Flow.set_schedule flow own)
                  = schedulable db flow).
  { unfold schedulable. simpl. rewrite Hg.
    rewrite (bool_decide_eq_true_2 _ Hsome). by rewrite !orb_true_r. }
  rewrite Hsame. destruct (schedulable db flow); [|done].
  simpl. rewrite Hg.
  assert (Heff : effective_schedule g (Flow.set_schedule flow own)
                 = effective_schedule g flow).
  { unfold effective_schedule. by rewrite Htruthy. }
  rewrite Heff.
  destruct (schedule_schema_load (effective_schedule g flow)) as [sched|];
    [|done].
  rewrite !bind_run.
  set (db' := set_flows db _).
  change (last_scheduled_run db' fid now)
    with (last_scheduled_run db fid now).
  destruct (schedule_events_congr in_tz_UTC fid (last_scheduled_run db fid now)
              (schedule_next sched now (default 10 max_runs)) [] db db'
              eq_refl) as [Hres Hruns].
  destruct (schedule_events_spec in_tz_UTC fid
              (last_scheduled_run db fid now)
              (schedule_next sched now (default 10 max_runs)) [] db)
    as (ids & db1 & Hloop & _).
  rewrite Hloop in Hres, Hruns |- *.
  destruct (schedule_events in_tz_UTC fid _ _ [] db') as [res' db1'].
  simpl in Hres, Hruns. subst res'. simpl. by rewrite Hruns.
Qed.

(** A run the scheduling pass adds is a Scheduled run of the flow, marked
    [auto_scheduled]. *)
Lemma schedule_flow_runs_added_run (now : Z) (flow_id : option string)
    (max_runs : option Z) (db : DB) (rid : string) (r : FlowRun.t) :
  flow_runs (schedule_flow_runs now flow_id max_runs db).2 !! rid = Some r →
  flow_runs db !! rid = None →
  flow_id = Some (FlowRun.flow_id r)
  ∧ FlowRun.state r = "Scheduled"
  ∧ FlowRun.auto_scheduled r = true.
Proof.
  destruct (schedule_flow_runs_cases Schedule schedule_schema_load
              schedule_next in_tz_UTC now flow_id max_runs db)
    as [(res & -> & Hres)
       |(fid & flow & g & sched & ids & db1 & -> & _ & _ & _ & Hloop & ->)];
    cbn [fst snd]; [congruence|].
  intros Hr Hnone.
  destruct (pass_new_run _ _ _ _ _ _ _ Hloop rid r Hr Hnone)
    as (_ & <- & _ & Hauto & Hstate & _). done.
Qed.

(** X10.  What [schedule_flow_runs] leaves alone: it writes the flow runs
    only; it removes no run; a run that was there is unchanged, or is a run
    of the flow whose [auto_scheduled] flag was set; a run it adds is a
    Scheduled run of the flow marked [auto_scheduled]; and every id it
    returns names a stored run of the flow marked [auto_scheduled]. *)
Theorem schedule_flow_runs_frame (now : Z) (flow_id : option string)
    (max_runs : option Z) (db : DB) :
  let res := schedule_flow_runs now flow_id max_runs db in
  same_but_runs db res.2
  ∧ (∀ rid r, flow_runs db !! rid = Some r →
       flow_runs res.2 !! rid = Some r
       ∨ (flow_id = Some (FlowRun.flow_id r)
          ∧ flow_runs res.2 !! rid
            = Some (FlowRun.set_auto_scheduled r true)))
  ∧ (∀ rid r, flow_runs res.2 !! rid = Some r →
       flow_runs db !! rid = None →
       flow_id = Some (FlowRun.flow_id r)
       ∧ FlowRun.state r = "Scheduled"
       ∧ FlowRun.auto_scheduled r = true)
  ∧ (∀ ids rid, res.1 = Ok ids → rid ∈ ids →
       ∃ r, flow_runs res.2 !! rid = Some r
            ∧ flow_id = Some (FlowRun.flow_id r)
            ∧ FlowRun.auto_scheduled r = true).
Proof.
  intros res. subst res.
  destruct (schedule_flow_runs_cases Schedule schedule_schema_load
              schedule_next in_tz_UTC now flow_id max_runs db)
    as [(res & -> & Hres)
       |(fid & flow & g & sched & ids & db1 & -> & _ & _ & _ & Hloop & ->)];
    cbn [fst snd].
  - split; [done|]. split; [by left|]. split; [congruence|].
    intros ids rid ->. destruct Hres as [[= ->]|[e ?]]; [|done].
    intros Hin. by apply elem_of_nil in Hin.
  - destruct (pass_spec _ _ _ _ _ _ _ Hloop)
      as (Hsame & Hkept & _ & Hids & _).
    split.
    { eapply same_but_runs_trans; [done|]. apply same_but_runs_set_flow_runs. }
    split.
    { intros rid r Hr.
      pose proof (pass_old_run _ _ _ _ _ _ _ Hloop rid r Hr) as Hold.
      simpl. rewrite Hold. destruct (decide (rid ∈ ids)) as [Hin|Hin].
      - right. rewrite bool_decide_eq_true_2 by done. split; [|done].
        destruct (Hids rid Hin) as (r' & e & Hr' & Hfid & _).
        apply Hkept in Hr. congruence.
      - left. by rewrite bool_decide_eq_false_2. }
    split.
    { intros rid r Hr Hnone.
      destruct (pass_new_run _ _ _ _ _ _ _ Hloop rid r Hr Hnone)
        as (_ & <- & _ & Hauto & Hstate & _). done. }
    intros ids' rid [= <-] Hin.
    destruct (Hids rid Hin) as (r' & e & Hr' & Hfid & _).
    exists (FlowRun.set_auto_scheduled r' true). simpl.
    rewrite mark_auto_scheduled_lookup, Hr'. simpl.
    rewrite bool_decide_eq_true_2 by done. by rewrite Hfid.
Qed.

Lemma set_schedule_active_state (now : Z) (fid : string) (db : DB)
    (flow : Flow.t) :
  flows db !! fid = Some flow →
  (set_schedule_active now (Some fid) db).2
  = (schedule_flow_runs now (Some fid) None
       (set_flows db
          (alter (λ f, Flow.set_is_schedule_active f true) fid (flows db)))).2.
Proof.
  intros Hflow. unfold set_schedule_active. rewrite bind_run.
  unfold get, update_by_id. rewrite Hflow. rewrite bind_run.
  cbv beta iota delta [put]. cbn [Nat.eqb]. rewrite bind_run.
  set (db0 := set_flows db _).
  by destruct (schedule_flow_runs now (Some fid) None db0) as [[ids|e] db1].
Qed.

(** X11.  Activating a schedule and then deactivating it adds no flow
    run: every run left by [set_schedule_active] followed by
    [set_schedule_inactive] was in the database before, and the flow ends
    with its schedule inactive. *)
Theorem activation_then_deactivation_adds_no_run (now : Z) (fid : string)
    (db : DB) (flow : Flow.t) :
  flows db !! fid = Some flow →
  let db1 := (set_schedule_active now (Some fid) db).2 in
  let db2 := (set_schedule_inactive (Some fid) db1).2 in
  (∀ rid, is_Some (flow_runs db2 !! rid) → is_Some (flow_runs db !! rid))
  ∧ ∃ flow', flows db2 !! fid = Some flow'
             ∧ Flow.is_schedule_active flow' = false.
Proof.
  intros Hflow db1 db2. subst db1 db2.
  rewrite (set_schedule_active_state now fid db flow Hflow).
  set (db0 := set_flows db _).
  destruct (schedule_flow_runs_same_but_runs Schedule schedule_schema_load
              schedule_next in_tz_UTC now (Some fid) None db0)
    as (_ & _ & Hflows).
  pose proof (schedule_flow_runs_added_run now (Some fid) None db0) as Hnew.
  set (db1 := (schedule_flow_runs now (Some fid) None db0).2) in *.
  assert (Hflow1 : flows db1 !! fid
                   = Some (Flow.set_is_schedule_active flow true)).
  { rewrite Hflows. subst db0. simpl. by rewrite lookup_alter_eq, Hflow. }
  rewrite (set_schedule_inactive_run db1 fid _ Hflow1). cbn [snd].
  split.
  - intros rid [r Hr]. simpl in Hr.
    apply lookup_delete_where in Hr as [Hr Hkeep].
    destruct (flow_runs db !! rid) as [r0|] eqn:Hr0; [by eexists|].
    destruct (Hnew rid r Hr Hr0) as ([= Hfid] & Hstate & Hauto).
    by destruct Hkeep.
  - eexists. simpl. rewrite lookup_alter_eq, Hflow1. done.
Qed.

(** The database [unarchive_flow] leaves for a stored flow. *)
Lemma unarchive_flow_run (now : Z) (fid : string) (db : DB)
    (flow : Flow.t) :
  fid ≠ "" →
  flows db !! fid = Some flow →
  let db1 :=
    set_flows db (<[fid := Flow.set_archived flow false]> (flows db)) in
  unarchive_flow now (Some fid) db
  = if Flow.is_schedule_active flow
    then match set_schedule_active now (Some fid) db1 with
         | (Ok _, db2) => (Ok true, db2)
         | (Raise e, db2) => (Raise e, db2)
         end
    else (Ok true, db1).
Proof.
  intros Hne Hflow db1. subst db1.
  unfold unarchive_flow. rewrite (str_truthy_Some fid Hne).
  cbn [default from_option id]. rewrite bind_run. unfold get, update_by_id.
  rewrite Hflow. rewrite bind_run. cbv beta iota delta [put].
  cbn [Nat.eqb negb andb]. rewrite lookup_alter_eq, Hflow.
  cbn [fmap option_fmap option_map Flow.is_schedule_active
       Flow.set_archived].
  rewrite (alter_as_insert _ _ flow _ Hflow).
  cbn [Flow.set_archived].
  destruct (Flow.is_schedule_active flow).
  - rewrite !bind_run.
    by destruct (set_schedule_active now (Some fid) _) as [[b|e] db2].
  - done.
Qed.

(** X12.  Archiving and then unarchiving a flow that was not archived
    restores its row: the projects, the flow groups and the flows are what
    they were.  (The Scheduled runs [archive_flow] deleted are not restored
    as such; an active schedule is jogged instead.) *)
Theorem archive_then_unarchive_restores_flow (now : Z) (fid : string)
    (db : DB) (flow : Flow.t) :
  fid ≠ "" →
  flows db !! fid = Some flow →
  Flow.archived flow = false →
  same_but_runs db
    (unarchive_flow now (Some fid) (archive_flow (Some fid) db).2).2.
Proof.
  intros Hne Hflow Harchived.
  rewrite (archive_flow_run db fid flow Hne Hflow). cbn [snd].
  set (db1 := set_flow_runs _ _).
  assert (Hflow1 : flows db1 !! fid = Some (Flow.set_archived flow true)).
  { subst db1. cbn [flows set_flow_runs set_flows].
    by rewrite lookup_alter_eq, Hflow. }
  assert (Hback : <[fid := Flow.set_archived
                             (Flow.set_archived flow true) false]>
                    (flows db1)
                  = flows db).
  { subst db1. cbn [flows set_flow_runs set_flows].
    rewrite insert_alter_eq.
    replace (Flow.set_archived (Flow.set_archived flow true) false)
      with flow by (destruct flow; simpl in *; by subst).
    by apply insert_id. }
  rewrite (unarchive_flow_run now fid db1 _ Hne Hflow1).
  cbn [Flow.is_schedule_active Flow.set_archived]. rewrite Hback.
  set (db2 := set_flows db1 (flows db)).
  assert (Hsame2 : same_but_runs db db2) by done.
  destruct (Flow.is_schedule_active flow) eqn:Hactive; [|done].
  assert (Hflow2 : flows db2 !! fid = Some flow) by done.
  pose proof (set_schedule_active_state now fid db2 flow Hflow2) as Hstate.
  rewrite (alter_same _ _ flow) in Hstate;
    [|done|by apply set_is_schedule_active_id].
  pose proof (schedule_flow_runs_same_but_runs Schedule schedule_schema_load
                schedule_next in_tz_UTC now (Some fid) None
                (set_flows db2 (flows db2))) as Hsame.
  rewrite <-Hstate in Hsame. rewrite set_flows_id in Hsame.
  destruct (set_schedule_active now (Some fid) db2) as [[b|e] db3];
    cbn [snd] in *; by eapply same_but_runs_trans.
Qed.

(** X13.  [unarchive_flow] on a flow whose schedule is inactive returns
    [True], clears the [archived] flag and leaves everything else,
    the flow runs included, as it was: nothing is scheduled. *)
Theorem unarchive_inactive_schedules_nothing (now : Z) (fid : string)
    (db : DB) (flow : Flow.t) :
  fid ≠ "" →
  flows db !! fid = Some flow →
  Flow.is_schedule_active flow = false →
  unarchive_flow now (Some fid) db
  = (Ok true,
     set_flows db (<[fid := Flow.set_archived flow false]> (flows db))).
Proof.
  intros Hne Hflow Hinactive.
  rewrite (unarchive_flow_run now fid db flow Hne Hflow).
  by rewrite Hinactive.
Qed.

(** X14.  [delete_flow] returns [True] exactly when the flow was stored;
    afterwards the id names no flow, every other Flow row is as it was,
    and a second [delete_flow] returns [False] and changes nothing. *)
Theorem delete_flow_removes_once (fid : string) (db : DB) :
  fid ≠ "" →
  let res := delete_flow (Some fid) db in
  res.1 = Ok (bool_decide (is_Some (flows db !! fid)))
  ∧ flows res.2 !! fid = None
  ∧ (∀ other, other ≠ fid → flows res.2 !! other = flows db !! other)
  ∧ projects res.2 = projects db
  ∧ flow_groups res.2 = flow_groups db
  ∧ delete_flow (Some fid) res.2 = (Ok false, res.2).
Proof.
  intros Hne res. subst res.
  assert (Hrun : ∀ db,
    delete_flow (Some fid) db
    = (Ok (bool_decide (is_Some (flows db !! fid))),
       set_flows db (delete fid (flows db)))).
  { intros db0. unfold delete_flow. rewrite (str_truthy_Some fid Hne).
    simpl. rewrite bind_run. unfold get.
    by destruct (flows db0 !! fid) as [f|]. }
  rewrite !Hrun. cbn [fst snd]. simpl.
  split; [done|]. split; [apply lookup_delete_eq|].
  split; [intros other Hother; by apply lookup_delete_ne|].
  split; [done|]. split; [done|].
  rewrite lookup_delete_eq.
  rewrite bool_decide_eq_false_2 by by intros [? ?].
  unfold set_flows. simpl. f_equal. f_equal.
  apply delete_id, lookup_delete_eq.
Qed.

End life_cycle_properties.

Lemma unknown_flow_changes_nothing_witness :
  flows Example.db !! "nobody" = None
  ∧ archive_flow (Some "nobody") Example.db = (Ok false, Example.db)
  ∧ set_schedule_inactive (Some "") Example.db = (Ok false, Example.db)
  ∧ archive_flow (Some "") Example.db
    = (Raise (ValueError "Must provide flow ID."), Example.db).
Proof.
  assert (Hnone : flows Example.db !! "nobody" = None)
    by (vm_compute; reflexivity).
  destruct (unknown_flow_changes_nothing Example.Schedule
              Example.schedule_schema_load Example.schedule_next
              Example.in_tz_UTC 0 None Example.db)
    as (Hnot & His & Hmissing & _).
  split; [exact Hnone|].
  split; [apply (Hnot "nobody"); [discriminate | exact Hnone]|].
  split; [apply (His ""); vm_compute; reflexivity|].
  apply (Hmissing (Some "")). right. reflexivity.
Defined.

Lemma schedule_flow_runs_gate_witness :
  Example.schedule_flow_runs 60 (Some "f") None Example.db_inactive
  = (Ok [], Example.db_inactive).
Proof.
  apply (schedule_flow_runs_gate Example.Schedule
           Example.schedule_schema_load Example.schedule_next
           Example.in_tz_UTC 60 "f" None Example.db_inactive
           (Flow.set_is_schedule_active
              (Example.stored_flow (Some (JList [JNum 50; JNum 100])))
              false)).
  - vm_compute. reflexivity.
  - right. left. reflexivity.
Defined.

Lemma no_runs_scheduled_once_archived_or_inactive_witness :
  (Example.schedule_flow_runs 60 (Some "f") None Example.db).1
  = Ok ["0"; "1"]
  ∧ Example.schedule_flow_runs 60 (Some "f") None
      (archive_flow (Some "f") Example.db).2
    = (Ok [], (archive_flow (Some "f") Example.db).2).
Proof.
  split; [vm_compute; reflexivity|].
  destruct (no_runs_scheduled_once_archived_or_inactive Example.Schedule
              Example.schedule_schema_load Example.schedule_next
              Example.in_tz_UTC 60 "f" None Example.db
              (Example.stored_flow
                 (Some (JList [JNum 50; JNum 100; JNum 200; JNum 300]))))
    as (_ & Harchived & _); [discriminate | vm_compute; reflexivity|].
  exact Harchived.
Defined.

Lemma flow_group_schedule_overrides_witness :
  (Example.schedule_flow_runs 60 (Some "f") None
     (set_flows Example.db_group_schedule
        (<["f" := Flow.set_schedule
                    (Example.stored_flow
                       (Some (JList [JNum 50; JNum 100; JNum 200;
                                     JNum 300])))
                    None]> (flows Example.db_group_schedule)))).1
  = (Example.schedule_flow_runs 60 (Some "f") None
       Example.db_group_schedule).1.
Proof.
  apply (flow_group_schedule_overrides Example.Schedule
           Example.schedule_schema_load Example.schedule_next
           Example.in_tz_UTC 60 "f" None Example.db_group_schedule
           (Example.stored_flow
              (Some (JList [JNum 50; JNum 100; JNum 200; JNum 300])))
           Example.group_with_schedule None).
  - vm_compute. reflexivity.
  - vm_compute. reflexivity.
  - reflexivity.
Defined.

Lemma activation_then_deactivation_adds_no_run_witness :
  is_Some (flow_runs (Example.set_schedule_active 60 (Some "f") Example.db).2
             !! "0")
  ∧ ∀ rid,
      is_Some (flow_runs
                 (set_schedule_inactive (Some "f")
                    (Example.set_schedule_active 60 (Some "f")
                       Example.db).2).2 !! rid) →
      is_Some (flow_runs Example.db !! rid).
Proof.
  split; [vm_compute; by eexists|].
  apply (activation_then_deactivation_adds_no_run Example.Schedule
           Example.schedule_schema_load Example.schedule_next
           Example.in_tz_UTC 60 "f" Example.db
           (Example.stored_flow
              (Some (JList [JNum 50; JNum 100; JNum 200; JNum 300])))).
  vm_compute. reflexivity.
Defined.

Lemma archive_then_unarchive_restores_flow_witness :
  flows (Example.unarchive_flow 60 (Some "f")
           (archive_flow (Some "f") Example.db).2).2
  = flows Example.db.
Proof.
  apply (archive_then_unarchive_restores_flow Example.Schedule
           Example.schedule_schema_load Example.schedule_next
           Example.in_tz_UTC 60 "f" Example.db
           (Example.stored_flow
              (Some (JList [JNum 50; JNum 100; JNum 200; JNum 300])))).
  - discriminate.
  - vm_compute. reflexivity.
  - reflexivity.
Defined.

Lemma unarchive_inactive_schedules_nothing_witness :
  (Example.unarchive_flow 60 (Some "f") Example.db_inactive).1 = Ok true
  ∧ flow_runs (Example.unarchive_flow 60 (Some "f") Example.db_inactive).2
    = flow_runs Example.db_inactive.
Proof.
  unfold Example.unarchive_flow.
  rewrite (unarchive_inactive_schedules_nothing Example.Schedule
             Example.schedule_schema_load Example.schedule_next
             Example.in_tz_UTC 60 "f" Example.db_inactive
             (Flow.set_is_schedule_active
                (Example.stored_flow (Some (JList [JNum 50; JNum 100])))
                false));
    [split; reflexivity | discriminate | vm_compute; reflexivity
    | reflexivity].
Defined.

Lemma delete_flow_removes_once_witness :
  (delete_flow (Some "f") Example.db).1 = Ok true
  ∧ delete_flow (Some "f") (delete_flow (Some "f") Example.db).2
    = (Ok false, (delete_flow (Some "f") Example.db).2).
Proof.
  destruct (delete_flow_removes_once "f" Example.db)
    as (Hres & _ & _ & _ & _ & Hagain); [discriminate|].
  split; [rewrite Hres; vm_compute; reflexivity | exact Hagain].
Defined.

(** ** Moving a flow to another project *)

(** X15.  [update_flow_project] moves a flow only to a project of the
    flow's own tenant: given a stored flow and a stored project of the same
    tenant it returns the flow id and rewrites the flow's [project_id] and
    nothing else; if the flow is unknown, the project is unknown, or the
    project belongs to another tenant, it raises
    [ValueError "Invalid flow or project ID."] and leaves the database as
    it was. *)
Theorem update_flow_project_stays_in_tenant (fid pid : string) (db : DB) :
  (∀ flow p,
     flows db !! fid = Some flow →
     projects db !! pid = Some p →
     Project.tenant_id p = Flow.tenant_id flow →
     update_flow_project (Some fid) (Some pid) db
     = (Ok fid,
        set_flows db (<[fid := Flow.set_project_id flow pid]> (flows db))))
  ∧ (flows db !! fid = None
     ∨ projects db !! pid = None
     ∨ (∃ flow p, flows db !! fid = Some flow
                  ∧ projects db !! pid = Some p
                  ∧ Project.tenant_id p ≠ Flow.tenant_id flow) →
     update_flow_project (Some fid) (Some pid) db
     = (Raise (ValueError "Invalid flow or project ID."), db)).
Proof.
  split.
  - intros flow p Hflow Hp Htenant. unfold update_flow_project.
    rewrite bind_run. unfold get. rewrite Hflow.
    unfold in_tenant_of_project. rewrite Hp.
    rewrite bool_decide_eq_true_2 by done. simpl.
    by rewrite (alter_as_insert _ _ flow).
  - intros Hbad. unfold update_flow_project. rewrite bind_run. unfold get.
    destruct (flows db !! fid) as [flow|] eqn:Hflow.
    + assert (Hout : in_tenant_of_project db pid flow = false).
      { unfold in_tenant_of_project.
        destruct (projects db !! pid) as [p|] eqn:Hp; [|done].
        apply bool_decide_eq_false_2.
        destruct Hbad as [?|[?|(flow' & p' & ? & ? & Hne)]]; [done|done|].
        by simplify_eq. }
      rewrite Hout. simpl. by rewrite set_flows_id.
    + simpl. by rewrite set_flows_id.
Qed.

Lemma update_flow_project_stays_in_tenant_witness :
  (update_flow_project (Some "f") (Some "project2") Example.db_two_tenants).1
  = Ok "f"
  ∧ update_flow_project (Some "f") (Some "elsewhere") Example.db_two_tenants
    = (Raise (ValueError "Invalid flow or project ID."),
       Example.db_two_tenants).
Proof.
  destruct (update_flow_project_stays_in_tenant "f" "project2"
              Example.db_two_tenants) as [Hmove _].
  destruct (update_flow_project_stays_in_tenant "f" "elsewhere"
              Example.db_two_tenants) as [_ Hrefuse].
  split.
  - rewrite (Hmove (Example.stored_flow
                      (Some (JList [JNum 50; JNum 100; JNum 200; JNum 300])))
               {| Project.tenant_id := "tenant" |});
      [reflexivity | vm_compute; reflexivity | vm_compute; reflexivity
      | reflexivity].
  - apply Hrefuse. right. right.
    exists (Example.stored_flow
              (Some (JList [JNum 50; JNum 100; JNum 200; JNum 300]))),
      {| Project.tenant_id := "other" |}.
    split; [vm_compute; reflexivity|].
    split; [vm_compute; reflexivity | discriminate].
Defined.

(** ** Registering a flow: edges, failures, invariants *)

Lemma task_lookup_last (flow : FlowSchema.t) (slug : string) :
  task_lookup flow !! slug
  = last (filter (λ t, TaskSchema.slug t = slug) (FlowSchema.tasks flow)).
Proof.
  unfold task_lookup.
  induction (FlowSchema.tasks flow) as [|t tasks IH] using rev_ind; [done|].
  rewrite foldl_app, filter_app. simpl.
  destruct (decide (TaskSchema.slug t = slug)) as [Heq|Hne].
  - rewrite filter_cons_True, filter_nil by done.
    rewrite last_snoc. rewrite <-Heq. apply lookup_insert_eq.
  - rewrite filter_cons_False, filter_nil, app_nil_r by done.
    by rewrite lookup_insert_ne.
Qed.

Lemma task_lookup_is_Some (flow : FlowSchema.t) (slug : string) :
  is_Some (task_lookup flow !! slug)
  ↔ ∃ t, t ∈ FlowSchema.tasks flow ∧ TaskSchema.slug t = slug.
Proof.
  rewrite task_lookup_last. split.
  - intros [t Ht]. exists t. apply last_Some in Ht as [l Hl].
    assert (Hin : t ∈ filter (λ t, TaskSchema.slug t = slug)
                        (FlowSchema.tasks flow))
      by (rewrite Hl; apply elem_of_app; right; apply list_elem_of_here).
    by apply list_elem_of_filter in Hin as [? ?].
  - intros (t & Ht & Hslug).
    assert (Hin : t ∈ filter (λ t, TaskSchema.slug t = slug)
                        (FlowSchema.tasks flow))
      by by apply list_elem_of_filter.
    apply last_is_Some. intros Hnil. rewrite Hnil in Hin.
    by apply elem_of_nil in Hin.
Qed.

(** The edge rows are built exactly when every edge's two slugs are in the
    lookup; otherwise the [KeyError] names a slug of an edge that is not. *)
Lemma edge_rows_outcome (tenant_id : string)
    (lookup : gmap string TaskSchema.t) (edges : list EdgeSchema.t) :
  match edge_rows tenant_id lookup edges with
  | Ok rows =>
    length rows = length edges
    ∧ ∀ e, e ∈ edges →
        is_Some (lookup !! EdgeSchema.upstream_task e)
        ∧ is_Some (lookup !! EdgeSchema.downstream_task e)
  | Raise ex =>
    ∃ e slug, e ∈ edges
              ∧ ex = KeyError slug
              ∧ lookup !! slug = None
              ∧ (slug = EdgeSchema.upstream_task e
                 ∨ slug = EdgeSchema.downstream_task e)
  end.
Proof.
  induction edges as [|e edges IH]; simpl.
  { split; [done|]. intros e He. by apply elem_of_nil in He. }
  destruct (lookup !! EdgeSchema.upstream_task e) as [up|] eqn:Hup.
  2: { exists e, (EdgeSchema.upstream_task e).
       split; [apply list_elem_of_here|]. eauto. }
  destruct (lookup !! EdgeSchema.downstream_task e) as [down|] eqn:Hdown.
  2: { exists e, (EdgeSchema.downstream_task e).
       split; [apply list_elem_of_here|]. eauto. }
  destruct (edge_rows tenant_id lookup edges) as [rows|ex].
  - destruct IH as [Hlen Hall]. split; [simpl; by rewrite Hlen|].
    intros e' [->|He']%elem_of_cons; [|by apply Hall].
    rewrite Hup, Hdown. split; by eexists.
  - destruct IH as (e' & slug & He' & Hrest).
    exists e', slug. split; [by apply list_elem_of_further | done].
Qed.

(** Each stored edge carries the ids of the tasks its slugs resolve to, and
    the edge's own key and flag. *)
Lemma edge_rows_lookup (tenant_id : string)
    (lookup : gmap string TaskSchema.t) (edges : list EdgeSchema.t)
    (rows : list Edge.t) (i : nat) (e : EdgeSchema.t) :
  edge_rows tenant_id lookup edges = Ok rows →
  edges !! i = Some e →
  ∃ up down,
    lookup !! EdgeSchema.upstream_task e = Some up
    ∧ lookup !! EdgeSchema.downstream_task e = Some down
    ∧ rows !! i
      = Some {| Edge.tenant_id := tenant_id;
                Edge.upstream_task_id := TaskSchema.id up;
                Edge.downstream_task_id := TaskSchema.id down;
                Edge.key := EdgeSchema.key e;
                Edge.mapped := EdgeSchema.mapped e |}.
Proof.
  revert rows i. induction edges as [|e0 edges IH]; intros rows i Hrows Hi;
    [done|].
  simpl in Hrows.
  destruct (lookup !! EdgeSchema.upstream_task e0) as [up|] eqn:Hup; [|done].
  destruct (lookup !! EdgeSchema.downstream_task e0) as [down|] eqn:Hdown;
    [|done].
  destruct (edge_rows tenant_id lookup edges) as [rows'|ex]; [|done].
  injection Hrows as <-. destruct i as [|i]; simpl in *.
  - injection Hi as <-. by exists up, down.
  - by apply IH.
Qed.

Section registration_properties.
Context (Schedule : Type).
Context (schedule_schema_load : option json → option Schedule).
Context (schedule_next : Schedule → Z → Z → list Event.t).
Context (in_tz_UTC : Z → string).
Context (core_version_lt_cutoff : json → result bool).
Context (core_version_cutoff : string).
Context (format_non_str : json → string).

Local Abbreviation schedule_flow_runs :=
  (schedule_flow_runs Schedule schedule_schema_load schedule_next in_tz_UTC).
Local Abbreviation check_core_version :=
  (check_core_version core_version_lt_cutoff core_version_cutoff
     format_non_str).
Local Abbreviation core_version_accepted :=
  (core_version_accepted core_version_lt_cutoff).
Local Abbreviation create_flow_here :=
  (create_flow Schedule schedule_schema_load schedule_next in_tz_UTC
     core_version_lt_cutoff core_version_cutoff format_non_str).

Lemma check_core_version_accepted (env : gmap string json) (db : DB) :
  check_core_version (env !! "__version__") db = (Ok tt, db)
  ↔ core_version_accepted env.
Proof.
  unfold check_core_version, core_version_accepted.
  destruct (env !! "__version__") as [v|]; [|done].
  destruct (truthy v); [|by split; [left|]].
  destruct (core_version_lt_cutoff v) as [[|]|e]; split;
    try done; try (by right); by intros [|].
Qed.

(** With the flow's group stored, a pass returns. *)
Lemma schedule_flow_runs_returns (now : Z) (fid : string)
    (max_runs : option Z) (db : DB) :
  (∀ flow, flows db !! fid = Some flow →
           is_Some (flow_groups db !! Flow.flow_group_id flow)) →
  ∃ ids, (schedule_flow_runs now (Some fid) max_runs db).1 = Ok ids.
Proof.
  intros Hgroup.
  destruct (schedule_flow_runs_cases Schedule schedule_schema_load
              schedule_next in_tz_UTC now (Some fid) max_runs db)
    as [(res & Hrun & [->|[e ->]])|(fid' & flow & g & sched & ids & db1 & _ & _ & _ & _ & _ & ->)];
    [rewrite Hrun; by eexists | | by eexists].
  exfalso. revert Hrun. unfold schedule_flow_runs. rewrite bind_run.
  unfold get, flow_query.
  destruct (flows db !! fid) as [flow|] eqn:Hflow; [|done].
  destruct (schedulable db flow); [|done].
  destruct (Hgroup flow eq_refl) as [g ->].
  destruct (schedule_schema_load _) as [sched|]; [|done].
  rewrite bind_run.
  destruct (schedule_events_spec in_tz_UTC fid (last_scheduled_run db fid now)
              (schedule_next sched now (default 10 max_runs)) [] db)
    as (ids & db1 & -> & _).
  done.
Qed.

(** What setting up the flow group leaves. *)
Lemma get_or_create_flow_group_cases (tenant_id name : string) (db db1 : DB)
    (gid : string) :
  get_or_create_flow_group tenant_id name db = (Ok gid, db1) →
  projects db1 = projects db
  ∧ flows db1 = flows db
  ∧ flow_runs db1 = flow_runs db
  ∧ (∃ g, flow_groups db1 !! gid = Some g
          ∧ FlowGroup.tenant_id g = tenant_id
          ∧ FlowGroup.name g = name)
  ∧ (db1 = db
     ∨ (flow_groups db !! gid = None
        ∧ (∀ k g, flow_groups db !! k = Some g →
                  ¬ (FlowGroup.tenant_id g = tenant_id
                     ∧ FlowGroup.name g = name))
        ∧ flow_groups db1
          = <[gid := default_flow_group tenant_id name]> (flow_groups db))).
Proof.
  intros Hrun.
  destruct (find_flow_group db tenant_id name) as [[gid0 g0]|] eqn:Hfind.
  - rewrite (get_or_create_flow_group_found _ _ _ _ _ Hfind) in Hrun.
    injection Hrun as <- <-.
    apply first_where_Some in Hfind as (Hg & Ht & Hn).
    repeat split; try done; [by exists g0 | by left].
  - rewrite (get_or_create_flow_group_new _ _ _ Hfind) in Hrun.
    injection Hrun as <- <-. simpl.
    repeat split; try done.
    + eexists. by rewrite lookup_insert_eq.
    + right. split; [apply not_elem_of_dom, is_fresh|].
      split; [|done]. unfold find_flow_group in Hfind.
      by rewrite first_where_None in Hfind.
Qed.
(** A submission that passes the gates: what [create_flow] does from the
    flow group on. *)
Lemma create_flow_passes (now : Z) (uuid4 : string) (sf : SerializedFlow.t)
    (pid : string) (vgid : option string) (active : bool)
    (descr : option string) (db : DB) (flow : FlowSchema.t)
    (env : gmap string json) (project : Project.t) (gid : string)
    (db1 : DB) :
  SerializedFlow.load sf = Ok flow →
  FlowSchema.environment flow = Some env →
  core_version_accepted env →
  projects db !! pid = Some project →
  unschedulable_parameters flow = false →
  get_or_create_flow_group (Project.tenant_id project)
    (resolve_version_group_id vgid uuid4) db = (Ok gid, db1) →
  create_flow_here now uuid4 sf pid vgid active descr db
  = match edge_rows (Project.tenant_id project) (task_lookup flow)
            (FlowSchema.edges flow) with
    | Raise e => (Raise e, db1)
    | Ok edges =>
      let fid := fresh (dom (flows db1)) in
      let db2 :=
        set_flows db1
          (<[fid := new_flow sf flow (Project.tenant_id project) pid
                      (resolve_version_group_id vgid uuid4)
                      (default 0
                         (max_version db1 (Project.tenant_id project)
                            (resolve_version_group_id vgid uuid4)))
                      gid descr active edges]> (flows db1)) in
      if active
      then match schedule_flow_runs now (Some fid) None db2 with
           | (Ok _, db3) => (Ok fid, db3)
           | (Raise e, db3) => (Raise e, db3)
           end
      else (Ok fid, db2)
    end.
Proof.
  intros Hload Henv Haccepted Hproject Hparams Hgroup.
  apply (check_core_version_accepted env db) in Haccepted.
  unfold create_flow. rewrite Hload, Henv. rewrite bind_run, Haccepted.
  rewrite bind_run. unfold get. rewrite Hproject, Hparams.
  rewrite bind_run, Hgroup. rewrite bind_run. cbn [fst snd].
  destruct (edge_rows _ _ _) as [edges|e]; [|done].
  unfold insert_row. rewrite bind_run. cbv beta iota delta [put].
  rewrite bind_run. destruct active; [|done].
  rewrite bind_run.
  set (db2 := set_flows db1 _).
  by destruct (schedule_flow_runs now (Some (fresh (dom (flows db1)))) None db2)
    as [[ids|e] db3].
Qed.

(** The three ways [create_flow] ends: it raises before writing; it raises
    the [KeyError] of an edge after setting up the flow group; it returns
    the id of the flow it stored. *)
Lemma create_flow_outcomes (now : Z) (uuid4 : string)
    (sf : SerializedFlow.t) (pid : string) (vgid : option string)
    (active : bool) (descr : option string) (db : DB) :
  (∃ e, create_flow_here now uuid4 sf pid vgid active descr db
        = (Raise e, db))
  ∨ (∃ flow project gid db1 e slug,
       SerializedFlow.load sf = Ok flow
       ∧ projects db !! pid = Some project
       ∧ get_or_create_flow_group (Project.tenant_id project)
           (resolve_version_group_id vgid uuid4) db = (Ok gid, db1)
       ∧ e ∈ FlowSchema.edges flow
       ∧ task_lookup flow !! slug = None
       ∧ (slug = EdgeSchema.upstream_task e
          ∨ slug = EdgeSchema.downstream_task e)
       ∧ create_flow_here now uuid4 sf pid vgid active descr db
         = (Raise (KeyError slug), db1))
  ∨ (∃ fid db',
       create_flow_here now uuid4 sf pid vgid active descr db
       = (Ok fid, db')).
Proof.
  destruct (SerializedFlow.load sf) as [flow|e] eqn:Hload.
  2: { left. exists e. unfold create_flow. by rewrite Hload. }
  destruct (FlowSchema.environment flow) as [env|] eqn:Henv.
  2: { left. eexists. unfold create_flow. by rewrite Hload, Henv. }
  destruct (check_core_version_run core_version_lt_cutoff core_version_cutoff
              format_non_str
              (env !! "__version__") db) as [Hcheck|[e Hcheck]].
  2: { left. exists e. unfold create_flow.
       by rewrite Hload, Henv, bind_run, Hcheck. }
  destruct (projects db !! pid) as [project|] eqn:Hproject.
  2: { left. eexists. unfold create_flow.
       rewrite Hload, Henv, bind_run, Hcheck, bind_run. unfold get.
       by rewrite Hproject. }
  destruct (unschedulable_parameters flow) eqn:Hparams.
  { left. eexists. unfold create_flow.
    rewrite Hload, Henv, bind_run, Hcheck, bind_run. unfold get.
    by rewrite Hproject, Hparams. }
  destruct (get_or_create_flow_group_spec (Project.tenant_id project)
              (resolve_version_group_id vgid uuid4) db)
    as (gid & g & db1 & Hgroup & Hfind & _).
  apply check_core_version_accepted in Hcheck.
  rewrite (create_flow_passes now uuid4 sf pid vgid active descr db flow env
             project gid db1 Hload Henv Hcheck Hproject Hparams Hgroup).
  pose proof (edge_rows_outcome (Project.tenant_id project) (task_lookup flow)
                (FlowSchema.edges flow)) as Hedges.
  destruct (edge_rows _ _ _) as [edges|ex].
  - right. right. cbv zeta.
    set (fid := fresh (dom (flows db1))). set (db2 := set_flows db1 _).
    destruct active; [|by eexists _, _].
    destruct (schedule_flow_runs_returns now fid None db2) as [ids Hids].
    { intros flow' Hflow'. subst db2. simpl in Hflow'.
      rewrite lookup_insert_eq in Hflow'. injection Hflow' as <-. simpl.
      apply first_where_Some in Hfind as [-> _]. by eexists. }
    destruct (schedule_flow_runs now (Some fid) None db2) as [res db3].
    simpl in Hids. subst res. by eexists _, _.
  - right. left. destruct Hedges as (e & slug & He & -> & Hslug & Hend).
    by exists flow, project, gid, db1, e, slug.
Qed.

(** The required-parameter check lets through exactly the flows whose
    clocks cover the required parameters. *)
Lemma unschedulable_parameters_false (flow : FlowSchema.t) :
  unschedulable_parameters flow = false ↔ parameters_covered flow.
Proof.
  split.
  - intros Hok schedule c p Hsched Hc Hp Hreq.
    destruct (ParameterSchema.name p) as [s|] eqn:Hname.
    + destruct (decide (s ∈ dom (ClockSchema.parameter_defaults c)))
        as [Hin|Hout]; [by exists s|].
      rewrite (unschedulable_parameters_uncovered flow schedule c p) in Hok;
        [done|done|done|done|done|].
      intros s' Hs'. rewrite Hname in Hs'. by injection Hs' as <-.
    + rewrite (unschedulable_parameters_uncovered flow schedule c p) in Hok;
        [done|done|done|done|done|].
      intros s' Hs'. by rewrite Hname in Hs'.
  - intros Hcov. unfold unschedulable_parameters.
    destruct (FlowSchema.schedule flow) as [schedule|] eqn:Hsched; [|done].
    destruct (filter _ (FlowSchema.parameters flow)) as [|p0 ps] eqn:Hfilter;
      [done|].
    apply negb_false_iff, forallb_forall. intros c Hc.
    apply list_elem_of_In in Hc. unfold covers. apply forallb_forall.
    intros n Hn. apply list_elem_of_In, list_elem_of_fmap in Hn
      as (p & -> & Hp).
    rewrite <-Hfilter in Hp. apply list_elem_of_filter in Hp as [Hreq Hp].
    destruct (Hcov schedule c p Hsched Hc Hp Hreq) as (s & -> & Hin).
    by apply bool_decide_eq_true.
Qed.

Lemma edge_rows_Ok_iff (tenant_id : string) (flow : FlowSchema.t) :
  (∃ rows, edge_rows tenant_id (task_lookup flow) (FlowSchema.edges flow)
           = Ok rows)
  ↔ edges_join_tasks flow.
Proof.
  pose proof (edge_rows_outcome tenant_id (task_lookup flow)
                (FlowSchema.edges flow)) as Hout.
  unfold edges_join_tasks. setoid_rewrite <-task_lookup_is_Some.
  destruct (edge_rows _ _ _) as [rows|ex].
  - destruct Hout as [_ Hall]. split; [done | by eexists].
  - destruct Hout as (e & slug & He & _ & Hnone & Hend). split.
    + by intros [rows ?].
    + intros Hall. destruct (Hall e He) as [[up Hup] [down Hdown]].
      destruct Hend as [->| ->]; congruence.
Qed.

(** X16.  [create_flow] returns a flow id exactly for the submissions
    that deserialize, carry an environment mapping whose core version is
    missing, falsy or not below the cutoff, name a stored project, have
    every required parameter covered by every clock of their schedule, and
    whose edges all join slugs of submitted tasks.  In particular the
    scheduling pass at the end never makes a registration fail. *)
Theorem create_flow_succeeds_iff (now : Z) (uuid4 : string)
    (sf : SerializedFlow.t) (pid : string) (vgid : option string)
    (active : bool) (descr : option string) (db : DB) :
  (∃ fid db',
     create_flow_here now uuid4 sf pid vgid active descr db = (Ok fid, db'))
  ↔ ∃ flow env project,
      SerializedFlow.load sf = Ok flow
      ∧ FlowSchema.environment flow = Some env
      ∧ core_version_accepted env
      ∧ projects db !! pid = Some project
      ∧ parameters_covered flow
      ∧ edges_join_tasks flow.
Proof.
  split.
  - intros (fid & db' & Hrun).
    apply create_flow_Ok in Hrun as Hok.
    destruct Hok as (flow & env & project & edges & gid & db1 & Hload & Henv & Hproject & Hparams & _ & Hedges & _).
    exists flow, env, project.
    split; [done|]. split; [done|]. split.
    { apply (check_core_version_accepted env db).
      destruct (check_core_version_run core_version_lt_cutoff core_version_cutoff
              format_non_str
                  (env !! "__version__") db) as [Hcheck|[e Hcheck]];
        [done|].
      unfold create_flow in Hrun.
      by rewrite Hload, Henv, bind_run, Hcheck in Hrun. }
    split; [done|]. split; [by apply unschedulable_parameters_false|].
    apply (edge_rows_Ok_iff (Project.tenant_id project)). by eexists.
  - intros (flow & env & project & Hload & Henv & Haccepted & Hproject & Hcov & Hedges).
    apply unschedulable_parameters_false in Hcov.
    apply (edge_rows_Ok_iff (Project.tenant_id project)) in Hedges
      as [edges Hedges].
    destruct (get_or_create_flow_group_spec (Project.tenant_id project)
                (resolve_version_group_id vgid uuid4) db)
      as (gid & g & db1 & Hgroup & Hfind & _).
    rewrite (create_flow_passes now uuid4 sf pid vgid active descr db flow
               env project gid db1 Hload Henv Haccepted Hproject Hcov
               Hgroup), Hedges.
    cbv zeta. destruct active; [|by eexists _, _].
    set (fid := fresh (dom (flows db1))).
    set (db2 := set_flows db1 _).
    destruct (schedule_flow_runs_returns now fid None db2) as [ids Hids].
    { intros flow' Hflow'. subst db2. simpl in Hflow'.
      rewrite lookup_insert_eq in Hflow'. injection Hflow' as <-. simpl.
      apply first_where_Some in Hfind as [-> _]. by eexists. }
    destruct (schedule_flow_runs now (Some fid) None db2) as [res db3].
    simpl in Hids. subst res. by eexists _, _.
Qed.

(** X17.  What a failed [create_flow] leaves behind: either the database
    as it was, or, when the failure is the [KeyError] of an edge that
    names a slug no task carries, the database as it was except possibly
    for one new flow group with the default settings, to which no flow
    belongs. *)
Theorem create_flow_failure_footprint (now : Z) (uuid4 : string)
    (sf : SerializedFlow.t) (pid : string) (vgid : option string)
    (active : bool) (descr : option string) (db db' : DB) (e : exn) :
  create_flow_here now uuid4 sf pid vgid active descr db = (Raise e, db') →
  db' = db
  ∨ (∃ slug project gid,
       e = KeyError slug
       ∧ projects db !! pid = Some project
       ∧ projects db' = projects db
       ∧ flows db' = flows db
       ∧ flow_runs db' = flow_runs db
       ∧ flow_groups db !! gid = None
       ∧ flow_groups db'
         = <[gid := default_flow_group (Project.tenant_id project)
                      (resolve_version_group_id vgid uuid4)]>
             (flow_groups db)).
Proof.
  intros Hrun.
  destruct (create_flow_outcomes now uuid4 sf pid vgid active descr db)
    as [[e' Hrun']|[(flow & project & gid & db1 & edge & slug & _ & Hproject & Hgroup & _ & _ & _ & Hrun')|(fid & db'' & Hrun')]];
    rewrite Hrun' in Hrun; [left; congruence | | done].
  injection Hrun as <- <-.
  destruct (get_or_create_flow_group_cases _ _ _ _ _ Hgroup)
    as (Hp & Hf & Hr & _ & [->|(Hnone & _ & Hgroups)]); [by left|].
  right. by exists slug, project, gid.
Qed.

(** X18.  The edges a successful [create_flow] stores: one per submitted
    edge, in order, with the edge's key and mapped flag, its two ends
    being the ids of the last submitted tasks that carry the edge's two
    slugs. *)
Theorem create_flow_stores_edges (now : Z) (uuid4 : string)
    (sf : SerializedFlow.t) (pid : string) (vgid : option string)
    (active : bool) (descr : option string) (db db' : DB) (fid : string)
    (flow : FlowSchema.t) :
  SerializedFlow.load sf = Ok flow →
  create_flow_here now uuid4 sf pid vgid active descr db = (Ok fid, db') →
  ∃ row,
    flows db' !! fid = Some row
    ∧ length (Flow.edges row) = length (FlowSchema.edges flow)
    ∧ ∀ i e, FlowSchema.edges flow !! i = Some e →
        ∃ up down,
          last (filter (λ t, TaskSchema.slug t = EdgeSchema.upstream_task e)
                  (FlowSchema.tasks flow)) = Some up
          ∧ last (filter
                    (λ t, TaskSchema.slug t = EdgeSchema.downstream_task e)
                    (FlowSchema.tasks flow)) = Some down
          ∧ Flow.edges row !! i
            = Some {| Edge.tenant_id := Flow.tenant_id row;
                      Edge.upstream_task_id := TaskSchema.id up;
                      Edge.downstream_task_id := TaskSchema.id down;
                      Edge.key := EdgeSchema.key e;
                      Edge.mapped := EdgeSchema.mapped e |}.
Proof.
  intros Hload Hrun.
  apply create_flow_Ok in Hrun
    as (flow' & env & project & edges & gid & db1 & Hload' & _ & _ & _ & _ & Hedges & _ & Hflows & _).
  rewrite Hload in Hload'. injection Hload' as <-.
  eexists. split; [by rewrite Hflows, lookup_insert_eq|]. simpl.
  pose proof (edge_rows_outcome (Project.tenant_id project) (task_lookup flow)
                (FlowSchema.edges flow)) as Hout.
  rewrite Hedges in Hout. destruct Hout as [Hlen _].
  split; [done|]. intros i e Hi.
  destruct (edge_rows_lookup _ _ _ _ i e Hedges Hi)
    as (up & down & Hup & Hdown & Hrow).
  exists up, down. rewrite <-!task_lookup_last. done.
Qed.


(** ** Invariants of the database *)

Local Abbreviation set_schedule_active :=
  (set_schedule_active Schedule schedule_schema_load schedule_next in_tz_UTC).
Local Abbreviation unarchive_flow :=
  (unarchive_flow Schedule schedule_schema_load schedule_next in_tz_UTC).

Lemma keys_preserved_refl (db : DB) : keys_preserved db db.
Proof.
  split; [done|]. split; [done|]. intros fid f Hf. exists f.
  split; [done|]. do 4 (split; [done|]). by left.
Qed.

Lemma keys_preserved_trans (db1 db2 db3 : DB) :
  keys_preserved db1 db2 → keys_preserved db2 db3 → keys_preserved db1 db3.
Proof.
  intros (Hp1 & Hg1 & Hf1) (Hp2 & Hg2 & Hf2).
  split; [congruence|]. split; [intros gid; by rewrite Hg2|].
  intros fid f3 Hf3.
  destruct (Hf2 fid f3 Hf3) as (f2 & Hf2' & Ht2 & Hvg2 & Hv2 & Hgid2 & Hpr2).
  destruct (Hf1 fid f2 Hf2') as (f1 & Hf1' & Ht1 & Hvg1 & Hv1 & Hgid1 & Hpr1).
  exists f1. split; [done|]. do 4 (split; [congruence|]).
  destruct Hpr2 as [Heq|(p & Hp & Htp)].
  - rewrite Heq. destruct Hpr1 as [?|(p & Hp & Htp)]; [by left|].
    right. by exists p.
  - right. exists p. rewrite Hp1 in Hp. split; [done | congruence].
Qed.

Lemma same_but_runs_keys_preserved (db db' : DB) :
  same_but_runs db db' → keys_preserved db db'.
Proof.
  intros (Hp & Hg & Hf). split; [done|]. split; [by rewrite Hg|].
  rewrite Hf. intros fid f Hfid. exists f.
  split; [done|]. do 4 (split; [done|]). by left.
Qed.

(** An update of the row of one flow that keeps its keys, or moves it to
    a project of its tenant. *)
Lemma keys_preserved_alter (db db' : DB) (g : Flow.t → Flow.t)
    (fid : string) :
  (∀ f, flows db !! fid = Some f →
        Flow.tenant_id (g f) = Flow.tenant_id f
        ∧ Flow.version_group_id (g f) = Flow.version_group_id f
        ∧ Flow.version (g f) = Flow.version f
        ∧ Flow.flow_group_id (g f) = Flow.flow_group_id f
        ∧ (Flow.project_id (g f) = Flow.project_id f
           ∨ ∃ p, projects db !! Flow.project_id (g f) = Some p
                  ∧ Project.tenant_id p = Flow.tenant_id f)) →
  projects db' = projects db →
  flow_groups db' = flow_groups db →
  flows db' = alter g fid (flows db) →
  keys_preserved db db'.
Proof.
  intros Hg Hp Hgr Hfl. split; [done|]. split; [by rewrite Hgr|].
  rewrite Hfl. intros k f' Hk. destruct (decide (k = fid)) as [->|Hne].
  - rewrite lookup_alter_eq in Hk.
    destruct (flows db !! fid) as [f|] eqn:Hf; [|done].
    simpl in Hk. injection Hk as <-. exists f. split; [done|].
    by apply Hg.
  - rewrite lookup_alter_ne in Hk by done. exists f'.
    split; [done|]. do 4 (split; [done|]). by left.
Qed.

Lemma keys_preserved_delete (db db' : DB) (fid : string) :
  projects db' = projects db →
  flow_groups db' = flow_groups db →
  flows db' = delete fid (flows db) →
  keys_preserved db db'.
Proof.
  intros Hp Hgr Hfl. split; [done|]. split; [by rewrite Hgr|].
  rewrite Hfl. intros k f' Hk. apply lookup_delete_Some in Hk as [_ Hk].
  exists f'. split; [done|]. do 4 (split; [done|]). by left.
Qed.

Lemma keys_preserved_settings (db : DB) (gid : string) (fg : FlowGroup.t)
    (settings : gmap string json) :
  flow_groups db !! gid = Some fg →
  keys_preserved db
    (set_flow_groups db
       (<[gid := FlowGroup.set_settings fg settings]> (flow_groups db))).
Proof.
  intros Hfg. split; [done|]. split.
  - intros k. simpl. destruct (decide (k = gid)) as [->|Hne].
    + by rewrite lookup_insert_eq, Hfg.
    + by rewrite lookup_insert_ne.
  - intros k f Hk. exists f.
    split; [done|]. do 4 (split; [done|]). by left.
Qed.

Lemma keys_preserved_invariants (db db' : DB) :
  keys_preserved db db' → keeps_invariants db db'.
Proof.
  intros (Hp & Hg & Hf). split; [|split].
  - intros Hri fid f' Hfid.
    destruct (Hf fid f' Hfid) as (f & Hfid0 & Ht & Hvg & Hv & Hgid & Hpr).
    destruct (Hri fid f Hfid0) as [(p & Hproj & Htp) (g & Hgroup & Htg & Hng)].
    split.
    + rewrite Hp. destruct Hpr as [->|(p' & Hproj' & Htp')].
      * exists p. split; [done | congruence].
      * exists p'. split; [done | congruence].
    + specialize (Hg (Flow.flow_group_id f')). rewrite Hgid, Hgroup in Hg.
      destruct (flow_groups db' !! Flow.flow_group_id f) as [g'|] eqn:Hg';
        [|done].
      rewrite Hgid. exists g'. injection Hg as Htg' Hng'.
      split; [done|]. split; congruence.
  - intros Hvu k1 k2 f1' f2' Hk1 Hk2 Ht Hvg Hv.
    destruct (Hf k1 f1' Hk1) as (f1 & Hk1' & Ht1 & Hvg1 & Hv1 & _).
    destruct (Hf k2 f2' Hk2) as (f2 & Hk2' & Ht2 & Hvg2 & Hv2 & _).
    apply (Hvu k1 k2 f1 f2 Hk1' Hk2'); congruence.
  - intros Hgu k1 k2 g1' g2' Hk1 Hk2 Ht Hn.
    pose proof (Hg k1) as Hg1. pose proof (Hg k2) as Hg2.
    rewrite Hk1 in Hg1. rewrite Hk2 in Hg2.
    destruct (flow_groups db !! k1) as [g1|] eqn:Hk1'; [|done].
    destruct (flow_groups db !! k2) as [g2|] eqn:Hk2'; [|done].
    injection Hg1 as Ht1 Hn1. injection Hg2 as Ht2 Hn2.
    apply (Hgu k1 k2 g1 g2 Hk1' Hk2'); congruence.
Qed.

Lemma keeps_invariants_trans (db1 db2 db3 : DB) :
  keeps_invariants db1 db2 → keeps_invariants db2 db3 →
  keeps_invariants db1 db3.
Proof.
  intros (Hri1 & Hvu1 & Hgu1) (Hri2 & Hvu2 & Hgu2).
  split; [|split]; eauto.
Qed.


Lemma archive_flow_keys (flow_id : option string) (db : DB) :
  keys_preserved db (archive_flow flow_id db).2.
Proof.
  unfold archive_flow.
  destruct (str_truthy flow_id); [|apply keys_preserved_refl].
  rewrite bind_run. unfold get, update_by_id.
  destruct (flows db !! default "" flow_id) as [flow|] eqn:Hflow.
  - apply (keys_preserved_alter db _ (λ f, Flow.set_archived f true)
             (default "" flow_id)); try done.
    intros f _. do 4 (split; [done|]). by left.
  - by apply same_but_runs_keys_preserved.
Qed.

Lemma set_schedule_inactive_keys (flow_id : option string) (db : DB) :
  keys_preserved db (set_schedule_inactive flow_id db).2.
Proof.
  unfold set_schedule_inactive.
  destruct flow_id as [fid|]; [|apply keys_preserved_refl].
  rewrite bind_run. unfold get, update_by_id.
  destruct (flows db !! fid) as [flow|] eqn:Hflow.
  - apply (keys_preserved_alter db _
             (λ f, Flow.set_is_schedule_active f false) fid); try done.
    intros f _. do 4 (split; [done|]). by left.
  - by apply same_but_runs_keys_preserved.
Qed.

Lemma delete_flow_keys (flow_id : option string) (db : DB) :
  keys_preserved db (delete_flow flow_id db).2.
Proof.
  unfold delete_flow.
  destruct (str_truthy flow_id); [|apply keys_preserved_refl].
  by apply (keys_preserved_delete db _ (default "" flow_id)).
Qed.

Lemma schedule_flow_runs_keys (now : Z) (flow_id : option string)
    (max_runs : option Z) (db : DB) :
  keys_preserved db (schedule_flow_runs now flow_id max_runs db).2.
Proof.
  apply same_but_runs_keys_preserved, schedule_flow_runs_same_but_runs.
Qed.

Lemma set_schedule_active_keys (now : Z) (flow_id : option string)
    (db : DB) :
  keys_preserved db (set_schedule_active now flow_id db).2.
Proof.
  destruct flow_id as [fid|]; [|apply keys_preserved_refl].
  destruct (flows db !! fid) as [flow|] eqn:Hflow.
  - rewrite (set_schedule_active_state Schedule schedule_schema_load
               schedule_next in_tz_UTC now fid db flow Hflow).
    eapply keys_preserved_trans; [|apply schedule_flow_runs_keys].
    apply (keys_preserved_alter db _
             (λ f, Flow.set_is_schedule_active f true) fid); try done.
    intros f _. do 4 (split; [done|]). by left.
  - unfold set_schedule_active. rewrite bind_run. unfold get, update_by_id.
    rewrite Hflow. by apply same_but_runs_keys_preserved.
Qed.

Lemma unarchive_flow_keys (now : Z) (flow_id : option string) (db : DB) :
  keys_preserved db (unarchive_flow now flow_id db).2.
Proof.
  unfold unarchive_flow.
  destruct (str_truthy flow_id); [|apply keys_preserved_refl].
  set (fid := default "" flow_id).
  rewrite bind_run. unfold get, update_by_id.
  destruct (flows db !! fid) as [flow|] eqn:Hflow.
  - rewrite bind_run. cbv beta iota delta [put]. cbn [Nat.eqb negb andb].
    set (db0 := set_flows db _).
    assert (H0 : keys_preserved db db0).
    { apply (keys_preserved_alter db _ (λ f, Flow.set_archived f false) fid);
        try done.
      intros f _. do 4 (split; [done|]). by left. }
    rewrite bind_run.
    destruct (alter _ fid (flows db) !! fid) as [f|]; [|done].
    destruct (Flow.is_schedule_active f); [|done].
    rewrite bind_run.
    pose proof (set_schedule_active_keys now (Some fid) db0) as H1.
    destruct (set_schedule_active now (Some fid) db0) as [[b|e] db1];
      by eapply keys_preserved_trans.
  - by apply same_but_runs_keys_preserved.
Qed.

Lemma update_flow_setting_keys (flow_id : option string) (key : string)
    (value : json) (db : DB) :
  keys_preserved db (_update_flow_setting flow_id key value db).2.
Proof.
  rewrite update_flow_setting_state.
  destruct (flow_id ≫= _) as [flow|]; [|apply keys_preserved_refl].
  destruct (flow_groups db !! Flow.flow_group_id flow) as [fg|] eqn:Hfg;
    [|apply keys_preserved_refl].
  by apply keys_preserved_settings.
Qed.

Lemma toggle_keys (flow_id : option string) (key : string) (value : json)
    (db : DB) :
  keys_preserved db
    ((_update_flow_setting flow_id key value;; mret true) db).2.
Proof. rewrite toggle_state. apply update_flow_setting_keys. Qed.

Lemma heartbeat_toggle_keys (flow_id : option string) (v1 v2 : json)
    (db : DB) :
  keys_preserved db
    ((_update_flow_setting flow_id "disable_heartbeat" v1;;
      _update_flow_setting flow_id "heartbeat_enabled" v2;;
      mret true) db).2.
Proof.
  rewrite bind_run.
  pose proof (update_flow_setting_keys flow_id "disable_heartbeat" v1 db)
    as H1.
  destruct (_update_flow_setting flow_id "disable_heartbeat" v1 db)
    as [[g|e] db1]; [|done].
  eapply keys_preserved_trans; [done|]. apply toggle_keys.
Qed.

Lemma update_flow_project_keys (flow_id project_id : option string)
    (db : DB) :
  keys_preserved db (update_flow_project flow_id project_id db).2.
Proof.
  unfold update_flow_project.
  destruct flow_id as [fid|]; [|apply keys_preserved_refl].
  destruct project_id as [pid|]; [|apply keys_preserved_refl].
  rewrite bind_run. unfold get.
  destruct (flows db !! fid) as [flow|] eqn:Hflow;
    [|by apply same_but_runs_keys_preserved].
  destruct (in_tenant_of_project db pid flow) eqn:Htenant;
    [|by apply same_but_runs_keys_preserved].
  apply (keys_preserved_alter db _ (λ f, Flow.set_project_id f pid) fid);
    try done.
  intros f Hf. rewrite Hflow in Hf. injection Hf as <-.
  do 4 (split; [done|]). right. unfold in_tenant_of_project in Htenant.
  simpl. destruct (projects db !! pid) as [p|]; [|done].
  apply bool_decide_eq_true in Htenant. by exists p.
Qed.

(** X19.  Every operation of the module that creates no flow keeps the
    invariants of the data model: if, before the call, every flow's project
    and flow group are stored in the flow's tenant (the group being that of
    the flow's version group), or versions are unique within a version
    group, or flow groups are unique by tenant and name, then the same holds
    after the call, whatever its arguments and whether it returns or
    raises. *)
Theorem operations_keep_invariants (now : Z)
    (flow_id project_id : option string) (max_runs : option Z)
    (key : string) (value : json) (db : DB) :
  keeps_invariants db (archive_flow flow_id db).2
  ∧ keeps_invariants db (unarchive_flow now flow_id db).2
  ∧ keeps_invariants db (delete_flow flow_id db).2
  ∧ keeps_invariants db (update_flow_project flow_id project_id db).2
  ∧ keeps_invariants db (set_schedule_active now flow_id db).2
  ∧ keeps_invariants db (set_schedule_inactive flow_id db).2
  ∧ keeps_invariants db (schedule_flow_runs now flow_id max_runs db).2
  ∧ keeps_invariants db (_update_flow_setting flow_id key value db).2
  ∧ keeps_invariants db (enable_heartbeat_for_flow flow_id db).2
  ∧ keeps_invariants db (disable_heartbeat_for_flow flow_id db).2
  ∧ keeps_invariants db (enable_lazarus_for_flow flow_id db).2
  ∧ keeps_invariants db (disable_lazarus_for_flow flow_id db).2
  ∧ keeps_invariants db (enable_version_locking_for_flow flow_id db).2
  ∧ keeps_invariants db (disable_version_locking_for_flow flow_id db).2.
Proof.
  repeat split_and; apply keys_preserved_invariants.
  - apply archive_flow_keys.
  - apply unarchive_flow_keys.
  - apply delete_flow_keys.
  - apply update_flow_project_keys.
  - apply set_schedule_active_keys.
  - apply set_schedule_inactive_keys.
  - apply schedule_flow_runs_keys.
  - apply update_flow_setting_keys.
  - apply heartbeat_toggle_keys.
  - apply heartbeat_toggle_keys.
  - apply toggle_keys.
  - apply toggle_keys.
  - apply toggle_keys.
  - apply toggle_keys.
Qed.


(** The three ways [create_flow] ends, with the database each leaves. *)
Lemma create_flow_state (now : Z) (uuid4 : string)
    (sf : SerializedFlow.t) (pid : string) (vgid : option string)
    (active : bool) (descr : option string) (db : DB) :
  (∃ e, create_flow_here now uuid4 sf pid vgid active descr db
        = (Raise e, db))
  ∨ ∃ flow project gid db1,
      SerializedFlow.load sf = Ok flow
      ∧ projects db !! pid = Some project
      ∧ get_or_create_flow_group (Project.tenant_id project)
          (resolve_version_group_id vgid uuid4) db = (Ok gid, db1)
      ∧ ((∃ slug, create_flow_here now uuid4 sf pid vgid active descr db
                  = (Raise (KeyError slug), db1))
         ∨ ∃ edges,
             let fid := fresh (dom (flows db1)) in
             let db2 :=
               set_flows db1
                 (<[fid := new_flow sf flow (Project.tenant_id project) pid
                             (resolve_version_group_id vgid uuid4)
                             (default 0
                                (max_version db1 (Project.tenant_id project)
                                   (resolve_version_group_id vgid uuid4)))
                             gid descr active edges]> (flows db1)) in
             create_flow_here now uuid4 sf pid vgid active descr db
             = (Ok fid,
                if active
                then (schedule_flow_runs now (Some fid) None db2).2
                else db2)).
Proof.
  destruct (SerializedFlow.load sf) as [flow|e] eqn:Hload.
  2: { left. exists e. unfold create_flow. by rewrite Hload. }
  destruct (FlowSchema.environment flow) as [env|] eqn:Henv.
  2: { left. eexists. unfold create_flow. by rewrite Hload, Henv. }
  destruct (check_core_version_run core_version_lt_cutoff core_version_cutoff
              format_non_str
              (env !! "__version__") db) as [Hcheck|[e Hcheck]].
  2: { left. exists e. unfold create_flow.
       by rewrite Hload, Henv, bind_run, Hcheck. }
  destruct (projects db !! pid) as [project|] eqn:Hproject.
  2: { left. eexists. unfold create_flow.
       rewrite Hload, Henv, bind_run, Hcheck, bind_run. unfold get.
       by rewrite Hproject. }
  destruct (unschedulable_parameters flow) eqn:Hparams.
  { left. eexists. unfold create_flow.
    rewrite Hload, Henv, bind_run, Hcheck, bind_run. unfold get.
    by rewrite Hproject, Hparams. }
  destruct (get_or_create_flow_group_spec (Project.tenant_id project)
              (resolve_version_group_id vgid uuid4) db)
    as (gid & g & db1 & Hgroup & Hfind & _).
  apply check_core_version_accepted in Hcheck.
  right. exists flow, project, gid, db1.
  split; [done|]. split; [done|]. split; [done|].
  rewrite (create_flow_passes now uuid4 sf pid vgid active descr db flow env
             project gid db1 Hload Henv Hcheck Hproject Hparams Hgroup).
  pose proof (edge_rows_outcome (Project.tenant_id project) (task_lookup flow)
                (FlowSchema.edges flow)) as Hedges.
  destruct (edge_rows _ _ _) as [edges|ex].
  - right. exists edges. cbv zeta.
    set (fid := fresh (dom (flows db1))). set (db2 := set_flows db1 _).
    destruct active; [|done].
    destruct (schedule_flow_runs_returns now fid None db2) as [ids Hids].
    { intros flow' Hflow'. subst db2. simpl in Hflow'.
      rewrite lookup_insert_eq in Hflow'. injection Hflow' as <-. simpl.
      apply first_where_Some in Hfind as [-> _]. by eexists. }
    destruct (schedule_flow_runs now (Some fid) None db2) as [res db3].
    simpl in Hids. by subst res.
  - left. destruct Hedges as (e & slug & He & -> & Hslug & Hend).
    by exists slug.
Qed.

(** Setting up the flow group keeps the invariants. *)
Lemma get_or_create_flow_group_invariants (tenant_id name : string)
    (db db1 : DB) (gid : string) :
  get_or_create_flow_group tenant_id name db = (Ok gid, db1) →
  keeps_invariants db db1.
Proof.
  intros Hrun.
  destruct (get_or_create_flow_group_cases _ _ _ _ _ Hrun)
    as (Hp & Hf & _ & _ & [->|(Hnone & Hunique & Hgroups)]).
  { apply keys_preserved_invariants, keys_preserved_refl. }
  split; [|split].
  - intros Hri fid f Hfid. rewrite Hf in Hfid. rewrite Hp, Hgroups.
    destruct (Hri fid f Hfid) as [Hproject (g & Hg & Hkeys)].
    split; [done|]. exists g. split; [|done].
    rewrite lookup_insert_ne; [done|]. congruence.
  - intros Hvu. unfold versions_unique. by rewrite Hf.
  - intros Hgu k1 k2 g1 g2. rewrite Hgroups.
    destruct (decide (k1 = gid)) as [->|Hne1];
      destruct (decide (k2 = gid)) as [->|Hne2]; [done| | |].
    + rewrite lookup_insert_eq, lookup_insert_ne by done.
      intros [= <-] Hk2 Ht Hn. destruct (Hunique k2 g2 Hk2). done.
    + rewrite lookup_insert_eq, lookup_insert_ne by done.
      intros Hk1 [= <-] Ht Hn. destruct (Hunique k1 g1 Hk1). done.
    + rewrite !lookup_insert_ne by done. apply Hgu.
Qed.

(** Inserting the new flow keeps the invariants. *)
Lemma insert_new_flow_invariants (sf : SerializedFlow.t)
    (flow : FlowSchema.t) (pid vg : string) (project : Project.t)
    (gid : string) (g : FlowGroup.t) (descr : option string)
    (active : bool) (edges : list Edge.t) (db1 : DB) (fid : string) :
  projects db1 !! pid = Some project →
  flow_groups db1 !! gid = Some g →
  FlowGroup.tenant_id g = Project.tenant_id project →
  FlowGroup.name g = vg →
  flows db1 !! fid = None →
  keeps_invariants db1
    (set_flows db1
       (<[fid := new_flow sf flow (Project.tenant_id project) pid vg
                   (default 0 (max_version db1 (Project.tenant_id project) vg))
                   gid descr active edges]> (flows db1))).
Proof.
  intros Hproject Hg Htenant Hname Hfresh. split; [|split].
  - intros Hri k f. simpl. destruct (decide (k = fid)) as [->|Hne].
    + rewrite lookup_insert_eq. intros [= <-]. simpl. split.
      * by exists project.
      * by exists g.
    + rewrite lookup_insert_ne by done. apply Hri.
  - intros Hvu k1 k2 f1 f2. simpl.
    destruct (next_version_spec db1 (Project.tenant_id project) vg)
      as [_ Hnext].
    destruct (decide (k1 = fid)) as [->|Hne1];
      destruct (decide (k2 = fid)) as [->|Hne2]; [done| | |].
    + rewrite lookup_insert_eq, lookup_insert_ne by done.
      intros [= <-] Hk2. simpl. intros Ht Hvg Hv.
      destruct (Hnext k2 f2 Hk2) as [Hlt _]; [done|]. simpl in Hlt. lia.
    + rewrite lookup_insert_eq, lookup_insert_ne by done.
      intros Hk1 [= <-]. simpl. intros Ht Hvg Hv.
      destruct (Hnext k1 f1 Hk1) as [Hlt _]; [done|]. simpl in Hlt. lia.
    + rewrite !lookup_insert_ne by done. apply Hvu.
  - done.
Qed.

(** X20.  [create_flow] keeps the invariants of the data model, whether
    it returns or raises: if, before the call, every flow's project and
    flow group are stored in the flow's tenant (the group being that of the
    flow's version group), or versions are unique within a version group,
    or flow groups are unique by tenant and name, then the same holds after
    the call. *)
Theorem create_flow_keeps_invariants (now : Z) (uuid4 : string)
    (sf : SerializedFlow.t) (pid : string) (vgid : option string)
    (active : bool) (descr : option string) (db : DB) :
  keeps_invariants db
    (create_flow_here now uuid4 sf pid vgid active descr db).2.
Proof.
  destruct (create_flow_state now uuid4 sf pid vgid active descr db)
    as [[e ->]|(flow & project & gid & db1 & Hload & Hproject & Hgroup & [[slug ->]|[edges ->]])];
    cbn [snd].
  - apply keys_preserved_invariants, keys_preserved_refl.
  - by eapply get_or_create_flow_group_invariants.
  - eapply keeps_invariants_trans;
      [by eapply get_or_create_flow_group_invariants|].
    destruct (get_or_create_flow_group_cases _ _ _ _ _ Hgroup)
      as (Hp & Hf & _ & (g & Hg & Htenant & Hname) & _).
    eapply keeps_invariants_trans.
    { apply (insert_new_flow_invariants sf flow pid
               (resolve_version_group_id vgid uuid4) project gid g descr
               active edges db1 (fresh (dom (flows db1)))); try done.
      - by rewrite Hp.
      - apply not_elem_of_dom, is_fresh. }
    destruct active.
    + apply keys_preserved_invariants, schedule_flow_runs_keys.
    + apply keys_preserved_invariants, keys_preserved_refl.
Qed.


(** X21.  What [create_flow] leaves alone, whether it returns or raises:
    the projects, every flow group and every flow that was stored are
    unchanged; the flow groups are the old ones, or the old ones and one
    new group, under an id that was free, with the default settings; on
    success the flows are the old ones and one new flow under an id that
    was free, and when it raises the flows are unchanged.  When it raises,
    or is called with [set_schedule_active = False], the flow runs are
    unchanged; and a flow run it adds is a Scheduled run of the new flow
    marked [auto_scheduled]. *)
Theorem create_flow_frame (now : Z) (uuid4 : string)
    (sf : SerializedFlow.t) (pid : string) (vgid : option string)
    (active : bool) (descr : option string) (db : DB) :
  let res := create_flow_here now uuid4 sf pid vgid active descr db in
  rows_kept db res.2
  ∧ (flow_groups res.2 = flow_groups db
     ∨ ∃ gid project,
         projects db !! pid = Some project
         ∧ flow_groups db !! gid = None
         ∧ flow_groups res.2
           = <[gid := default_flow_group (Project.tenant_id project)
                        (resolve_version_group_id vgid uuid4)]>
               (flow_groups db))
  ∧ (∀ e, res.1 = Raise e →
       flows res.2 = flows db ∧ flow_runs res.2 = flow_runs db)
  ∧ (∀ fid, res.1 = Ok fid →
       flows db !! fid = None
       ∧ ∃ row, flows res.2 = <[fid := row]> (flows db))
  ∧ (active = false → flow_runs res.2 = flow_runs db)
  ∧ (∀ rid r, flow_runs res.2 !! rid = Some r →
       flow_runs db !! rid = None →
       res.1 = Ok (FlowRun.flow_id r)
       ∧ FlowRun.state r = "Scheduled"
       ∧ FlowRun.auto_scheduled r = true).
Proof.
  intros res. subst res.
  assert (Hgroups : ∀ tenant_id name gid db1,
    get_or_create_flow_group tenant_id name db = (Ok gid, db1) →
    rows_kept db db1 ∧ flows db1 = flows db ∧ flow_runs db1 = flow_runs db
    ∧ (flow_groups db1 = flow_groups db
       ∨ (flow_groups db !! gid = None
          ∧ flow_groups db1
            = <[gid := default_flow_group tenant_id name]> (flow_groups db)))).
  { intros tenant_id name gid db1 Hgroup.
    destruct (get_or_create_flow_group_cases _ _ _ _ _ Hgroup)
      as (Hp & Hf & Hr & _ & [->|(Hnone & _ & Hgroups)]);
      [split; [done|]; split; [done|]; split; [done|]; by left|].
    split; [|split; [done|]; split; [done|]; by right].
    split; [done|]. split; [|by rewrite Hf].
    intros k g Hk. rewrite Hgroups, lookup_insert_ne; [done|]. congruence. }
  destruct (create_flow_state now uuid4 sf pid vgid active descr db)
    as [[e ->]|(flow & project & gid & db1 & Hload & Hproject & Hgroup & [[slug ->]|[edges ->]])];
    cbn [fst snd].
  - split; [done|]. split; [by left|]. split; [done|]. split; [done|].
    split; [done|]. congruence.
  - destruct (Hgroups _ _ _ _ Hgroup) as (Hkept & Hf & Hr & Hnew).
    split; [done|]. split.
    { destruct Hnew as [?|[? ?]]; [by left|]. right. by exists gid, project. }
    split; [done|]. split; [done|]. split; [done|].
    rewrite Hr. congruence.
  - destruct (Hgroups _ _ _ _ Hgroup) as ((Hp & Hg & _) & Hf & Hr & Hnew).
    set (fid := fresh (dom (flows db1))).
    set (db2 := set_flows db1 _).
    assert (Hfresh : flows db !! fid = None).
    { rewrite <-Hf. apply not_elem_of_dom, is_fresh. }
    set (db' := if active then _ else db2).
    assert (Hsame : same_but_runs db2 db').
    { subst db'. destruct active; [|done].
      apply schedule_flow_runs_same_but_runs. }
    destruct Hsame as (Hp' & Hg' & Hf').
    split.
    { split; [by rewrite Hp'|]. split.
      - intros k g Hk. rewrite Hg'. by apply Hg.
      - intros k f Hk. rewrite Hf'. subst db2. simpl.
        rewrite lookup_insert_ne; [by rewrite Hf|]. congruence. }
    split.
    { rewrite Hg'. subst db2. cbn [flow_groups set_flows].
      destruct Hnew as [?|[? ?]]; [by left|]. right. by exists gid, project. }
    split; [done|]. split.
    { intros ? [= <-]. split; [done|]. eexists. rewrite Hf'. subst db2.
      simpl. by rewrite Hf. }
    split.
    { intros ->. by subst db'. }
    intros rid r Hrid Hnone. subst db'. destruct active.
    + destruct (schedule_flow_runs_added_run Schedule schedule_schema_load
                  schedule_next in_tz_UTC now (Some fid) None db2 rid r Hrid)
        as ([= ->] & Hstate & Hauto); [by rewrite <-Hr in Hnone|done].
    + subst db2. simpl in Hrid. rewrite Hr in Hrid. congruence.
Qed.


(** ** The list a scheduling pass returns *)

(** X22.  For a flow whose flow group is stored, [schedule_flow_runs]
    raises nothing; and when the flow is neither archived nor inactive, has
    a schedule on its row or on its group, and the effective schedule
    deserializes, the list it returns has one run id for each occurrence,
    among the [max_runs] (10 by default) the schedule yields, that is later
    than the watermark. *)
Theorem schedule_flow_runs_returns_one_id_per_occurrence (now : Z)
    (fid : string) (max_runs : option Z) (db : DB) (flow : Flow.t)
    (g : FlowGroup.t) :
  flows db !! fid = Some flow →
  flow_groups db !! Flow.flow_group_id flow = Some g →
  ∃ ids,
    (schedule_flow_runs now (Some fid) max_runs db).1 = Ok ids
    ∧ ∀ sched,
        Flow.archived flow = false →
        Flow.is_schedule_active flow = true →
        is_Some (Flow.schedule flow) ∨ is_Some (FlowGroup.schedule g) →
        schedule_schema_load (effective_schedule g flow) = Some sched →
        length ids
        = length (filter (λ e, last_scheduled_run db fid now
                               < Event.start_time e)
                         (schedule_next sched now (default 10 max_runs))).
Proof.
  intros Hflow Hg.
  destruct (schedulable db flow) eqn:Hgate.
  - assert (Hq : flow_query db fid = Some flow).
    { unfold flow_query. by rewrite Hflow, Hgate. }
    destruct (schedule_schema_load (effective_schedule g flow))
      as [sched|] eqn:Hload.
    + destruct (schedule_events_spec in_tz_UTC fid
                  (last_scheduled_run db fid now)
                  (schedule_next sched now (default 10 max_runs)) [] db)
        as (ids & db1 & Hloop & _ & _ & _ & _ & _ & Hlen).
      rewrite (schedule_flow_runs_run Schedule schedule_schema_load
                 schedule_next in_tz_UTC now fid max_runs db flow g sched
                 Hq Hg Hload ids db1 Hloop).
      exists ids. split; [done|]. by intros sched' _ _ _ [= <-].
    + exists []. split; [|done].
      unfold schedule_flow_runs. rewrite bind_run. unfold get.
      by rewrite Hq, Hg, Hload.
  - exists []. split.
    + by rewrite (schedule_flow_runs_not_schedulable Schedule
                    schedule_schema_load schedule_next in_tz_UTC now fid
                    max_runs db flow Hflow Hgate).
    + intros sched Harchived Hactive Hsched _. exfalso.
      unfold schedulable in Hgate. rewrite Hg, Harchived, Hactive in Hgate.
      destruct Hsched as [H|H];
        rewrite (bool_decide_eq_true_2 _ H) in Hgate; simpl in Hgate;
        [done|]. by rewrite orb_true_r in Hgate.
Qed.


(** ** The core-version gate *)

(** X24.  A submission whose environment carries a truthy [__version__]
    that compares below the cutoff is refused before anything is read from
    or written to the database, whatever the project id: [create_flow]
    raises the [ValueError] whose message names the cutoff and the
    submitted version; and when the comparison itself raises, [create_flow]
    raises that exception, again leaving the database as it was. *)
Theorem create_flow_refuses_core_version_below_cutoff (now : Z)
    (uuid4 : string) (sf : SerializedFlow.t) (pid : string)
    (vgid : option string) (active : bool) (descr : option string) (db : DB)
    (flow : FlowSchema.t) (env : gmap string json) (v : json) :
  SerializedFlow.load sf = Ok flow →
  FlowSchema.environment flow = Some env →
  env !! "__version__" = Some v →
  truthy v = true →
  (core_version_lt_cutoff v = Ok true →
   create_flow_here now uuid4 sf pid vgid active descr db
   = (Raise (ValueError
               ("Prefect Serve requires new flows to be built with Prefect "
                +:+ core_version_cutoff
                +:+ "+, but this flow was built with Prefect "
                +:+ format_field format_non_str v +:+ ".")),
      db))
  ∧ (∀ e, core_version_lt_cutoff v = Raise e →
       create_flow_here now uuid4 sf pid vgid active descr db = (Raise e, db))
  ∧ (∀ s, v = JStr s → format_field format_non_str v = s).
Proof.
  intros Hload Henv Hversion Htruthy.
  split; [|split].
  - intros Hlt. unfold create_flow. rewrite Hload, Henv, bind_run.
    unfold check_core_version. by rewrite Hversion, Htruthy, Hlt.
  - intros e He. unfold create_flow. rewrite Hload, Henv, bind_run.
    unfold check_core_version. by rewrite Hversion, Htruthy, He.
  - by intros s ->.
Qed.

End registration_properties.

Lemma create_flow_succeeds_iff_witness :
  ∃ fid db',
    Example.create_flow 0 "u1" Example.serialized_flow "project" (Some "vg")
      true None Example.empty_db = (Ok fid, db').
Proof.
  apply (create_flow_succeeds_iff Example.Schedule
           Example.schedule_schema_load Example.schedule_next
           Example.in_tz_UTC Example.core_version_lt_cutoff
              Example.core_version_cutoff Example.format_non_str).
  exists Example.flow, Example.environment, {| Project.tenant_id := "tenant" |}.
  split; [reflexivity|]. split; [reflexivity|].
  split; [right; vm_compute; reflexivity|].
  split; [vm_compute; reflexivity|].
  split.
  - intros schedule c p Hschedule. discriminate Hschedule.
  - intros e He. apply elem_of_cons in He as [->|He].
    { split; [exists (Example.task "a") | exists (Example.task "b")];
        (split; [|reflexivity]); repeat constructor. }
    apply elem_of_cons in He as [->|He].
    { split; [exists (Example.task "b") | exists (Example.task "c")];
        (split; [|reflexivity]); repeat constructor. }
    by apply elem_of_nil in He.
Defined.

Lemma create_flow_failure_footprint_witness :
  (Example.create_flow 0 "u1" Example.serialized_flow_dangling_edge "project"
     (Some "vg") true None Example.empty_db).1 = Raise (KeyError "ghost")
  ∧ flow_groups (Example.create_flow 0 "u1"
                   Example.serialized_flow_dangling_edge "project"
                   (Some "vg") true None Example.empty_db).2
    = {[ "0" := default_flow_group "tenant" "vg" ]}
  ∧ flows (Example.create_flow 0 "u1"
             Example.serialized_flow_dangling_edge "project"
             (Some "vg") true None Example.empty_db).2
    = flows Example.empty_db.
Proof.
  set (db' := (Example.create_flow 0 "u1"
                 Example.serialized_flow_dangling_edge "project" (Some "vg")
                 true None Example.empty_db).2).
  assert (Hrun : Example.create_flow 0 "u1"
                   Example.serialized_flow_dangling_edge "project"
                   (Some "vg") true None Example.empty_db
                 = (Raise (KeyError "ghost"), db'))
    by (apply result_with_state; vm_compute; reflexivity).
  split; [vm_compute; reflexivity|].
  split; [vm_compute; reflexivity|].
  destruct (create_flow_failure_footprint Example.Schedule
              Example.schedule_schema_load Example.schedule_next
              Example.in_tz_UTC Example.core_version_lt_cutoff
              Example.core_version_cutoff Example.format_non_str
              0 "u1" Example.serialized_flow_dangling_edge "project"
              (Some "vg") true None Example.empty_db db' (KeyError "ghost")
              Hrun)
    as [Hsame|(slug & project & gid & _ & _ & _ & Hflows & _)].
  - rewrite Hsame. reflexivity.
  - exact Hflows.
Defined.

Lemma create_flow_stores_edges_witness :
  ∃ db' row,
    Example.create_flow 0 "u1" Example.serialized_flow "project" (Some "vg")
      true None Example.empty_db = (Ok "0", db')
    ∧ flows db' !! "0" = Some row
    ∧ length (Flow.edges row) = 2%nat
    ∧ Flow.edges row !! 1%nat
      = Some {| Edge.tenant_id := Flow.tenant_id row;
                Edge.upstream_task_id := "task-b";
                Edge.downstream_task_id := "task-c";
                Edge.key := None;
                Edge.mapped := true |}.
Proof.
  set (db' := (Example.create_flow 0 "u1" Example.serialized_flow "project"
                 (Some "vg") true None Example.empty_db).2).
  assert (Hrun : Example.create_flow 0 "u1" Example.serialized_flow
                   "project" (Some "vg") true None Example.empty_db
                 = (Ok "0", db'))
    by (apply result_with_state; vm_compute; reflexivity).
  destruct (create_flow_stores_edges Example.Schedule
              Example.schedule_schema_load Example.schedule_next
              Example.in_tz_UTC Example.core_version_lt_cutoff
              Example.core_version_cutoff Example.format_non_str
              0 "u1" Example.serialized_flow "project" (Some "vg") true None
              Example.empty_db db' "0" Example.flow eq_refl Hrun)
    as (row & Hrow & Hlen & Hedges).
  destruct (Hedges 1%nat (Example.edge "b" "c" true) eq_refl)
    as (up & down & Hup & Hdown & Hedge).
  exists db', row.
  split; [exact Hrun|]. split; [exact Hrow|]. split; [exact Hlen|].
  vm_compute in Hup. vm_compute in Hdown.
  injection Hup as <-. injection Hdown as <-. exact Hedge.
Defined.

Lemma operations_keep_invariants_witness :
  referential_integrity Example.db_two_tenants
  ∧ referential_integrity
      (update_flow_project (Some "f") (Some "project2")
         Example.db_two_tenants).2
  ∧ referential_integrity (archive_flow (Some "f") Example.db_two_tenants).2.
Proof.
  assert (Hri : referential_integrity Example.db_two_tenants).
  { intros fid f Hf. unfold Example.db_two_tenants, Example.db in Hf.
    cbn [flows] in Hf. apply lookup_singleton_Some in Hf as [<- <-].
    split.
    - exists {| Project.tenant_id := "tenant" |}.
      split; [vm_compute; reflexivity | reflexivity].
    - exists Example.group.
      split; [vm_compute; reflexivity|]. split; reflexivity. }
  destruct (operations_keep_invariants Example.Schedule
              Example.schedule_schema_load Example.schedule_next
              Example.in_tz_UTC 0 (Some "f") (Some "project2") None
              "heartbeat_enabled" JNull Example.db_two_tenants)
    as ((Harchive & _) & _ & _ & (Hmove & _) & _).
  split; [exact Hri|]. split; [exact (Hmove Hri) | exact (Harchive Hri)].
Defined.

Lemma create_flow_keeps_invariants_witness :
  versions_unique Example.db
  ∧ versions_unique
      (Example.create_flow 0 "u1" Example.serialized_flow "project"
         (Some "vg") true None Example.db).2.
Proof.
  assert (Hvu : versions_unique Example.db).
  { intros k1 k2 f1 f2 Hk1 Hk2 _ _ _.
    unfold Example.db in Hk1, Hk2. cbn [flows] in Hk1, Hk2.
    apply lookup_singleton_Some in Hk1 as [<- _].
    apply lookup_singleton_Some in Hk2 as [<- _]. reflexivity. }
  destruct (create_flow_keeps_invariants Example.Schedule
              Example.schedule_schema_load Example.schedule_next
              Example.in_tz_UTC Example.core_version_lt_cutoff
              Example.core_version_cutoff Example.format_non_str
              0 "u1" Example.serialized_flow "project" (Some "vg") true None
              Example.db) as (_ & Hkeep & _).
  split; [exact Hvu | exact (Hkeep Hvu)].
Defined.

Lemma schedule_flow_runs_returns_one_id_per_occurrence_witness :
  ∃ ids,
    (Example.schedule_flow_runs 60 (Some "f") None Example.db).1 = Ok ids
    ∧ length ids = 2%nat.
Proof.
  destruct (schedule_flow_runs_returns_one_id_per_occurrence Example.Schedule
              Example.schedule_schema_load Example.schedule_next
              Example.in_tz_UTC 60 "f" None Example.db
              (Example.stored_flow
                 (Some (JList [JNum 50; JNum 100; JNum 200; JNum 300])))
              Example.group)
    as (ids & Hids & Hlen); [vm_compute; reflexivity | vm_compute; reflexivity|].
  exists ids. split; [exact Hids|].
  rewrite (Hlen [ {| Event.start_time := 50; Event.parameter_defaults := ∅ |};
                  {| Event.start_time := 100; Event.parameter_defaults := ∅ |};
                  {| Event.start_time := 200; Event.parameter_defaults := ∅ |};
                  {| Event.start_time := 300; Event.parameter_defaults := ∅ |} ]);
    [vm_compute; reflexivity | reflexivity | reflexivity
    | left; eexists; reflexivity | reflexivity].
Defined.

(** ** The validators of the schemas *)

Lemma validate_reference_tasks_from (acc v : list json) :
  foldl (λ reference_tasks t,
           let t := match t with
                    | JObject items => dict_get "slug" items
                    | _ => t
                    end in
           reference_tasks ++ [t])
        acc v
  = acc ++ (_validate_upstream_task <$> v).
Proof.
  revert acc. induction v as [|t v IH]; intros acc; simpl.
  - by rewrite app_nil_r.
  - rewrite IH, <-app_assoc. by destruct t.
Qed.

(** X23.  The validators normalise an abbreviated task the same way
    wherever it is submitted: [_validate_reference_tasks] applies to each
    entry, in order, what [_validate_upstream_task] and
    [_validate_downstream_task] apply to an edge's end, so that the list it
    returns has the length of the submitted one; a value that is not a
    dictionary passes through each validator unchanged, and a dictionary
    without the looked-up key becomes [None]. *)
Theorem validators_normalise_alike (v : list json) :
  _validate_reference_tasks v = _validate_upstream_task <$> v
  ∧ length (_validate_reference_tasks v) = length v
  ∧ (∀ x, _validate_downstream_task x = _validate_upstream_task x)
  ∧ (∀ x, is_dict x = false →
       _validate_upstream_task x = x ∧ _validate_trigger x = x)
  ∧ (∀ items key, key ∉ items.*1 → dict_get key items = JNull).
Proof.
  assert (Hmap : _validate_reference_tasks v = _validate_upstream_task <$> v).
  { unfold _validate_reference_tasks.
    by rewrite validate_reference_tasks_from. }
  split; [done|]. split; [by rewrite Hmap, length_fmap|].
  split; [done|]. split; [by intros []|].
  intros items key Hkey. unfold dict_get.
  induction items as [|[k x] items IH]; [done|]. simpl in *.
  apply not_elem_of_cons in Hkey as [Hne Hkey].
  specialize (IH Hkey). destruct (dict_lookup key items) as [later|] eqn:Hl.
  - done.
  - by rewrite decide_False by done.
Qed.

Lemma validators_normalise_alike_witness :
  _validate_reference_tasks
    [JStr "a"; JObject [("name", JStr "B"); ("slug", JStr "b")]]
  = [JStr "a"; JStr "b"].
Proof.
  destruct (validators_normalise_alike
              [JStr "a"; JObject [("name", JStr "B"); ("slug", JStr "b")]])
    as (Hmap & _).
  rewrite Hmap. reflexivity.
Defined.

Lemma schedule_flow_runs_frame_witness :
  same_but_runs Example.db
    (Example.schedule_flow_runs 60 (Some "f") None Example.db).2
  ∧ flow_runs (Example.schedule_flow_runs 60 (Some "f") None Example.db).2
      !! "r2"
    = Some (Example.run 150 "Scheduled" false).
Proof.
  destruct (schedule_flow_runs_frame Example.Schedule
              Example.schedule_schema_load Example.schedule_next
              Example.in_tz_UTC 60 (Some "f") None Example.db)
    as (Hsame & Hold & _).
  split; [exact Hsame|].
  destruct (Hold "r2" (Example.run 150 "Scheduled" false))
    as [Hkept|[_ Hmarked]]; [vm_compute; reflexivity | exact Hkept|].
  vm_compute in Hmarked. discriminate Hmarked.
Defined.

Lemma create_flow_frame_witness :
  rows_kept Example.db
    (Example.create_flow 0 "u1" Example.serialized_flow "project" (Some "vg")
       false None Example.db).2
  ∧ flow_runs
      (Example.create_flow 0 "u1" Example.serialized_flow "project"
         (Some "vg") false None Example.db).2
    = flow_runs Example.db
  ∧ size (flow_groups
            (Example.create_flow 0 "u1" Example.serialized_flow "project"
               (Some "other") false None Example.db).2) = 2%nat.
Proof.
  destruct (create_flow_frame Example.Schedule
              Example.schedule_schema_load Example.schedule_next
              Example.in_tz_UTC Example.core_version_lt_cutoff
              Example.core_version_cutoff Example.format_non_str
              0 "u1" Example.serialized_flow "project" (Some "vg") false None
              Example.db) as (Hkept & _ & _ & _ & Hruns & _).
  split; [exact Hkept|]. split; [exact (Hruns eq_refl)|].
  destruct (create_flow_frame Example.Schedule
              Example.schedule_schema_load Example.schedule_next
              Example.in_tz_UTC Example.core_version_lt_cutoff
              Example.core_version_cutoff Example.format_non_str
              0 "u1" Example.serialized_flow "project" (Some "other") false
              None Example.db)
    as (_ & [Hsame|(gid & project & _ & Hfree & Hnew)] & _).
  - vm_compute. reflexivity.
  - unfold Example.create_flow. rewrite Hnew.
    rewrite map_size_insert_None by exact Hfree.
    vm_compute. reflexivity.
Defined.

Lemma create_flow_refuses_core_version_below_cutoff_witness :
  Example.create_flow 0 "u1" Example.serialized_flow_old_core "nowhere"
    None true None Example.db
  = (Raise (ValueError "Prefect Serve requires new flows to be built with Prefect 0.6.1+, but this flow was built with Prefect 0.5.0."),
     Example.db).
Proof.
  destruct (create_flow_refuses_core_version_below_cutoff Example.Schedule
              Example.schedule_schema_load Example.schedule_next
              Example.in_tz_UTC Example.core_version_lt_cutoff
              Example.core_version_cutoff Example.format_non_str
              0 "u1" Example.serialized_flow_old_core "nowhere" None true
              None Example.db Example.flow_old_core
              {[ "__version__" := JStr "0.5.0" ]} (JStr "0.5.0"))
    as (Hrefused & _); [reflexivity | reflexivity | vm_compute; reflexivity
                       | reflexivity |].
  unfold Example.create_flow. rewrite Hrefused; [|vm_compute; reflexivity].
  reflexivity.
Defined.
